(** * goflow: the queue, registry and store fabric of the workflow runtime

    A shallow embedding of the Go sources of the runtime
    ([runtime/flow_runtime.go]), of the Redis state store
    ([core/redis-statestore]) and of the Redis data store
    ([core/redis-datastore/redis.go]), followed by the properties of the
    specification that concern them.

    Conventions of the embedding.
    - A Go [string] is a [string] (a sequence of bytes), a [[]byte] is a
      [list Byte.byte], an [int] is a [Z], a [time.Duration] is a [Z]
      counting nanoseconds.
    - A Go map is a [gmap]; a nil map and an empty map are identified, as
      are a nil slice and an empty slice (they hold the same entries).
    - A Go [error] is an [option error]: [None] is [nil].  Error values keep
      the format string and the arguments of the [fmt.Errorf] call that
      built them instead of the rendered text.
    - The Redis server, the rmq broker and the JSON codec are collaborators
      of the runtime; they are modelled in memory, from their documented
      behaviour, in the modules [Redis], [Rmq], [Utf8] and [Json]. *)

From Stdlib Require Import ZArith NArith Ascii String List Bool Lia.
From Stdlib Require Import DecimalString DecimalZ DecimalPos.
From stdpp Require Import base option list gmap strings fin_maps.

#[local] Set Warnings "-register-all".
Local Open Scope Z_scope.

(* ===================================================================== *)
(** * Go values shared by the packages                                    *)
(* ===================================================================== *)

(** [map[string][]string], the type of HTTP headers and parsed queries. *)
Abbreviation values := (gmap string (list string)).

(** Modelled from the spec: the [Request] struct of the package
    core/runtime, whose declaration is not part of the sources at hand.  The
    fields are those [makeRequestFromTask] fills in and [Execute] reads (the
    spec: a request carries its body, headers, raw query and parsed query). *)
Record Request := mkRequest {
  req_FlowName : string;
  req_RequestID : string;
  req_Body : list Byte.byte;
  req_Header : values;
  req_RawQuery : string;
  req_Query : values;
}.

(** An argument of a formatting call. *)
Inductive arg :=
  | argS (s : string)            (* a string under %s or %v *)
  | argD (n : Z)                 (* an int under %d *)
  | argL (l : list string)       (* a []string under %v *)
  | argR (r : Request)           (* a *Request under %v *)
  | argE (e : error)             (* an error under %v, or err.Error() *)
with error :=
  | errText (text : string)      (* an error value made by a collaborator *)
  | Errorf (format : string) (args : list arg).

(** [fmt.Sprintf] with the verb [%d]. *)
Definition fmt_d (n : Z) : string := NilZero.string_of_int (Z.to_int n).

(** [string(b)] and [[]byte(s)]. *)
Definition string_of_bytes (b : list Byte.byte) : string := string_of_list_byte b.
Definition bytes_of_string (s : string) : list Byte.byte := list_byte_of_string s.

(** [for idx := 0; idx < n; idx++]: the indices the loop visits. *)
Definition upto (n : Z) : list Z := seqZ 0 n.

(** How a call ends: it returns, or it panics. *)
Inductive res (A : Type) :=
  | Ok (a : A)
  | Fail (e : error)         (* the call returns the error [e] *)
  | Panic (reason : string).
Arguments Ok {A} _.
Arguments Fail {A} _.
Arguments Panic {A} _.

Definition nil_dereference : string :=
  "runtime error: invalid memory address or nil pointer dereference".

(* ===================================================================== *)
(** * Redis, in memory                                                     *)
(* ===================================================================== *)

Module Redis.

(** [time.Second], in nanoseconds. *)
Definition Second : Z := 1000000000.

(** A stored value with the expiration it was written with (0: none). *)
Record entry (V : Type) := Entry { value : V; expiration : Z }.
Arguments Entry {V} _ _.
Arguments value {V} _.
Arguments expiration {V} _.

(** What a command answers: a value, [redis.Nil], or another error. *)
Inductive reply (A : Type) :=
  | Value (a : A)
  | Nil
  | Failed (e : error).
Arguments Value {A} _.
Arguments Nil {A}.
Arguments Failed {A} _.

(** ** Glob-style patterns of SCAN MATCH

    [*] matches any run of bytes, [?] one byte, [[...]] one byte of a
    class (with ranges [a-z], negation by a leading [^] and [\] escapes),
    [\x] the byte [x], any other byte itself. *)

Definition is_meta (c : ascii) : bool :=
  (c =? "*")%char || (c =? "?")%char || (c =? "[")%char || (c =? "\")%char.

Definition in_range (lo hi c : ascii) : bool :=
  let l := N.min (N_of_ascii lo) (N_of_ascii hi) in
  let h := N.max (N_of_ascii lo) (N_of_ascii hi) in
  (l <=? N_of_ascii c)%N && (N_of_ascii c <=? h)%N.

(** The body of a bracket expression against the byte [c]: whether a member
    matched so far, and the pattern left after the closing bracket. *)
Fixpoint class_match (p : list ascii) (c : ascii) (m : bool) : bool * list ascii :=
  match p with
  | [] => (m, [])
  | x :: p1 =>
    if (x =? "\")%char then
      match p1 with
      | y :: p2 => class_match p2 c (m || (y =? c)%char)
      | [] => (m || (x =? c)%char, [])
      end
    else if (x =? "]")%char then (m, p1)
    else
      match p1 with
      | d :: hi :: p3 =>
        if (d =? "-")%char then class_match p3 c (m || in_range x hi c)
        else class_match p1 c (m || (x =? c)%char)
      | _ => class_match p1 c (m || (x =? c)%char)
      end
  end.

Fixpoint glob_fuel (fuel : nat) (p s : list ascii) {struct fuel} : bool :=
  match fuel with
  | O => false
  | S fuel =>
    match p with
    | [] => match s with [] => true | _ :: _ => false end
    | x :: p1 =>
      if (x =? "*")%char then
        (fix star (s : list ascii) : bool :=
           glob_fuel fuel p1 s ||
           match s with [] => false | _ :: s1 => star s1 end) s
      else if (x =? "?")%char then
        match s with [] => false | _ :: s1 => glob_fuel fuel p1 s1 end
      else if (x =? "[")%char then
        match s with
        | [] => false
        | c :: s1 =>
          let neg := match p1 with y :: _ => (y =? "^")%char | [] => false end in
          let body := if neg then tail p1 else p1 in
          let '(m, rest) := class_match body c false in
          if xorb neg m then glob_fuel fuel rest s1 else false
        end
      else
        let '(lit, rest) :=
          if (x =? "\")%char then
            match p1 with y :: p2 => (y, p2) | [] => (x, p1) end
          else (x, p1) in
        match s with
        | [] => false
        | c :: s1 => if (lit =? c)%char then glob_fuel fuel rest s1 else false
        end
    end
  end.

Definition glob (pattern key : string) : bool :=
  let p := list_ascii_of_string pattern in
  glob_fuel (S (length p)) p (list_ascii_of_string key).

(** ** Integers as Redis stores them: canonical decimal, 64 bits. *)

Definition int64_min : Z := - 2 ^ 63.
Definition int64_max : Z := 2 ^ 63 - 1.

Definition parse_int64 (s : string) : option Z :=
  match NilZero.int_of_string s with
  | Some i =>
    let n := Z.of_int i in
    if (String.eqb (fmt_d n) s && (int64_min <=? n) && (n <=? int64_max))%bool
    then Some n else None
  | None => None
  end.

(** ** Commands *)

Section Commands.
Context {V : Type}.
Implicit Types db : gmap string (entry V).

Definition GET (key : string) db : reply V :=
  match db !! key with
  | Some e => Value (value e)
  | None => Nil
  end.

(** SET with an expiration; answers OK. *)
Definition SET (key : string) (v : V) (exp : Z) db : gmap string (entry V) :=
  <[key := Entry v exp]> db.

(** DEL of one key; answers the number of keys removed. *)
Definition DEL (key : string) db : Z * gmap string (entry V) :=
  match db !! key with
  | Some _ => (1, delete key db)
  | None => (0, db)
  end.

(** A complete SCAN iteration with MATCH: the keys that match. *)
Definition SCAN (pattern : string) db : list string :=
  filter (fun k => glob pattern k = true) (map fst (map_to_list db)).
End Commands.

(** INCRBY: a missing key counts as 0; the value must be an integer and the
    sum must fit 64 bits.  The expiration of the key is kept. *)
Definition INCRBY (key : string) (delta : Z) (db : gmap string (entry string))
  : reply Z * gmap string (entry string) :=
  let '(old, exp) :=
    match db !! key with
    | Some e => (parse_int64 (value e), expiration e)
    | None => (Some 0, 0)
    end in
  match old with
  | None => (Failed (errText "ERR value is not an integer or out of range"), db)
  | Some n =>
    if ((int64_min <=? n + delta) && (n + delta <=? int64_max))%bool
    then (Value (n + delta), <[key := Entry (fmt_d (n + delta)) exp]> db)
    else (Failed (errText "ERR increment or decrement would overflow"), db)
  end.

End Redis.

(* ===================================================================== *)
(** * core/redis-statestore                                                *)
(* ===================================================================== *)

Module RedisStateStore.
Import Redis.

(** The store handle; its client [rds] is the database every operation is
    run against, passed and returned explicitly. *)
Record t := mk { KeyPath : string; RetryCount : Z }.

Definition Configure (flowName requestId : string) (this : t) : t :=
  {| KeyPath := "core." +:+ flowName +:+ "." +:+ requestId;
     RetryCount := RetryCount this |}.

Definition Init (this : t) : option error := None.

(** The function run under WATCH: GET, compare, then a MULTI/EXEC pipeline
    holding one SET.  Nothing else runs against the database in between,
    so EXEC goes through. *)
Definition Update (this : t) (key oldValue newValue : string)
    (db : gmap string (entry string)) : option error * gmap string (entry string) :=
  let key := KeyPath this +:+ "." +:+ key in
  match GET key db with
  | Nil => (Some (Errorf "[%v] not exist" [argS key]), db)
  | Failed e => (Some (Errorf "unexpect error %v" [argE e]), db)
  | Value value =>
    if negb (String.eqb value oldValue)
    then (Some (Errorf "Old value doesn't match for key %s" [argS key]), db)
    else (None, SET key newValue 0 db)
  end.

Definition Incr (this : t) (key : string) (value : Z)
    (db : gmap string (entry string))
  : (Z * option error) * gmap string (entry string) :=
  let key := KeyPath this +:+ "." +:+ key in
  match INCRBY key value db with
  | (Value n, db') => ((n, None), db')
  | (Nil, db') => ((0, Some (errText "redis: nil")), db')
  | (Failed e, db') => ((0, Some e), db')
  end.

Definition Set_ (this : t) (key value : string)
    (db : gmap string (entry string)) : option error * gmap string (entry string) :=
  let key := KeyPath this +:+ "." +:+ key in
  (None, SET key value 0 db).

Definition Get (this : t) (key : string)
    (db : gmap string (entry string)) : string * option error :=
  let key := KeyPath this +:+ "." +:+ key in
  match GET key db with
  | Value value => (value, None)
  | Nil => (""%string, Some (Errorf "failed to get key %s, nil" [argS key]))
  | Failed e => (""%string, Some (Errorf "failed to get key %s, %v" [argS key; argE e]))
  end.

(** The loop over the SCAN iterator: DEL of every key it yields.  [rerr]
    keeps the last error; DEL does not fail here. *)
Definition Cleanup (this : t) (db : gmap string (entry string))
  : option error * gmap string (entry string) :=
  let key := KeyPath this +:+ ".*" in
  (None, foldl (fun db k => snd (DEL k db)) db (SCAN key db)).

Definition CopyStore (this : t) : t * option error :=
  ({| KeyPath := KeyPath this; RetryCount := RetryCount this |}, None).

End RedisStateStore.

(* ===================================================================== *)
(** * core/redis-datastore                                                 *)
(* ===================================================================== *)

Module RedisDataStore.
Import Redis.

(** [redisClient] is [Some tt] once [GetRedisDataStore] has set it. *)
Record t := mk { bucketName : string; redisClient : option unit }.

Definition not_initialized : error :=
  Errorf "redis client not initialized, use GetRedisDataStore()" [].

Definition Configure (flowName requestId : string) (this : t) : t :=
  {| bucketName := "core-" +:+ flowName +:+ "-" +:+ requestId;
     redisClient := redisClient this |}.

Definition Init (this : t) : option error :=
  match redisClient this with
  | None => Some not_initialized
  | Some _ => None
  end.

(** getPath produces a string as bucketname.value *)
Definition getPath (bucket key : string) : string :=
  let fileName := key +:+ ".value" in
  bucket +:+ "." +:+ fileName.

Definition Set_ (this : t) (key : string) (value : list Byte.byte)
    (db : gmap string (entry string)) : option error * gmap string (entry string) :=
  match redisClient this with
  | None => (Some not_initialized, db)
  | Some _ =>
    let fullPath := getPath (bucketName this) key in
    (None, SET fullPath (string_of_bytes value) 0 db)
  end.

Definition Get (this : t) (key : string)
    (db : gmap string (entry string)) : list Byte.byte * option error :=
  match redisClient this with
  | None => ([], Some not_initialized)
  | Some _ =>
    let fullPath := getPath (bucketName this) key in
    match GET fullPath db with
    | Value value => (bytes_of_string value, None)
    | Nil =>
      ([], Some (Errorf "error reading: %s, error: %s"
                   [argS fullPath; argE (errText "redis: nil")]))
    | Failed e =>
      ([], Some (Errorf "error reading: %s, error: %s" [argS fullPath; argE e]))
    end
  end.

Definition Del (this : t) (key : string)
    (db : gmap string (entry string)) : option error * gmap string (entry string) :=
  match redisClient this with
  | None => (Some not_initialized, db)
  | Some _ =>
    let fullPath := getPath (bucketName this) key in
    (None, snd (DEL fullPath db))
  end.

(** [Cleanup] does not test [redisClient] as [Set], [Get] and [Del] do:
    without a client the call of [Scan] on the nil interface panics.
    With one, the loop over the SCAN iterator runs as in the state store
    and nil is returned. *)
Definition Cleanup (this : t) (db : gmap string (entry string))
  : res unit * gmap string (entry string) :=
  let key := bucketName this +:+ ".*" in
  match redisClient this with
  | None => (Panic nil_dereference, db)
  | Some _ => (Ok tt, foldl (fun db k => snd (DEL k db)) db (SCAN key db))
  end.

Definition CopyStore (this : t) : t * option error :=
  ({| bucketName := bucketName this; redisClient := redisClient this |}, None).

End RedisDataStore.

(* ===================================================================== *)
(** * unicode/utf8, the part encoding/json relies on                       *)
(* ===================================================================== *)

Module Utf8.
Local Open Scope N_scope.

Definition RuneError : N := 0xFFFD.
Definition MaxRune : N := 0x10FFFF.
Definition surrogateMin : N := 0xD800.
Definition surrogateMax : N := 0xDFFF.

Definition maskx : N := 0x3F.
Definition mask2 : N := 0x1F.
Definition mask3 : N := 0x0F.
Definition mask4 : N := 0x07.
Definition tx : N := 0x80.
Definition t2 : N := 0xC0.
Definition t3 : N := 0xE0.
Definition t4 : N := 0xF0.
Definition locb : N := 0x80.
Definition hicb : N := 0xBF.

(** The table [first] for the lead bytes of multi-byte sequences: the
    length of the sequence and the range accepted for its second byte.
    [None] for the leads 0x80-0xC1 and 0xF5-0xFF, which start nothing. *)
Definition first (p0 : N) : option (N * (N * N)) :=
  if (0xC2 <=? p0) && (p0 <=? 0xDF) then Some (2, (locb, hicb))
  else if p0 =? 0xE0 then Some (3, (0xA0, hicb))
  else if (0xE1 <=? p0) && (p0 <=? 0xEC) then Some (3, (locb, hicb))
  else if p0 =? 0xED then Some (3, (locb, 0x9F))
  else if (0xEE <=? p0) && (p0 <=? 0xEF) then Some (3, (locb, hicb))
  else if p0 =? 0xF0 then Some (4, (0x90, hicb))
  else if (0xF1 <=? p0) && (p0 <=? 0xF3) then Some (4, (locb, hicb))
  else if p0 =? 0xF4 then Some (4, (locb, 0x8F))
  else None.

(** [utf8.DecodeRune]: the first rune of [p] and its width in bytes;
    [(RuneError, 1)] where the encoding is invalid. *)
Definition DecodeRune (p : list N) : N * nat :=
  match p with
  | [] => (RuneError, 0%nat)
  | p0 :: p1 =>
    if p0 <? 0x80 then (p0, 1%nat)
    else
      match first p0 with
      | None => (RuneError, 1%nat)
      | Some (sz, (lo, hi)) =>
        match p1 with
        | [] => (RuneError, 1%nat)
        | b1 :: p2 =>
          if (b1 <? lo) || (hi <? b1) then (RuneError, 1%nat)
          else if sz <=? 2 then
            (N.lor (N.shiftl (N.land p0 mask2) 6) (N.land b1 maskx), 2%nat)
          else
            match p2 with
            | [] => (RuneError, 1%nat)
            | b2 :: p3 =>
              if (b2 <? locb) || (hicb <? b2) then (RuneError, 1%nat)
              else if sz <=? 3 then
                (N.lor (N.lor (N.shiftl (N.land p0 mask3) 12)
                              (N.shiftl (N.land b1 maskx) 6))
                       (N.land b2 maskx), 3%nat)
              else
                match p3 with
                | [] => (RuneError, 1%nat)
                | b3 :: _ =>
                  if (b3 <? locb) || (hicb <? b3) then (RuneError, 1%nat)
                  else
                    (N.lor (N.lor (N.lor (N.shiftl (N.land p0 mask4) 18)
                                         (N.shiftl (N.land b1 maskx) 12))
                                  (N.shiftl (N.land b2 maskx) 6))
                           (N.land b3 maskx), 4%nat)
                end
            end
        end
      end
  end.

(** [byte(x)]: the low eight bits. *)
Definition byte (x : N) : N := N.land x 0xFF.

(** [utf8.AppendRune] to an empty slice. *)
Definition EncodeRune (r : N) : list N :=
  if r <=? 0x7F then [byte r]
  else if r <=? 0x7FF then
    [N.lor t2 (byte (N.shiftr r 6)); N.lor tx (N.land (byte r) maskx)]
  else
    let r3 :=
      if (MaxRune <? r) || ((surrogateMin <=? r) && (r <=? surrogateMax))
      then Some RuneError
      else if r <=? 0xFFFF then Some r else None in
    match r3 with
    | Some r =>
      [N.lor t3 (byte (N.shiftr r 12));
       N.lor tx (N.land (byte (N.shiftr r 6)) maskx);
       N.lor tx (N.land (byte r) maskx)]
    | None =>
      [N.lor t4 (byte (N.shiftr r 18));
       N.lor tx (N.land (byte (N.shiftr r 12)) maskx);
       N.lor tx (N.land (byte (N.shiftr r 6)) maskx);
       N.lor tx (N.land (byte r) maskx)]
    end.

(** Reading a byte string rune by rune, an invalid byte giving
    [RuneError] and being stepped over alone: what [json.Marshal] does to
    a Go string (strings are "coerced to valid UTF-8, replacing invalid
    bytes with the Unicode replacement rune"). *)
Fixpoint runes_fuel (fuel : nat) (p : list N) : list N :=
  match fuel with
  | O => []
  | S fuel =>
    match p with
    | [] => []
    | _ :: _ =>
      let '(r, size) := DecodeRune p in
      r :: runes_fuel fuel (drop size p)
    end
  end.

(** [utf8.Valid]: no position where decoding fails. *)
Fixpoint valid_fuel (fuel : nat) (p : list N) : bool :=
  match fuel with
  | O => true
  | S fuel =>
    match p with
    | [] => true
    | _ :: _ =>
      let '(r, size) := DecodeRune p in
      if (r =? RuneError) && (size =? 1)%nat then false
      else valid_fuel fuel (drop size p)
    end
  end.

Definition bytes (s : string) : list N := map N_of_ascii (list_ascii_of_string s).
Definition of_bytes (p : list N) : string := string_of_list_ascii (map ascii_of_N p).

Definition runes (s : string) : list N := runes_fuel (String.length s) (bytes s).
Definition of_runes (rs : list N) : string := of_bytes (flat_map EncodeRune rs).
Definition ValidString (s : string) : bool := valid_fuel (String.length s) (bytes s).

End Utf8.

(* ===================================================================== *)
(** * encoding/json, at the level of the document                          *)
(* ===================================================================== *)

(** The task that travels on a queue. *)
Record Task := mkTask {
  FlowName : string;      (* json:"flow_name" *)
  RequestID : string;     (* json:"request_id" *)
  Body : string;          (* json:"body" *)
  Header : values;        (* json:"header" *)
  RawQuery : string;      (* json:"raw_query" *)
  Query : values;         (* json:"query" *)
  RequestType : string;   (* json:"request_type" *)
}.

Module Json.

(** A JSON document; strings are sequences of code points. *)
Inductive json :=
  | JNull
  | JBool (b : bool)
  | JNumber (literal : string)
  | JString (s : list N)
  | JArray (items : list json)
  | JObject (members : list (list N * json)).

(** What a queue or a registry key holds: the text of a JSON document,
    kept as the document it denotes, or any other text. *)
Inductive wire :=
  | Document (j : json)
  | Text (raw : string).

Definition type_error (what : string) : error :=
  Errorf "json: cannot unmarshal %s into Go value" [argS what].
Definition syntax_error : error :=
  errText "invalid character looking for beginning of value".

(** Member names match a field exactly or under case folding: the ASCII
    letters, and the two runes whose simple folding is an ASCII letter
    (U+017F for s, U+212A for k). *)
Definition fold (r : N) : N :=
  if ((0x61 <=? r) && (r <=? 0x7A))%N then (r - 0x20)%N
  else if (r =? 0x17F)%N then 0x53%N
  else if (r =? 0x212A)%N then 0x4B%N
  else r.

Definition names (field : string) (key : list N) : bool :=
  bool_decide (map fold key = map fold (Utf8.bytes field)).

(** Decoding into a [string]: null leaves the variable as it is. *)
Definition into_string (cur : string) (v : json) : error + string :=
  match v with
  | JNull => inr cur
  | JString s => inr (Utf8.of_runes s)
  | JBool _ => inl (type_error "bool")
  | JNumber _ => inl (type_error "number")
  | JArray _ => inl (type_error "array")
  | JObject _ => inl (type_error "object")
  end.

(** Decoding into the elements of a fresh [[]string]. *)
Fixpoint into_elements (items : list json) : error + list string :=
  match items with
  | [] => inr []
  | v :: items =>
    match into_string "" v with
    | inl e => inl e
    | inr s =>
      match into_elements items with
      | inl e => inl e
      | inr l => inr (s :: l)
      end
    end
  end.

Definition into_strings (v : json) : error + list string :=
  match v with
  | JNull => inr []
  | JArray items => into_elements items
  | JBool _ => inl (type_error "bool")
  | JNumber _ => inl (type_error "number")
  | JString _ => inl (type_error "string")
  | JObject _ => inl (type_error "object")
  end.

(** Decoding the members of an object into a map, in order: the map at
    hand is reused, a later member replaces an earlier one. *)
Fixpoint into_members (cur : values) (members : list (list N * json))
  : error + values :=
  match members with
  | [] => inr cur
  | (k, v) :: members =>
    match into_strings v with
    | inl e => inl e
    | inr l => into_members (<[Utf8.of_runes k := l]> cur) members
    end
  end.

Definition into_values (cur : values) (v : json) : error + values :=
  match v with
  | JNull => inr cur
  | JObject members => into_members cur members
  | JBool _ => inl (type_error "bool")
  | JNumber _ => inl (type_error "number")
  | JString _ => inl (type_error "string")
  | JArray _ => inl (type_error "array")
  end.

(** One member of the object decoded into the field of [Task] it names;
    a member that names no field is skipped. *)
Definition into_field (t : Task) (key : list N) (v : json) : error + Task :=
  if names "flow_name" key then
    match into_string (FlowName t) v with
    | inl e => inl e
    | inr s => inr (mkTask s (RequestID t) (Body t) (Header t) (RawQuery t) (Query t) (RequestType t))
    end
  else if names "request_id" key then
    match into_string (RequestID t) v with
    | inl e => inl e
    | inr s => inr (mkTask (FlowName t) s (Body t) (Header t) (RawQuery t) (Query t) (RequestType t))
    end
  else if names "body" key then
    match into_string (Body t) v with
    | inl e => inl e
    | inr s => inr (mkTask (FlowName t) (RequestID t) s (Header t) (RawQuery t) (Query t) (RequestType t))
    end
  else if names "header" key then
    match into_values (Header t) v with
    | inl e => inl e
    | inr m => inr (mkTask (FlowName t) (RequestID t) (Body t) m (RawQuery t) (Query t) (RequestType t))
    end
  else if names "raw_query" key then
    match into_string (RawQuery t) v with
    | inl e => inl e
    | inr s => inr (mkTask (FlowName t) (RequestID t) (Body t) (Header t) s (Query t) (RequestType t))
    end
  else if names "query" key then
    match into_values (Query t) v with
    | inl e => inl e
    | inr m => inr (mkTask (FlowName t) (RequestID t) (Body t) (Header t) (RawQuery t) m (RequestType t))
    end
  else if names "request_type" key then
    match into_string (RequestType t) v with
    | inl e => inl e
    | inr s => inr (mkTask (FlowName t) (RequestID t) (Body t) (Header t) (RawQuery t) (Query t) s)
    end
  else inr t.

Fixpoint into_task (t : Task) (members : list (list N * json)) : error + Task :=
  match members with
  | [] => inr t
  | (k, v) :: members =>
    match into_field t k v with
    | inl e => inl e
    | inr t' => into_task t' members
    end
  end.

(** [var task Task; json.Unmarshal(payload, &task)].  A type error makes
    Unmarshal return an error; the caller drops the task then, so the
    fields it may have filled before are not modelled. *)
Definition zero : Task := mkTask "" "" "" ∅ "" ∅ "".

Definition Unmarshal (payload : wire) : error + Task :=
  match payload with
  | Text _ => inl syntax_error
  | Document JNull => inr zero
  | Document (JObject members) => into_task zero members
  | Document (JBool _) => inl (type_error "bool")
  | Document (JNumber _) => inl (type_error "number")
  | Document (JString _) => inl (type_error "string")
  | Document (JArray _) => inl (type_error "array")
  end.

(** [json.Marshal] of a string, of a [map[string][]string] and of a task
    (it does not fail on these types). *)
Definition of_string (s : string) : json := JString (Utf8.runes s).

Definition of_values (m : values) : json :=
  JObject (map (fun kv => (Utf8.runes (fst kv), JArray (map of_string (snd kv))))
               (map_to_list m)).

Definition Marshal (t : Task) : wire :=
  Document (JObject [
    (Utf8.runes "flow_name", of_string (FlowName t));
    (Utf8.runes "request_id", of_string (RequestID t));
    (Utf8.runes "body", of_string (Body t));
    (Utf8.runes "header", of_values (Header t));
    (Utf8.runes "raw_query", of_string (RawQuery t));
    (Utf8.runes "query", of_values (Query t));
    (Utf8.runes "request_type", of_string (RequestType t))]).

End Json.

(* ===================================================================== *)
(** * rmq: queues, deliveries and the broker behind them                   *)
(* ===================================================================== *)

Module Rmq.
Import Json.

(** A queue object, as [OpenQueue] returns it.  A queue object is known by
    its handle, its position among the objects of the connection. *)
Record Queue := mkQueue {
  name : string;
  pushQueue : option nat;          (* set by SetPushQueue *)
  consuming : option (Z * Z);      (* prefetch limit and poll duration *)
  consumers : list string;         (* tags, in the order they were added *)
}.

(** The calls that reach the broker and that it may refuse. *)
Inductive call :=
  | COpenConnection (tag : string)
  | COpenQueue (name : string)
  | CStartConsuming (name : string)
  | CAddConsumer (name tag : string)
  | CPublish (name : string) (payload : wire).

(** The broker: the ready list of every queue name, oldest message first,
    and the calls it fails, with the error they return. *)
Record Broker := mkBroker {
  ready : gmap string (list wire);
  refuses : call -> option error;
}.

Definition ErrorAlreadyConsuming : error := errText "rmq: must not call StartConsuming() multiple times".
Definition ErrorNotConsuming : error := errText "rmq: must call StartConsuming() before adding consumers".
Definition ErrorNotFound : error := errText "rmq: entity not found".

Definition OpenQueue (b : Broker) (n : string) (objs : list Queue)
  : (error + nat) * list Queue :=
  match refuses b (COpenQueue n) with
  | Some e => (inl e, objs)
  | None => (inr (length objs), objs ++ [mkQueue n None None []])
  end.

Definition SetPushQueue (q pushQ : nat) (objs : list Queue) : list Queue :=
  alter (fun o => mkQueue (name o) (Some pushQ) (consuming o) (consumers o)) q objs.

Definition StartConsuming (b : Broker) (q : nat) (prefetchLimit pollDuration : Z)
    (objs : list Queue) : option error * list Queue :=
  match objs !! q with
  | None => (Some ErrorNotFound, objs)
  | Some o =>
    match consuming o with
    | Some _ => (Some ErrorAlreadyConsuming, objs)
    | None =>
      match refuses b (CStartConsuming (name o)) with
      | Some e => (Some e, objs)
      | None =>
        (None, alter (fun o => mkQueue (name o) (pushQueue o)
                                 (Some (prefetchLimit, pollDuration)) (consumers o)) q objs)
      end
    end
  end.

Definition AddConsumer (b : Broker) (q : nat) (tag : string) (objs : list Queue)
  : option error * list Queue :=
  match objs !! q with
  | None => (Some ErrorNotFound, objs)
  | Some o =>
    match consuming o with
    | None => (Some ErrorNotConsuming, objs)
    | Some _ =>
      match refuses b (CAddConsumer (name o) tag) with
      | Some e => (Some e, objs)
      | None =>
        (None, alter (fun o => mkQueue (name o) (pushQueue o) (consuming o)
                                 (consumers o ++ [tag])) q objs)
      end
    end
  end.

(** [StopAllConsuming]: every queue of the connection stops; its consumers
    are gone once the returned channel is closed. *)
Definition StopAllConsuming (objs : list Queue) : list Queue :=
  map (fun o => mkQueue (name o) (pushQueue o) None []) objs.

Definition PublishBytes (n : string) (payload : wire) (b : Broker)
  : option error * Broker :=
  match refuses b (CPublish n payload) with
  | Some e => (Some e, b)
  | None =>
    (None, mkBroker (<[n := default [] (ready b !! n) ++ [payload]]> (ready b)) (refuses b))
  end.

(** A delivery handed to a consumer.  It is unacked until [Ack] or [Push]
    takes it off the unacked list; either call answers [ErrorNotFound]
    when the delivery is no longer there. *)
Inductive dcall := Ack | Push.
Inductive dstatus := Unacked | Acked | Pushed.

Record Delivery := mkDelivery {
  Payload : wire;
  status : dstatus;
  calls : list dcall;                (* the calls made on the delivery *)
  fails : dcall -> option error;     (* the calls the broker fails *)
}.

Definition settle (c : dcall) (to : dstatus) (d : Delivery) : option error * Delivery :=
  match fails d c with
  | Some e => (Some e, mkDelivery (Payload d) (status d) (calls d ++ [c]) (fails d))
  | None =>
    match status d with
    | Unacked => (None, mkDelivery (Payload d) to (calls d ++ [c]) (fails d))
    | _ => (Some ErrorNotFound, mkDelivery (Payload d) (status d) (calls d ++ [c]) (fails d))
    end
  end.

Definition DoAck : Delivery -> option error * Delivery := settle Ack Acked.
Definition DoPush : Delivery -> option error * Delivery := settle Push Pushed.

End Rmq.

(* ===================================================================== *)
(** * runtime/flow_runtime.go                                              *)
(* ===================================================================== *)

Definition InternalRequestQueueInitial : string := "goflow-internal-request".
Definition FlowKeyInitial : string := "goflow-flow".
Definition WorkerKeyInitial : string := "goflow-worker".

Definition GoFlowRegisterInterval : Z := 4.
Definition RDBKeyTimeOut : Z := 10.

Definition PartialRequest : string := "PARTIAL".
Definition NewRequest : string := "NEW".
Definition PauseRequest : string := "PAUSE".
Definition ResumeRequest : string := "RESUME".
Definition StopRequest : string := "STOP".

(** The five handlers [handleRequest] dispatches to. *)
Inductive kind := KPartial | KNew | KPause | KResume | KStop.

(** A line given to [Logger.Log]: the text and what is appended to or
    formatted into it. *)
Record line := Line { text : string; about : list arg }.

Record Worker := mkWorker {
  ID : string;               (* json:"id" *)
  WorkerFlows : list string; (* json:"flows" *)
  WorkerConcurrency : Z;     (* json:"concurrency" *)
}.

Definition makeslice_range : string := "runtime error: makeslice: len out of range".
Definition index_range : string := "runtime error: index out of range".
Definition reflect_IsNil_zero : string := "reflect: call of reflect.Value.IsNil on zero Value".

(** The line feed that ends the formats of [log.Printf]. *)
Definition LF : string := String (ascii_of_nat 10) "".

(** A value of the interface [rmq.Connection], as the field
    [rmqConnection] holds it: the nil interface of a runtime whose
    connection was never set, a nil pointer held in the interface, or a
    connection with the queue objects opened on it. *)
Inductive connection :=
  | NoConnection
  | NilConnection
  | Connection (objs : list Rmq.Queue).

(** The queue objects of a connection that is there. *)
Definition queues (c : connection) : option (list Rmq.Queue) :=
  match c with
  | Connection objs => Some objs
  | NoConnection | NilConnection => None
  end.

Section Runtime.

(** [FlowDefinitionHandler]: the function that defines a flow. *)
Context {Handler : Type}.

(** The fields of [FlowRuntime] that the code below reads or writes.
    The guards [reflect.ValueOf(fRuntime.rmqConnection).IsNil()] of
    [Register], [EnterWorkerMode], [ExitWorkerMode] and [cleanTaskQueues]
    answer true for [NilConnection] and false for a connection, and panic
    for [NoConnection]: [reflect.ValueOf] of the nil interface is the zero
    [Value], on which [IsNil] panics.  A value of [taskQueues] is a handle
    into the queue objects of the connection. *)
Record FlowRuntime := mkRuntime {
  Flows : gmap string Handler;
  Concurrency : Z;
  RetryQueueCount : Z;
  workerMode : bool;
  taskQueues : gmap string nat;
  rmqConnection : connection;
}.

(** The runtime with what it acts on: the broker, the registry keys of
    the Redis client [rdb], the lines given to [Logger] and those printed
    with the package [log]. *)
Record World := mkWorld {
  runtime : FlowRuntime;
  broker : Rmq.Broker;
  rdb : gmap string (Redis.entry Json.wire);
  logged : list line;
  printed : list line;
}.

Definition setRuntime (rt : FlowRuntime) (w : World) : World :=
  mkWorld rt (broker w) (rdb w) (logged w) (printed w).
Definition setBroker (b : Rmq.Broker) (w : World) : World :=
  mkWorld (runtime w) b (rdb w) (logged w) (printed w).
Definition setRdb (db : gmap string (Redis.entry Json.wire)) (w : World) : World :=
  mkWorld (runtime w) (broker w) db (logged w) (printed w).
Definition Log (l : line) (w : World) : World :=
  mkWorld (runtime w) (broker w) (rdb w) (logged w ++ [l]) (printed w).
Definition Printf (l : line) (w : World) : World :=
  mkWorld (runtime w) (broker w) (rdb w) (logged w) (printed w ++ [l]).

Definition setFlows (m : gmap string Handler) (rt : FlowRuntime) : FlowRuntime :=
  mkRuntime m (Concurrency rt) (RetryQueueCount rt) (workerMode rt) (taskQueues rt) (rmqConnection rt).
Definition setWorkerMode (b : bool) (rt : FlowRuntime) : FlowRuntime :=
  mkRuntime (Flows rt) (Concurrency rt) (RetryQueueCount rt) b (taskQueues rt) (rmqConnection rt).
Definition setTaskQueues (m : gmap string nat) (rt : FlowRuntime) : FlowRuntime :=
  mkRuntime (Flows rt) (Concurrency rt) (RetryQueueCount rt) (workerMode rt) m (rmqConnection rt).
Definition setConnection (c : connection) (rt : FlowRuntime) : FlowRuntime :=
  mkRuntime (Flows rt) (Concurrency rt) (RetryQueueCount rt) (workerMode rt) (taskQueues rt) c.

(** The collaborators that are not part of the sources at hand:
    the exporter of a flow definition, [FlowExecutor.Init], the two
    controllers [ExecuteFlowHandler] and [PartialExecuteFlowHandler], and
    the operations [Pause], [Resume] and [Stop] of the sdk's flow executor.
    They may do anything to the world. *)
Variable getFlowDefinition : Handler -> error + string.
Variable executorInit : Handler -> Request -> World -> option error * World.
Variable ExecuteFlowHandler : Handler -> Request -> World -> option error * World.
Variable PartialExecuteFlowHandler : Handler -> Request -> World -> option error * World.
Variable flowExecutor : kind -> Handler -> string -> World -> option error * World.

(** ** A state and error monad for the calls that return at the first error *)

Definition M (A : Type) : Type := World -> res A * World.

Definition ret {A} (a : A) : M A := fun w => (Ok a, w).
Definition fail {A} (e : error) : M A := fun w => (Fail e, w).
Definition panic {A} (reason : string) : M A := fun w => (Panic reason, w).
Definition bind {A B} (c : M A) (k : A -> M B) : M B := fun w =>
  match c w with
  | (Ok a, w') => k a w'
  | (Fail e, w') => (Fail e, w')
  | (Panic r, w') => (Panic r, w')
  end.

Notation "x <- c ;; k" := (bind c (fun x => k))
  (at level 100, c at next level, right associativity).
Notation "c ;; k" := (bind c (fun _ => k))
  (at level 100, right associativity).

(** [if err != nil { return fmt.Errorf(..., err) }] *)
Definition wrap {A} (f : error -> error) (c : M A) : M A := fun w =>
  match c w with
  | (Fail e, w') => (Fail (f e), w')
  | r => r
  end.

Definition getRuntime : M FlowRuntime := fun w => (Ok (runtime w), w).
Definition modifyRuntime (f : FlowRuntime -> FlowRuntime) : M unit :=
  fun w => (Ok tt, setRuntime (f (runtime w)) w).
Definition log (l : line) : M unit := fun w => (Ok tt, Log l w).

Fixpoint forM_ {A} (l : list A) (f : A -> M unit) : M unit :=
  match l with
  | [] => ret tt
  | a :: l => f a ;; forM_ l f
  end.

(** A method called on the connection of the runtime; on the nil
    interface and on the nil pointer the call panics. *)
Definition onConnection {A}
    (f : Rmq.Broker -> list Rmq.Queue -> (error + A) * list Rmq.Queue) : M A := fun w =>
  match rmqConnection (runtime w) with
  | NoConnection | NilConnection => (Panic nil_dereference, w)
  | Connection objs =>
    let '(r, objs') := f (broker w) objs in
    let w' := setRuntime (setConnection (Connection objs') (runtime w)) w in
    match r with
    | inl e => (Fail e, w')
    | inr a => (Ok a, w')
    end
  end.

Definition answer (r : option error * list Rmq.Queue) : (error + unit) * list Rmq.Queue :=
  match r with
  | (Some e, objs) => (inl e, objs)
  | (None, objs) => (inr tt, objs)
  end.

Definition OpenQueue (n : string) : M nat :=
  onConnection (fun b objs => Rmq.OpenQueue b n objs).
Definition SetPushQueue (q pushQ : nat) : M unit :=
  onConnection (fun b objs => (inr tt, Rmq.SetPushQueue q pushQ objs)).
Definition StartConsuming (q : nat) (prefetchLimit pollDuration : Z) : M unit :=
  onConnection (fun b objs => answer (Rmq.StartConsuming b q prefetchLimit pollDuration objs)).
Definition AddConsumer (q : nat) (tag : string) : M unit :=
  onConnection (fun b objs => answer (Rmq.AddConsumer b q tag objs)).

(** [pushQueues[idx]] *)
Definition index (pushQueues : list nat) (idx : Z) : M nat :=
  match pushQueues !! Z.to_nat idx with
  | Some q => ret q
  | None => panic index_range
  end.

Definition internalRequestQueueId (flowName : string) : string :=
  InternalRequestQueueInitial +:+ ":" +:+ flowName.

Definition requestQueueId (flowName : string) : string := flowName.

(** ** initializeTaskQueues *)

(** The first loop: it opens the retry queues and chains them.  The slice
    [pushQueues] is filled in the order of its indices. *)
Fixpoint openPushQueues (baseQId : string) (idxs : list Z) (prevQ : nat)
    (pushQueues : list nat) : M (list nat) :=
  match idxs with
  | [] => ret pushQueues
  | idx :: idxs =>
    q <- wrap (fun e => Errorf "failed to open push queue, error %v" [argE e])
           (OpenQueue (baseQId +:+ "-push-" +:+ fmt_d idx)) ;;
    SetPushQueue prevQ q ;;
    openPushQueues baseQId idxs q (pushQueues ++ [q])
  end.

(** The function given to [flows.ForEach]; it ends the iteration at the
    first error, which [initializeTaskQueues] then returns. *)
Definition initializeFlow (flowName : string) : M unit :=
  rt <- getRuntime ;;
  let baseQId := internalRequestQueueId flowName in
  taskQueue <- wrap (fun e => Errorf "failed to open queue, error %v" [argE e])
                 (OpenQueue baseQId) ;;
  (if RetryQueueCount rt <? 0 then panic makeslice_range else ret tt) ;;
  pushQueues <- openPushQueues baseQId (upto (RetryQueueCount rt)) taskQueue [] ;;
  wrap (fun e => Errorf "failed to start consumer taskQueue, error %v" [argE e])
    (StartConsuming taskQueue 10 Redis.Second) ;;
  modifyRuntime (fun rt => setTaskQueues (<[flowName := taskQueue]> (taskQueues rt)) rt) ;;
  forM_ (upto (RetryQueueCount rt)) (fun idx =>
    q <- index pushQueues idx ;;
    wrap (fun e => Errorf "failed to start consumer pushQ1, error %v" [argE e])
      (StartConsuming q 10 Redis.Second)) ;;
  forM_ (upto (Concurrency rt)) (fun idx =>
    wrap (fun e => Errorf "failed to add consumer, error %v" [argE e])
      (AddConsumer taskQueue ("request-consumer-" +:+ fmt_d idx))) ;;
  forM_ (upto (RetryQueueCount rt)) (fun idx =>
    q <- index pushQueues idx ;;
    wrap (fun e => Errorf "failed to add consumer, error %v" [argE e])
      (AddConsumer q ("request-consumer-" +:+ fmt_d idx))).

(** [flows] is [fRuntime.Flows] at both call sites; [ForEach] visits its
    entries in an order of its own, here that of [map_to_list]. *)
Definition initializeTaskQueues : M unit :=
  rt <- getRuntime ;;
  forM_ (map fst (map_to_list (Flows rt))) initializeFlow.

Definition cleanTaskQueues : M unit :=
  rt <- getRuntime ;;
  match rmqConnection rt with
  | NoConnection => panic reflect_IsNil_zero
  | NilConnection => ret tt
  | Connection objs =>
    modifyRuntime (setConnection (Connection (Rmq.StopAllConsuming objs)))
  end ;;
  modifyRuntime (setTaskQueues ∅).

(** ** Register, EnterWorkerMode, ExitWorkerMode *)

(** The first loop of [Register]: it returns at the first name that is
    registered already and collects the names otherwise. *)
Fixpoint checkNames (registry : gmap string Handler) (names : list string)
    (flowNames : list string) : error + list string :=
  match names with
  | [] => inr flowNames
  | flowName :: names =>
    match registry !! flowName with
    | Some _ => inl (Errorf "flow %s already registered" [argS flowName])
    | None => checkNames registry names (flowNames ++ [flowName])
    end
  end.

Definition Register (flows : gmap string Handler) : M unit :=
  rt <- getRuntime ;;
  match rmqConnection rt with
  | NoConnection => panic reflect_IsNil_zero
  | NilConnection =>
    fail (Errorf "unable to register flows, rmq connection not initialized" [])
  | Connection _ =>
    if decide (size flows = 0%nat) then ret tt
    else
      match checkNames (Flows rt) (map fst (map_to_list flows)) [] with
      | inl e => fail e
      | inr flowNames =>
        modifyRuntime (fun rt =>
          setFlows (foldl (fun m kv => <[fst kv := snd kv]> m) (Flows rt) (map_to_list flows)) rt) ;;
        (if workerMode rt
         then wrap (fun e => Errorf "failed to initialize task queues for flows %v, error %v"
                               [argL flowNames; argE e])
                initializeTaskQueues
         else ret tt) ;;
        log (Line "[goflow] queue workers for flows %v started successfully" [argL flowNames])
      end
  end.

Definition EnterWorkerMode : M unit :=
  rt <- getRuntime ;;
  match rmqConnection rt with
  | NoConnection => panic reflect_IsNil_zero
  | NilConnection =>
    fail (Errorf "unable to enter worker mode, rmq connection not initialized" [])
  | Connection _ =>
    if workerMode rt then ret tt
    else
      modifyRuntime (setWorkerMode true) ;;
      wrap (fun e => Errorf "failed to enter worker mode, error: " [argE e])
        initializeTaskQueues
  end.

Definition ExitWorkerMode : M unit :=
  rt <- getRuntime ;;
  match rmqConnection rt with
  | NoConnection => panic reflect_IsNil_zero
  | NilConnection => ret tt
  | Connection _ =>
    if negb (workerMode rt) then ret tt
    else
      modifyRuntime (setWorkerMode false) ;;
      wrap (fun e => Errorf "failed to exit worker mode, error: " [argE e])
        cleanTaskQueues
  end.

(** ** Publishing tasks *)

Definition publish (n : string) (data : Json.wire) : M unit := fun w =>
  match Rmq.PublishBytes n data (broker w) with
  | (Some e, b) => (Fail e, setBroker b w)
  | (None, b) => (Ok tt, setBroker b w)
  end.

Definition refused (c : Rmq.call) : M unit := fun w =>
  match Rmq.refuses (broker w) c with
  | Some e => (Fail e, w)
  | None => (Ok tt, w)
  end.

(** The body shared, word for word, by [Execute], [Pause], [Stop] and
    [Resume]: a connection and a queue of their own, then one task. *)
Definition submit (requestType : string) (flowName : string) (request : Request) : M unit :=
  wrap (fun e => Errorf "failed to initiate connection, error %v" [argE e])
    (refused (Rmq.COpenConnection "goflow")) ;;
  wrap (fun e => Errorf "failed to get queue, error %v" [argE e])
    (refused (Rmq.COpenQueue (internalRequestQueueId flowName))) ;;
  let data := Json.Marshal
    {| FlowName := flowName;
       RequestID := req_RequestID request;
       Body := string_of_bytes (req_Body request);
       Header := req_Header request;
       RawQuery := req_RawQuery request;
       Query := req_Query request;
       RequestType := requestType |} in
  wrap (fun e => Errorf "failed to publish task, error %v" [argE e])
    (publish (internalRequestQueueId flowName) data).

Definition Execute : string -> Request -> M unit := submit NewRequest.
Definition Pause : string -> Request -> M unit := submit PauseRequest.
Definition Stop : string -> Request -> M unit := submit StopRequest.
Definition Resume : string -> Request -> M unit := submit ResumeRequest.

(** [fRuntime.taskQueues[pr.FlowName].PublishBytes(data)]: a flow without
    an entry yields the nil queue, and the method call on it panics. *)
Definition EnqueuePartialRequest (pr : Request) : M unit :=
  let data := Json.Marshal
    {| FlowName := req_FlowName pr;
       RequestID := req_RequestID pr;
       Body := string_of_bytes (req_Body pr);
       Header := req_Header pr;
       RawQuery := req_RawQuery pr;
       Query := req_Query pr;
       RequestType := PartialRequest |} in
  rt <- getRuntime ;;
  match taskQueues rt !! req_FlowName pr with
  | None => panic nil_dereference
  | Some q =>
    match queues (rmqConnection rt) ≫= (fun objs => objs !! q) with
    | None => panic nil_dereference
    | Some o =>
      wrap (fun e => Errorf "failed to publish task, error %v" [argE e])
        (publish (Rmq.name o) data)
    end
  end.

Definition makeRequestFromTask (task : Task) : Request :=
  {| req_FlowName := FlowName task;
     req_RequestID := RequestID task;
     req_Body := bytes_of_string (Body task);
     req_Header := Header task;
     req_RawQuery := RawQuery task;
     req_Query := Query task |}.

(** ** Handling a task *)

Definition CreateExecutor (req : Request) (w : World) : (error + Handler) * World :=
  match Flows (runtime w) !! req_FlowName req with
  | None => (inl (Errorf "could not find handler for flow %s" [argS (req_FlowName req)]), w)
  | Some flowHandler =>
    match executorInit flowHandler req w with
    | (Some err, w) => (inl err, w)
    | (None, w) => (inr flowHandler, w)
    end
  end.

(** The controllers of core/runtime/controller that are at hand.  The
    response they fill is dropped by their callers below. *)
Definition PauseFlowHandler (request : Request) (ex : Handler) (w : World)
  : option error * World :=
  let w := Printf (Line ("Pausing request %s of flow %s" +:+ LF)
                     [argS (req_RequestID request); argS (req_FlowName request)]) w in
  match flowExecutor KPause ex (req_RequestID request) w with
  | (Some _, w) =>
    (Some (Errorf "failed to pause request %s, check if request is active"
             [argS (req_RequestID request)]), w)
  | (None, w) => (None, w)
  end.

Definition ResumeFlowHandler (request : Request) (ex : Handler) (w : World)
  : option error * World :=
  let w := Printf (Line ("Resuming flow %s for request %s" +:+ LF)
                     [argS (req_FlowName request); argS (req_RequestID request)]) w in
  match flowExecutor KResume ex (req_RequestID request) w with
  | (Some _, w) =>
    (Some (Errorf "failed to resume request %s, check if request is active"
             [argS (req_RequestID request)]), w)
  | (None, w) => (None, w)
  end.

Definition StopFlowHandler (request : Request) (ex : Handler) (w : World)
  : option error * World :=
  let w := Printf (Line ("Stopping request %s for flow %s" +:+ LF)
                     [argS (req_FlowName request); argS (req_RequestID request)]) w in
  match flowExecutor KStop ex (req_RequestID request) w with
  | (Some _, w) =>
    (Some (Errorf "failed to stop request %s, check if request is active"
             [argS (req_RequestID request)]), w)
  | (None, w) => (None, w)
  end.

Definition handleNewRequest (request : Request) (w : World) : option error * World :=
  match CreateExecutor request w with
  | (inl err, w) =>
    (Some (Errorf "failed to execute request %s, error: %v"
             [argS (req_RequestID request); argE err]), w)
  | (inr flowExecutor, w) =>
    match ExecuteFlowHandler flowExecutor request w with
    | (Some err, w) => (Some (Errorf "request failed to be processed. error: %v" [argE err]), w)
    | (None, w) => (None, w)
    end
  end.

Definition handlePartialRequest (request : Request) (w : World) : option error * World :=
  match CreateExecutor request w with
  | (inl err, w) =>
    let w := Log (Line "[request `%s`] failed to execute request, error: %v"
                    [argS (req_RequestID request); argE err]) w in
    (Some (Errorf "[goflow] failed to execute request %s, error: %v"
             [argS (req_RequestID request); argE err]), w)
  | (inr flowExecutor, w) =>
    match PartialExecuteFlowHandler flowExecutor request w with
    | (Some err, w) =>
      let w := Log (Line "[request `%s`] failed to be processed. error: %v"
                      [argS (req_RequestID request); argE err]) w in
      (Some (Errorf "[goflow] request failed to be processed. error: %v" [argE err]), w)
    | (None, w) => (None, w)
    end
  end.

(** [handlePauseRequest], [handleResumeRequest] and [handleStopRequest]
    differ in the controller they call and in one word of their messages. *)
Definition handleControl (word : string)
    (handler : Request -> Handler -> World -> option error * World)
    (request : Request) (w : World) : option error * World :=
  let told err w :=
    (Some (Errorf ("request %s failed to be " +:+ word +:+ ". error: %v")
             [argS (req_RequestID request); argE err]),
     Log (Line ("[request `%s`] failed to be " +:+ word +:+ ". error: %v")
            [argS (req_RequestID request); argE err]) w) in
  match CreateExecutor request w with
  | (inl err, w) => told err w
  | (inr flowExecutor, w) =>
    match handler request flowExecutor w with
    | (Some err, w) => told err w
    | (None, w) => (None, w)
    end
  end.

Definition handlePauseRequest := handleControl "paused" PauseFlowHandler.
Definition handleResumeRequest := handleControl "resumed" ResumeFlowHandler.
Definition handleStopRequest := handleControl "stopped" StopFlowHandler.

Definition handleRequest (request : Request) (requestType : string) (w : World)
  : option error * World :=
  if String.eqb requestType PartialRequest then handlePartialRequest request w
  else if String.eqb requestType NewRequest then handleNewRequest request w
  else if String.eqb requestType PauseRequest then handlePauseRequest request w
  else if String.eqb requestType ResumeRequest then handleResumeRequest request w
  else if String.eqb requestType StopRequest then handleStopRequest request w
  else
    (Some (Errorf "invalid request %v received with type %s"
             [argR request; argS requestType]), w).

(** Consume messages from queue *)
Definition Consume (message : Rmq.Delivery) (w : World) : Rmq.Delivery * World :=
  let acknowledge (message : Rmq.Delivery) (w : World) :=
    match Rmq.DoAck message with
    | (Some err, message) =>
      (message, Log (Line "[goflow] failed to acknowledge message, error " [argE err]) w)
    | (None, message) => (message, w)
    end in
  match Json.Unmarshal (Rmq.Payload message) with
  | inl err =>
    let w := Log (Line "[goflow] rejecting task for parse failure, error " [argE err]) w in
    match Rmq.DoPush message with
    | (Some err, message) =>
      (message, Log (Line "[goflow] failed to push message to retry queue, error " [argE err]) w)
    | (None, message) => (message, w)
    end
  | inr task =>
    match handleRequest (makeRequestFromTask task) (RequestType task) w with
    | (Some err, w) =>
      let w := Log (Line "[goflow] rejecting task for failure, error " [argE err]) w in
      match Rmq.DoPush message with
      | (Some err, message) =>
        (message, Log (Line "[goflow] failed to push message to retry queue, error " [argE err]) w)
      | (None, message) => acknowledge message w
      end
    | (None, w) => acknowledge message w
    end
  end.

(** ** The worker registry *)

Definition marshalWorker (worker : Worker) : Json.wire :=
  Json.Document (Json.JObject [
    (Utf8.runes "id", Json.of_string (ID worker));
    (Utf8.runes "flows",
       match WorkerFlows worker with
       | [] => Json.JNull
       | flows => Json.JArray (map Json.of_string flows)
       end);
    (Utf8.runes "concurrency", Json.JNumber (fmt_d (WorkerConcurrency worker)))]).

Definition saveWorkerDetails (worker : Worker) (w : World) : option error * World :=
  let key := WorkerKeyInitial +:+ ":" +:+ ID worker in
  let value := marshalWorker worker in
  (None, setRdb (Redis.SET key value (Redis.Second * RDBKeyTimeOut) (rdb w)) w).

Definition deleteWorkerDetails (worker : Worker) (w : World) : option error * World :=
  let key := WorkerKeyInitial +:+ ":" +:+ ID worker in
  (None, setRdb (snd (Redis.DEL key (rdb w))) w).

Definition saveFlowDetails (flows : gmap string string) (w : World) : option error * World :=
  (None,
   setRdb (foldl (fun db kv =>
                    Redis.SET (FlowKeyInitial +:+ ":" +:+ fst kv) (Json.Text (snd kv))
                      (Redis.Second * RDBKeyTimeOut) db)
             (rdb w) (map_to_list flows)) w).

(** The function given to [Flows.ForEach] in [registerDetails], run over
    the entries until the first export that fails. *)
Fixpoint collectDetails (flows : list (string * Handler)) (worker : Worker)
    (flowDetails : gmap string string) : option error * Worker * gmap string string :=
  match flows with
  | [] => (None, worker, flowDetails)
  | (flowID, defHandler) :: flows =>
    let worker := mkWorker (ID worker) (WorkerFlows worker ++ [flowID]) (WorkerConcurrency worker) in
    match getFlowDefinition defHandler with
    | inl err =>
      (Some (Errorf "failed to start runtime, dag export failed, error %v" [argE err]),
       worker, flowDetails)
    | inr dag => collectDetails flows worker (<[flowID := dag]> flowDetails)
    end
  end.

Definition registerDetails (worker : Worker) (w : World) : option error * Worker * World :=
  match collectDetails (map_to_list (Flows (runtime w))) worker ∅ with
  | (Some err, worker, _) => (Some err, worker, w)
  | (None, worker, flowDetails) =>
    let '(err, w) :=
      if workerMode (runtime w) then
        match saveWorkerDetails worker w with
        | (Some err, w) => (Some (Errorf "failed to register worker details, %v" [argE err]), w)
        | (None, w) => (None, w)
        end
      else
        match deleteWorkerDetails worker w with
        | (Some err, w) => (Some (Errorf "failed to deregister worker details, %v" [argE err]), w)
        | (None, w) => (None, w)
        end in
    match err with
    | Some err => (Some err, worker, w)
    | None =>
      match saveFlowDetails flowDetails w with
      | (Some err, w) => (Some (Errorf "failed to register flow details, %v" [argE err]), worker, w)
      | (None, w) => (None, worker, w)
      end
    end
  end.

(** One run of [registerDetails]: when it started, counted in seconds from
    the call of [StartRuntime], the world it found and the world it left. *)
Record Registration := mkRegistration {
  at_second : Z;
  before : World;
  result : option error;
  worker_after : Worker;
  after : World;
}.

(** The job given to [gocron.Every(GoFlowRegisterInterval).Second().Do]:
    its [n]th run starts [n] intervals after the job was scheduled.  What
    the rest of the program does to the world between two runs is given
    by [others]. *)
Fixpoint everyInterval (others : list (World -> World)) (n : Z) (worker : Worker)
    (w : World) : list Registration :=
  match others with
  | [] => []
  | other :: others =>
    let w0 := other w in
    let '(err, worker', w1) := registerDetails worker w0 in
    let w2 := match err with
              | Some err => Printf (Line "failed to register details, %v" [argE err]) w1
              | None => w1
              end in
    mkRegistration (n * GoFlowRegisterInterval) w0 err worker' w2
      :: everyInterval others (n + 1) worker' w2
  end.

(** StartRuntime starts the runtime.  It returns the error of the first
    registration; otherwise it stays in [<-gocron.Start()], and what it
    does is the sequence of its registrations.  [id] is the value of
    [getNewId()]. *)
Definition StartRuntime (id : string) (others : list (World -> World)) (w : World)
  : option error * list Registration :=
  let worker := mkWorker id [] (Concurrency (runtime w)) in
  let '(err, worker', w1) := registerDetails worker w in
  match err with
  | Some err =>
    let w2 := Printf (Line "failed to register details, %v" [argE err]) w1 in
    (Some err, [mkRegistration 0 w (Some err) worker' w2])
  | None =>
    (None, mkRegistration 0 w None worker' w1 :: everyInterval others 1 worker' w1)
  end.

End Runtime.

Arguments FlowRuntime : clear implicits.
Arguments World : clear implicits.
Arguments Registration : clear implicits.
Arguments M : clear implicits.

(* ===================================================================== *)
(** * Vocabulary of the properties                                         *)
(* ===================================================================== *)

(** An operation of a store reads and writes the database at [path] only:
    the other keys are left as they are, and its answer and what it leaves
    at [path] depend on nothing but what [path] held. *)
Definition confined {A}
    (op : gmap string (Redis.entry string) -> A * gmap string (Redis.entry string))
    (path : string) : Prop :=
  (∀ db k, k ≠ path → snd (op db) !! k = db !! k) ∧
  (∀ db1 db2, db1 !! path = db2 !! path →
     fst (op db1) = fst (op db2) ∧ snd (op db1) !! path = snd (op db2) !! path).

(** What is left of [s] after the prefix [pre], if it starts with it. *)
Fixpoint after_prefix (pre s : list ascii) : option (list ascii) :=
  match pre with
  | [] => Some s
  | x :: pre =>
    match s with
    | c :: s => if (x =? c)%char then after_prefix pre s else None
    | [] => None
    end
  end.

(** A name is plain when none of its bytes is special in a glob pattern. *)
Definition plain (s : string) : bool :=
  forallb (fun c => negb (Redis.is_meta c)) (list_ascii_of_string s).

(** The task that [EnqueuePartialRequest] builds for a request. *)
Definition partial_task (pr : Request) : Task :=
  {| FlowName := req_FlowName pr;
     RequestID := req_RequestID pr;
     Body := string_of_bytes (req_Body pr);
     Header := req_Header pr;
     RawQuery := req_RawQuery pr;
     Query := req_Query pr;
     RequestType := PartialRequest |}.

(** The strings of a map of values, and of a request, are valid UTF-8. *)
Definition valid_values (m : values) : bool :=
  forallb (fun kv => Utf8.ValidString (fst kv) && forallb Utf8.ValidString (snd kv))
          (map_to_list m).

Definition valid_request (r : Request) : bool :=
  Utf8.ValidString (req_RequestID r)
  && Utf8.ValidString (string_of_bytes (req_Body r))
  && valid_values (req_Header r)
  && Utf8.ValidString (req_RawQuery r)
  && valid_values (req_Query r).

(** The task that [Execute flowName request] builds. *)
Definition new_task (flowName : string) (request : Request) : Task :=
  {| FlowName := flowName;
     RequestID := req_RequestID request;
     Body := string_of_bytes (req_Body request);
     Header := req_Header request;
     RawQuery := req_RawQuery request;
     Query := req_Query request;
     RequestType := NewRequest |}.

(** A request under another flow name. *)
Definition with_flow (flowName : string) (r : Request) : Request :=
  mkRequest flowName (req_RequestID r) (req_Body r) (req_Header r) (req_RawQuery r) (req_Query r).

(** What [Consume] hands to [handleRequest] for a payload, if it parses. *)
Definition received (payload : Json.wire) : option Request :=
  match Json.Unmarshal payload with
  | inr task => Some (makeRequestFromTask task)
  | inl _ => None
  end.

(** What a run of [registerDetails] has done to the registry, for the worker
    [id]: nothing when an export failed; otherwise the worker key holds the
    worker's JSON for ten seconds if the runtime was in worker mode and is
    absent if it was not, and the key of every registered flow holds its
    exported definition for ten seconds. *)
Definition registered_details {Handler : Type}
    (getFlowDefinition : Handler -> error + string) (id : string)
    (reg : Registration Handler) : Prop :=
  ID (worker_after reg) = id ∧
  match result reg with
  | Some _ => rdb (after reg) = rdb (before reg)
  | None =>
    rdb (after reg) !! ("goflow-worker:" +:+ id)
    = (if workerMode (runtime (before reg))
       then Some (Redis.Entry (marshalWorker (worker_after reg)) (10 * Redis.Second))
       else None)
    ∧ ∀ flow h, Flows (runtime (before reg)) !! flow = Some h →
        ∃ dag, getFlowDefinition h = inr dag
               ∧ rdb (after reg) !! ("goflow-flow:" +:+ flow)
                 = Some (Redis.Entry (Json.Text dag) (10 * Redis.Second))
  end.

(** The world [w] with the queue objects [objs] on its connection and the
    map [tq] as its [taskQueues]. *)
Definition with_queues {Handler : Type} (w : World Handler) (objs : list Rmq.Queue)
    (tq : gmap string nat) : World Handler :=
  mkWorld (mkRuntime (Flows (runtime w)) (Concurrency (runtime w)) (RetryQueueCount (runtime w))
             (workerMode (runtime w)) tq (Connection objs))
          (broker w) (rdb w) (logged w) (printed w).

(** The names and tags that [initializeTaskQueues] gives. *)
Definition push_name (flowName : string) (idx : Z) : string :=
  (InternalRequestQueueInitial +:+ ":" +:+ flowName) +:+ "-push-" +:+ fmt_d idx.
Definition consumer_tag (idx : Z) : string := "request-consumer-" +:+ fmt_d idx.

(** The queue objects of a flow once [initializeTaskQueues] is through with
    it, [q] being the handle of its primary queue: the primary queue, with
    one consumer per unit of [concurrency], and the retry queue [idx], with
    one consumer; each pushes to the next, the last retry queue to none. *)
Definition primary_queue (flowName : string) (q : nat) (retries concurrency : Z) : Rmq.Queue :=
  Rmq.mkQueue (InternalRequestQueueInitial +:+ ":" +:+ flowName)
    (if 0 <? retries then Some (S q) else None)
    (Some (10, Redis.Second))
    (map consumer_tag (upto concurrency)).

Definition retry_queue (flowName : string) (q : nat) (retries : Z) (i : nat) : Rmq.Queue :=
  Rmq.mkQueue (push_name flowName (Z.of_nat i))
    (if Z.of_nat (S i) <? retries then Some (S (S (q + i))) else None)
    (Some (10, Redis.Second))
    [consumer_tag (Z.of_nat i)].

(** The broker refuses no call. *)
Definition quiet {Handler : Type} (w : World Handler) : Prop :=
  ∀ c, Rmq.refuses (broker w) c = None.

(** A queue object once it consumes, and with one more consumer. *)
Definition started (o : Rmq.Queue) : Rmq.Queue :=
  Rmq.mkQueue (Rmq.name o) (Rmq.pushQueue o) (Some (10, Redis.Second)) (Rmq.consumers o).
Definition tagged (tag : string) (o : Rmq.Queue) : Rmq.Queue :=
  Rmq.mkQueue (Rmq.name o) (Rmq.pushQueue o) (Rmq.consuming o) (Rmq.consumers o ++ [tag]).
Definition pushing (to : nat) (o : Rmq.Queue) : Rmq.Queue :=
  Rmq.mkQueue (Rmq.name o) (Some to) (Rmq.consuming o) (Rmq.consumers o).

(** A name without the byte [c]. *)
Definition without (c : ascii) (s : string) : bool :=
  forallb (fun x => negb (x =? c)%char) (list_ascii_of_string s).

(** The key [key] lies under the namespace [ns]: it is [ns], a dot, and
    anything. *)
Definition under (ns key : string) : bool :=
  match after_prefix (list_ascii_of_string (ns +:+ ".")) (list_ascii_of_string key) with
  | Some _ => true
  | None => false
  end.

(** The key [key] starts with [pre]. *)
Definition starts_with (pre key : string) : bool :=
  match after_prefix (list_ascii_of_string pre) (list_ascii_of_string key) with
  | Some _ => true
  | None => false
  end.

(** The world [w] with the lines [lines] added to what was logged. *)
Definition with_logged {Handler : Type} (lines : list line) (w : World Handler)
  : World Handler :=
  mkWorld (runtime w) (broker w) (rdb w) (logged w ++ lines) (printed w).

(** The queue objects [objs'] hold those of [objs], under the same handles
    and names: none is gone, none is renamed. *)
Definition kept (objs objs' : list Rmq.Queue) : Prop :=
  (length objs <= length objs')%nat
  ∧ ∀ q o, objs !! q = Some o → Rmq.name <$> objs' !! q = Some (Rmq.name o).

(** The world [w'] differs from [w] in the queue objects of the connection
    and in [taskQueues] at most, and the queue objects of [w] are kept. *)
Definition only_queues {Handler : Type} (w w' : World Handler) : Prop :=
  Flows (runtime w') = Flows (runtime w)
  ∧ Concurrency (runtime w') = Concurrency (runtime w)
  ∧ RetryQueueCount (runtime w') = RetryQueueCount (runtime w)
  ∧ workerMode (runtime w') = workerMode (runtime w)
  ∧ broker w' = broker w ∧ rdb w' = rdb w
  ∧ logged w' = logged w ∧ printed w' = printed w
  ∧ match rmqConnection (runtime w), rmqConnection (runtime w') with
    | Connection objs, Connection objs' => kept objs objs'
    | NoConnection, NoConnection | NilConnection, NilConnection => True
    | _, _ => False
    end.

(** A call that changes the queue objects and [taskQueues] at most, however
    it ends. *)
Definition framed {Handler A : Type} (c : M Handler A) : Prop :=
  ∀ w, only_queues w (snd (c w)).

(** The task that [Execute], [Pause], [Stop] and [Resume] build for a
    request, [requestType] being theirs. *)
Definition task_of (requestType flowName : string) (request : Request) : Task :=
  {| FlowName := flowName;
     RequestID := req_RequestID request;
     Body := string_of_bytes (req_Body request);
     Header := req_Header request;
     RawQuery := req_RawQuery request;
     Query := req_Query request;
     RequestType := requestType |}.

(** The four calls that submit a request to the queue of a flow, each with
    its request type. *)
Definition submitters {Handler : Type}
  : list ((string -> Request -> M Handler unit) * string) :=
  [(Execute, NewRequest); (Pause, PauseRequest); (Stop, StopRequest); (Resume, ResumeRequest)].

(** The broker [b] with [payload] added at the end of the queue [n]. *)
Definition enqueued (n : string) (payloads : list Json.wire) (b : Rmq.Broker) : Rmq.Broker :=
  Rmq.mkBroker (<[n := default [] (Rmq.ready b !! n) ++ payloads]> (Rmq.ready b))
               (Rmq.refuses b).

(* ===================================================================== *)
(** * Properties                                                           *)
(* ===================================================================== *)

(** ** Strings *)

Lemma append_assoc (a b c : string) : (a +:+ b) +:+ c = a +:+ (b +:+ c).
Proof.
  induction a as [|x a IH]; [reflexivity|].
  change (String x ((a +:+ b) +:+ c) = String x (a +:+ (b +:+ c))).
  now rewrite IH.
Qed.

Lemma state_path (flow req k : string) :
  ("core." +:+ flow +:+ "." +:+ req) +:+ "." +:+ k
  = "core." +:+ flow +:+ "." +:+ req +:+ "." +:+ k.
Proof. now rewrite !append_assoc. Qed.

Lemma data_path (flow req k : string) :
  RedisDataStore.getPath ("core-" +:+ flow +:+ "-" +:+ req) k
  = "core-" +:+ flow +:+ "-" +:+ req +:+ "." +:+ k +:+ ".value".
Proof. unfold RedisDataStore.getPath. now rewrite !append_assoc. Qed.

(** ** The state store and the data store *)

Section Stores.
Import Redis.
Implicit Types db : gmap string (entry string).

Lemma INCRBY_confined (path : string) (delta : Z) : confined (INCRBY path delta) path.
Proof.
  split.
  - intros db k Hk. unfold INCRBY.
    destruct (db !! path) as [e|]; simpl.
    + destruct (parse_int64 (value e)); simpl; [|done].
      case_match; simpl; [by rewrite lookup_insert_ne | done].
    + case_match; simpl; [by rewrite lookup_insert_ne | done].
  - intros db1 db2 H. unfold INCRBY. rewrite <- H.
    destruct (db1 !! path) as [e|] eqn:E; simpl.
    + destruct (parse_int64 (value e)); simpl; [|by rewrite E, <- H].
      case_match; simpl; [by rewrite !lookup_insert_eq | by rewrite E, <- H].
    + case_match; simpl; [by rewrite !lookup_insert_eq | by rewrite E, <- H].
Qed.

Lemma Update_equation (this : RedisStateStore.t) (k oldValue newValue : string) db :
  let path := RedisStateStore.KeyPath this +:+ "." +:+ k in
  RedisStateStore.Update this k oldValue newValue db =
    match db !! path with
    | None => (Some (Errorf "[%v] not exist" [argS path]), db)
    | Some cur =>
      if String.eqb (value cur) oldValue
      then (None, <[path := Entry newValue 0]> db)
      else (Some (Errorf "Old value doesn't match for key %s" [argS path]), db)
    end.
Proof.
  intros path. unfold RedisStateStore.Update, GET, SET. fold path.
  destruct (db !! path) as [cur|]; [|reflexivity].
  now destruct (String.eqb (value cur) oldValue).
Qed.

End Stores.

(** C1.  Under a configured namespace, [Update k oldValue newValue] returns
    the error "not exist" and leaves the database as it is when the key is
    absent, returns the error "Old value doesn't match" and leaves the
    database as it is when the stored value differs from [oldValue], and
    otherwise returns nil and sets the key to [newValue] (every other key
    being left alone). *)
Theorem Update_compare_and_set (flow req : string) (st : RedisStateStore.t)
    (k oldValue newValue : string) (db : gmap string (Redis.entry string)) :
  let this := RedisStateStore.Configure flow req st in
  let path := "core." +:+ flow +:+ "." +:+ req +:+ "." +:+ k in
  match db !! path with
  | None =>
    RedisStateStore.Update this k oldValue newValue db
    = (Some (Errorf "[%v] not exist" [argS path]), db)
  | Some cur =>
    if decide (Redis.value cur = oldValue) then
      ∃ db', RedisStateStore.Update this k oldValue newValue db = (None, db')
             ∧ Redis.GET path db' = Redis.Value newValue
             ∧ ∀ k', k' ≠ path → db' !! k' = db !! k'
    else
      RedisStateStore.Update this k oldValue newValue db
      = (Some (Errorf "Old value doesn't match for key %s" [argS path]), db)
  end.
Proof.
  intros this path. rewrite Update_equation. simpl.
  rewrite state_path. fold path.
  destruct (db !! path) as [cur|]; [|reflexivity].
  destruct (decide (Redis.value cur = oldValue)) as [Heq|Hne].
  - apply String.eqb_eq in Heq. rewrite Heq.
    eexists; split; [reflexivity|]. split.
    + unfold Redis.GET. now rewrite lookup_insert_eq.
    + intros k' Hk. now rewrite lookup_insert_ne.
  - apply String.eqb_neq in Hne. now rewrite Hne.
Qed.

Section StorePaths.
Import Redis.
Implicit Types db : gmap string (entry string).

Lemma Update_confined (this : RedisStateStore.t) (k oldValue newValue : string) :
  confined (RedisStateStore.Update this k oldValue newValue)
           (RedisStateStore.KeyPath this +:+ "." +:+ k).
Proof.
  split.
  - intros db k' Hk. rewrite Update_equation. simpl.
    destruct (db !! _) as [cur|]; [|done].
    destruct (String.eqb _ _); simpl; [by rewrite lookup_insert_ne | done].
  - intros db1 db2 H. rewrite !Update_equation. simpl. rewrite <- H.
    destruct (db1 !! _) as [cur|] eqn:E; simpl; [|by rewrite E, <- H].
    destruct (String.eqb _ _); simpl; [by rewrite !lookup_insert_eq | by rewrite E, <- H].
Qed.

Lemma Incr_confined (this : RedisStateStore.t) (k : string) (delta : Z) :
  confined (RedisStateStore.Incr this k delta)
           (RedisStateStore.KeyPath this +:+ "." +:+ k).
Proof.
  destruct (INCRBY_confined (RedisStateStore.KeyPath this +:+ "." +:+ k) delta) as [Hf Hr].
  unfold RedisStateStore.Incr. split.
  - intros db k' Hk. specialize (Hf db k' Hk).
    destruct (INCRBY _ delta db) as [[n| |e] db']; exact Hf.
  - intros db1 db2 H. specialize (Hr db1 db2 H).
    destruct (INCRBY _ delta db1) as [[n1| |e1] d1];
      destruct (INCRBY _ delta db2) as [[n2| |e2] d2]; simpl in *;
      destruct Hr as [Ha Hb]; try discriminate; split; congruence.
Qed.

Lemma DEL_delete {V} (key : string) (db : gmap string (entry V)) :
  snd (DEL key db) = delete key db.
Proof.
  unfold DEL. destruct (db !! key) eqn:E; simpl; [done|].
  symmetry. by apply delete_id.
Qed.

End StorePaths.

(** C4.  After [Configure flow request], the state store reads and writes
    the key [k] at [core.<flow>.<request>.<k>] ([Set] and [Get] by the
    equations given, [Update] and [Incr] touching and depending on that path
    only), and the data store reads and writes it at
    [core-<flow>-<request>.<k>.value] ([Set], [Get] and [Del], once the
    store has its client). *)
Theorem stores_full_paths (flow req : string) (st : RedisStateStore.t)
    (ds : RedisDataStore.t) (k : string) :
  let this := RedisStateStore.Configure flow req st in
  let that := RedisDataStore.Configure flow req ds in
  let spath := "core." +:+ flow +:+ "." +:+ req +:+ "." +:+ k in
  let dpath := "core-" +:+ flow +:+ "-" +:+ req +:+ "." +:+ k +:+ ".value" in
  (∀ v db, RedisStateStore.Set_ this k v db = (None, <[spath := Redis.Entry v 0]> db))
  ∧ (∀ db, RedisStateStore.Get this k db =
       match db !! spath with
       | Some e => (Redis.value e, None)
       | None => (""%string, Some (Errorf "failed to get key %s, nil" [argS spath]))
       end)
  ∧ (∀ oldValue newValue, confined (RedisStateStore.Update this k oldValue newValue) spath)
  ∧ (∀ delta, confined (RedisStateStore.Incr this k delta) spath)
  ∧ (∀ v db, RedisDataStore.Set_ that k v db =
       match RedisDataStore.redisClient ds with
       | Some _ => (None, <[dpath := Redis.Entry (string_of_bytes v) 0]> db)
       | None => (Some RedisDataStore.not_initialized, db)
       end)
  ∧ (∀ db, RedisDataStore.Get that k db =
       match RedisDataStore.redisClient ds with
       | Some _ =>
         match db !! dpath with
         | Some e => (bytes_of_string (Redis.value e), None)
         | None => ([], Some (Errorf "error reading: %s, error: %s"
                                [argS dpath; argE (errText "redis: nil")]))
         end
       | None => ([], Some RedisDataStore.not_initialized)
       end)
  ∧ (∀ db, RedisDataStore.Del that k db =
       match RedisDataStore.redisClient ds with
       | Some _ => (None, delete dpath db)
       | None => (Some RedisDataStore.not_initialized, db)
       end).
Proof.
  intros this that spath dpath.
  assert (Hs : RedisStateStore.KeyPath this +:+ "." +:+ k = spath)
    by apply state_path.
  assert (Hd : RedisDataStore.getPath (RedisDataStore.bucketName that) k = dpath)
    by apply data_path.
  split; [|split; [|split; [|split; [|split; [|split]]]]].
  - intros v db. unfold RedisStateStore.Set_, Redis.SET. now rewrite Hs.
  - intros db. unfold RedisStateStore.Get, Redis.GET. rewrite Hs.
    now destruct (db !! spath).
  - intros oldValue newValue. rewrite <- Hs. apply Update_confined.
  - intros delta. rewrite <- Hs. apply Incr_confined.
  - intros v db. unfold RedisDataStore.Set_, Redis.SET. rewrite Hd. simpl.
    now destruct (RedisDataStore.redisClient ds).
  - intros db. unfold RedisDataStore.Get, Redis.GET. rewrite Hd. simpl.
    destruct (RedisDataStore.redisClient ds); [|done]. now destruct (db !! dpath).
  - intros db. unfold RedisDataStore.Del. rewrite Hd, DEL_delete. simpl.
    now destruct (RedisDataStore.redisClient ds).
Qed.

(** ** Cleanup *)

Section Cleanup.
Import Redis.
Context {V : Type}.
Implicit Types db : gmap string (entry V).

Lemma foldl_DEL_lookup (ks : list string) db (k : string) :
  foldl (fun db k => snd (DEL k db)) db ks !! k
  = if decide (k ∈ ks) then None else db !! k.
Proof.
  revert db. induction ks as [|k0 ks IH]; intros db.
  - rewrite decide_False; [done | apply not_elem_of_nil].
  - simpl. rewrite IH, DEL_delete.
    destruct (decide (k ∈ ks)) as [Hin|Hnin].
    + rewrite decide_True; [done | by right].
    + destruct (decide (k = k0)) as [->|Hne].
      * rewrite lookup_delete_eq. rewrite decide_True; [done | by left].
      * rewrite lookup_delete_ne by done.
        rewrite decide_False; [done|]. rewrite elem_of_cons. intros [?|?]; done.
Qed.

Lemma SCAN_spec (pattern : string) db (k : string) :
  k ∈ SCAN pattern db ↔ glob pattern k = true ∧ is_Some (db !! k).
Proof.
  unfold SCAN. rewrite list_elem_of_filter, list_elem_of_fmap.
  split.
  - intros [Hg [[k' v] [-> Hin]]]. split; [done|].
    apply elem_of_map_to_list in Hin. by exists v.
  - intros [Hg [v Hv]]. split; [done|].
    exists (k, v). split; [done|]. by apply elem_of_map_to_list.
Qed.

(** What the loop over the SCAN iterator leaves: the keys that match the
    pattern are gone, the others are as they were. *)
Lemma sweep_lookup (pattern : string) db (k : string) :
  foldl (fun db k => snd (DEL k db)) db (SCAN pattern db) !! k
  = if glob pattern k then None else db !! k.
Proof.
  rewrite foldl_DEL_lookup.
  destruct (decide (k ∈ SCAN pattern db)) as [Hin|Hnin].
  - apply SCAN_spec in Hin as [-> _]. done.
  - destruct (glob pattern k) eqn:Hg; [|done].
    destruct (db !! k) eqn:Hk; [|done].
    exfalso. apply Hnin, SCAN_spec. eauto.
Qed.

Lemma sweep_again (pattern : string) db :
  let db' := foldl (fun db k => snd (DEL k db)) db (SCAN pattern db) in
  SCAN pattern db' = [].
Proof.
  intros db'. destruct (SCAN pattern db') as [|k ks] eqn:E; [done|].
  assert (Hin : k ∈ SCAN pattern db') by (rewrite E; left).
  apply SCAN_spec in Hin as [Hg [v Hv]].
  unfold db' in Hv. rewrite sweep_lookup, Hg in Hv. done.
Qed.

End Cleanup.

(** A namespace is plain when none of its bytes is special in a glob
    pattern; the pattern [<namespace>.*] then matches the keys that extend
    [<namespace>.] and no other. *)
Lemma star_all (fuel : nat) (s : list ascii) :
  (fix star (s : list ascii) : bool :=
     Redis.glob_fuel (S fuel) [] s || match s with [] => false | _ :: s1 => star s1 end) s
  = true.
Proof. induction s as [|c s IH]; [reflexivity|]. simpl. exact IH. Qed.

Lemma glob_literal (lit q : list ascii) (fuel : nat) (s : list ascii) :
  forallb (fun c => negb (Redis.is_meta c)) lit = true →
  Redis.glob_fuel (length lit + fuel) (lit ++ q) s
  = match after_prefix lit s with
    | Some s' => Redis.glob_fuel fuel q s'
    | None => false
    end.
Proof.
  revert s. induction lit as [|x lit IH]; intros s Hlit; simpl in *.
  - reflexivity.
  - apply andb_true_iff in Hlit as [Hx Hlit].
    unfold Redis.is_meta in Hx. apply negb_true_iff in Hx.
    repeat (apply orb_false_iff in Hx as [Hx ?]).
    rewrite Hx. replace (x =? "?")%char with false by done.
    replace (x =? "[")%char with false by done.
    replace (x =? "\")%char with false by done.
    destruct s as [|c s]; [reflexivity|].
    destruct (Ascii.eqb_spec x c) as [->|Hne].
    + now apply IH.
    + reflexivity.
Qed.

Lemma after_prefix_app (pre s : list ascii) :
  after_prefix pre (pre ++ s) = Some s.
Proof.
  induction pre as [|x pre IH]; [reflexivity|].
  simpl. now rewrite Ascii.eqb_refl.
Qed.

Lemma after_prefix_Some (pre s s' : list ascii) :
  after_prefix pre s = Some s' → s = pre ++ s'.
Proof.
  revert s. induction pre as [|x pre IH]; intros s H; simpl in *.
  - congruence.
  - destruct s as [|c s]; [discriminate|].
    destruct (Ascii.eqb_spec x c) as [->|]; [|discriminate].
    f_equal. now apply IH.
Qed.

Lemma list_ascii_of_append (a b : string) :
  list_ascii_of_string (a +:+ b) = list_ascii_of_string a ++ list_ascii_of_string b.
Proof.
  induction a as [|x a IH]; [reflexivity|].
  change (x :: list_ascii_of_string (a +:+ b)
          = x :: (list_ascii_of_string a ++ list_ascii_of_string b)).
  now rewrite IH.
Qed.

(** For a plain namespace [ns], the pattern [ns.*] matches a key exactly
    when the key is [ns.] followed by anything. *)
Lemma glob_plain_namespace (ns key : string) :
  plain ns = true →
  Redis.glob (ns +:+ ".*") key = true ↔ ∃ rest, key = ns +:+ "." +:+ rest.
Proof.
  intros Hplain. unfold Redis.glob.
  rewrite list_ascii_of_append.
  change (list_ascii_of_string ".*") with (["."; "*"]%char).
  set (lit := list_ascii_of_string ns ++ ["."%char]).
  replace (list_ascii_of_string ns ++ ["."; "*"]%char) with (lit ++ ["*"%char])
    by (unfold lit; now rewrite <- app_assoc).
  replace (S (length (lit ++ ["*"%char]))) with (length lit + 2)%nat
    by (rewrite length_app; simpl; lia).
  rewrite glob_literal.
  2:{ unfold lit. rewrite forallb_app. apply andb_true_iff. split; [exact Hplain | reflexivity]. }
  split.
  - destruct (after_prefix lit (list_ascii_of_string key)) as [s'|] eqn:E; [|discriminate].
    intros _. apply after_prefix_Some in E.
    exists (string_of_list_ascii s').
    rewrite <- (string_of_list_ascii_of_string key), E.
    rewrite <- (string_of_list_ascii_of_string (ns +:+ "." +:+ string_of_list_ascii s')).
    f_equal. rewrite !list_ascii_of_append, list_ascii_of_string_of_list_ascii.
    unfold lit. now rewrite <- app_assoc.
  - intros [rest ->].
    rewrite !list_ascii_of_append, app_assoc. fold lit.
    rewrite after_prefix_app.
    apply (star_all 0).
Qed.

(** The namespace is swept when it is plain: no key under it is left, the
    keys outside of it are kept. *)
Lemma Cleanup_plain (flow req : string) (st : RedisStateStore.t)
    (db : gmap string (Redis.entry string)) (key : string) :
  plain ("core." +:+ flow +:+ "." +:+ req) = true →
  let db' := snd (RedisStateStore.Cleanup (RedisStateStore.Configure flow req st) db) in
  ((∃ rest, key = ("core." +:+ flow +:+ "." +:+ req) +:+ "." +:+ rest) → db' !! key = None)
  ∧ ((¬ ∃ rest, key = ("core." +:+ flow +:+ "." +:+ req) +:+ "." +:+ rest) → db' !! key = db !! key).
Proof.
  intros Hplain db'. unfold db', RedisStateStore.Cleanup. simpl.
  rewrite sweep_lookup.
  pose proof (glob_plain_namespace _ key Hplain) as Hg.
  destruct (Redis.glob _ key).
  - split; [done|]. intros Hn. exfalso. apply Hn, Hg. reflexivity.
  - split; [|done]. intros Hy. apply Hg in Hy. discriminate.
Qed.

(** Cleanup is idempotent, for the state store and for the data store: a
    second run finds nothing to delete (and a data store without client
    panics again, having deleted nothing). *)
Lemma Cleanup_idempotent (st : RedisStateStore.t) (ds : RedisDataStore.t)
    (db : gmap string (Redis.entry string)) :
  RedisStateStore.Cleanup st (snd (RedisStateStore.Cleanup st db))
  = (None, snd (RedisStateStore.Cleanup st db))
  ∧ RedisDataStore.Cleanup ds (snd (RedisDataStore.Cleanup ds db))
    = (fst (RedisDataStore.Cleanup ds db), snd (RedisDataStore.Cleanup ds db)).
Proof.
  unfold RedisStateStore.Cleanup, RedisDataStore.Cleanup.
  destruct (RedisDataStore.redisClient ds); simpl; now rewrite !sweep_again.
Qed.

(** C7, where the code departs from it.  For the flow [etl[eu]] the pattern
    of Cleanup is [core.etl[eu].r1.*], in which [[eu]] stands for one byte,
    [e] or [u]: the keys of the request itself do not match and are left,
    in the state store as in the data store, while a key of the flow [etle]
    matches and is deleted. *)
Theorem Cleanup_bracket_namespace :
  let st := RedisStateStore.Configure "etl[eu]" "r1" (RedisStateStore.mk "" 0) in
  let ds := RedisDataStore.Configure "etl[eu]" "r1" (RedisDataStore.mk "" (Some tt)) in
  let db : gmap string (Redis.entry string) :=
    <["core.etl[eu].r1.phase" := Redis.Entry "running"%string 0]>
    (<["core-etl[eu]-r1.out.value" := Redis.Entry "blob"%string 0]>
    (<["core.etle.r1.phase" := Redis.Entry "running"%string 0]> ∅)) in
  fst (RedisStateStore.Cleanup st db) = None
  ∧ snd (RedisStateStore.Cleanup st db) !! "core.etl[eu].r1.phase"
    = Some (Redis.Entry "running"%string 0)
  ∧ snd (RedisStateStore.Cleanup st db) !! "core.etle.r1.phase" = None
  ∧ fst (RedisDataStore.Cleanup ds db) = Ok tt
  ∧ snd (RedisDataStore.Cleanup ds db) !! "core-etl[eu]-r1.out.value"
    = Some (Redis.Entry "blob"%string 0).
Proof. vm_compute. repeat split; reflexivity. Qed.

(** ** Consuming a delivery *)

Section Consuming.
Context {Handler : Type}.
Variable executorInit : Handler -> Request -> World Handler -> option error * World Handler.
Variable ExecuteFlowHandler : Handler -> Request -> World Handler -> option error * World Handler.
Variable PartialExecuteFlowHandler : Handler -> Request -> World Handler -> option error * World Handler.
Variable flowExecutor : kind -> Handler -> string -> World Handler -> option error * World Handler.

Local Abbreviation consume :=
  (Consume executorInit ExecuteFlowHandler PartialExecuteFlowHandler flowExecutor).
Local Abbreviation handle :=
  (handleRequest executorInit ExecuteFlowHandler PartialExecuteFlowHandler flowExecutor).

Local Ltac log_tail :=
  eexists; rewrite <- ?List.app_assoc; simpl; rewrite ?app_nil_r; reflexivity.

(** A payload that does not unmarshal: one line is logged, Push is the
    only call made on the delivery. *)
Lemma Consume_parse_failure (message : Rmq.Delivery) (w : World Handler) (err : error) :
  Json.Unmarshal (Rmq.Payload message) = inl err →
  Rmq.calls (fst (consume message w)) = Rmq.calls message ++ [Rmq.Push]
  ∧ ∃ rest, logged (snd (consume message w))
            = logged w ++ Line "[goflow] rejecting task for parse failure, error " [argE err] :: rest.
Proof.
  intros Hu. unfold Consume. rewrite Hu.
  unfold Rmq.DoPush, Rmq.settle.
  destruct (Rmq.fails message Rmq.Push); simpl.
  - split; [done|]. eexists. by rewrite <- List.app_assoc.
  - destruct (Rmq.status message); simpl; (split; [done|]); eexists;
      rewrite <- ?List.app_assoc; simpl; try reflexivity; by rewrite app_nil_r.
Qed.

(** A task whose handler succeeds: Ack is the only call made. *)
Lemma Consume_success (message : Rmq.Delivery) (w w1 : World Handler) (task : Task) :
  Json.Unmarshal (Rmq.Payload message) = inr task →
  handle (makeRequestFromTask task) (RequestType task) w = (None, w1) →
  Rmq.calls (fst (consume message w)) = Rmq.calls message ++ [Rmq.Ack].
Proof.
  intros Hu Hh. unfold Consume. rewrite Hu, Hh.
  unfold Rmq.DoAck, Rmq.settle.
  destruct (Rmq.fails message Rmq.Ack); simpl; [done|].
  by destruct (Rmq.status message).
Qed.

(** A task whose handler fails: the failure is logged and Push is called;
    when Push goes through, Ack is called on the same delivery after it. *)
Lemma Consume_handler_failure (message : Rmq.Delivery) (w w1 : World Handler)
    (task : Task) (err : error) :
  Json.Unmarshal (Rmq.Payload message) = inr task →
  handle (makeRequestFromTask task) (RequestType task) w = (Some err, w1) →
  (∃ rest, Rmq.calls (fst (consume message w)) = Rmq.calls message ++ Rmq.Push :: rest)
  ∧ (∃ rest, logged (snd (consume message w))
             = logged w1 ++ Line "[goflow] rejecting task for failure, error " [argE err] :: rest)
  ∧ match Rmq.fails message Rmq.Push, Rmq.status message with
    | None, Rmq.Unacked =>
      Rmq.calls (fst (consume message w)) = Rmq.calls message ++ [Rmq.Push; Rmq.Ack]
      ∧ Rmq.status (fst (consume message w)) = Rmq.Pushed
    | _, _ => Rmq.calls (fst (consume message w)) = Rmq.calls message ++ [Rmq.Push]
    end.
Proof.
  intros Hu Hh. unfold Consume. rewrite Hu, Hh.
  unfold Rmq.DoPush, Rmq.DoAck, Rmq.settle.
  destruct (Rmq.fails message Rmq.Push) eqn:Hp; simpl.
  - split; [by eexists|]. split; [|done]. log_tail.
  - destruct (Rmq.status message) eqn:Hs; simpl.
    + destruct (Rmq.fails message Rmq.Ack) eqn:Ha; simpl.
      * split; [log_tail|]. split; [log_tail|]. by rewrite <- List.app_assoc.
      * split; [log_tail|]. split; [log_tail|]. by rewrite <- List.app_assoc.
    + split; [by eexists|]. split; [|done]. log_tail.
    + split; [by eexists|]. split; [|done]. log_tail.
Qed.

(** A request type that is none of the five is answered by an error,
    whatever the handlers are, and the world is left as it is. *)
Lemma handleRequest_invalid (request : Request) (requestType : string) (w : World Handler) :
  requestType ∉ [NewRequest; PartialRequest; PauseRequest; ResumeRequest; StopRequest] →
  handle request requestType w
  = (Some (Errorf "invalid request %v received with type %s"
             [argR request; argS requestType]), w).
Proof.
  intros Hty. unfold handleRequest.
  destruct (String.eqb_spec requestType PartialRequest) as [->|_];
    [exfalso; apply Hty; set_solver|].
  destruct (String.eqb_spec requestType NewRequest) as [->|_];
    [exfalso; apply Hty; set_solver|].
  destruct (String.eqb_spec requestType PauseRequest) as [->|_];
    [exfalso; apply Hty; set_solver|].
  destruct (String.eqb_spec requestType ResumeRequest) as [->|_];
    [exfalso; apply Hty; set_solver|].
  destruct (String.eqb_spec requestType StopRequest) as [->|_];
    [exfalso; apply Hty; set_solver|].
  reflexivity.
Qed.

(** C5.  A task whose request type is none of NEW, PARTIAL, PAUSE, RESUME
    and STOP reaches no handler: [handleRequest] returns the error
    "invalid request" and leaves the world as it is.  [Consume] then logs
    the failure and calls Push on the delivery, which moves it to the
    retry chain when the broker accepts the call. *)
Theorem invalid_request_type_pushed (message : Rmq.Delivery) (task : Task)
    (w : World Handler) :
  Json.Unmarshal (Rmq.Payload message) = inr task →
  RequestType task ∉ [NewRequest; PartialRequest; PauseRequest; ResumeRequest; StopRequest] →
  let err := Errorf "invalid request %v received with type %s"
               [argR (makeRequestFromTask task); argS (RequestType task)] in
  handle (makeRequestFromTask task) (RequestType task) w = (Some err, w)
  ∧ (∃ rest, Rmq.calls (fst (consume message w)) = Rmq.calls message ++ Rmq.Push :: rest)
  ∧ (∃ rest, logged (snd (consume message w))
             = logged w ++ Line "[goflow] rejecting task for failure, error " [argE err] :: rest)
  ∧ match Rmq.fails message Rmq.Push, Rmq.status message with
    | None, Rmq.Unacked => Rmq.status (fst (consume message w)) = Rmq.Pushed
    | _, _ => True
    end.
Proof.
  intros Hu Hty err.
  pose proof (handleRequest_invalid (makeRequestFromTask task) _ w Hty) as Hh.
  destruct (Consume_handler_failure message w w task err Hu Hh) as (Hc & Hl & Hs).
  split; [exact Hh|]. split; [exact Hc|]. split; [exact Hl|].
  destruct (Rmq.fails message Rmq.Push); [done|].
  destruct (Rmq.status message); [|done..]. apply Hs.
Qed.

(** C2, where the code departs from it.  A NEW task for a flow that the
    worker has not registered: the handler fails, Push is called and goes
    through, and Ack is called on the same delivery after it.  (The broker
    answers that Ack with "not found", which is logged.) *)
Theorem Consume_acks_pushed_delivery (b : Rmq.Broker) :
  let w : World Handler := mkWorld (mkRuntime ∅ 1 1 true ∅ (Connection [])) b ∅ [] [] in
  let message :=
    Rmq.mkDelivery (Json.Marshal (mkTask "ghost" "r1" "" ∅ "" ∅ NewRequest))
      Rmq.Unacked [] (fun _ => None) in
  Rmq.calls (fst (consume message w)) = [Rmq.Push; Rmq.Ack]
  ∧ Rmq.status (fst (consume message w)) = Rmq.Pushed
  ∧ logged (snd (consume message w))
    = [Line "[goflow] rejecting task for failure, error "
         [argE (Errorf "failed to execute request %s, error: %v"
                  [argS "r1"; argE (Errorf "could not find handler for flow %s" [argS "ghost"])])];
       Line "[goflow] failed to acknowledge message, error " [argE Rmq.ErrorNotFound]].
Proof.
  intros w message.
  assert (Hu : Json.Unmarshal (Rmq.Payload message)
               = inr (mkTask "ghost" "r1" "" ∅ "" ∅ NewRequest)) by (vm_compute; reflexivity).
  unfold Consume. rewrite Hu.
  split; [|split]; reflexivity.
Qed.

End Consuming.

Lemma invalid_request_type_pushed_witness :
  let idle : unit -> Request -> World unit -> option error * World unit :=
    fun _ _ w => (None, w) in
  let task := mkTask "orders" "r1" "" ∅ "" ∅ "CANCEL" in
  let message := Rmq.mkDelivery (Json.Marshal task) Rmq.Unacked [] (fun _ => None) in
  let w : World unit :=
    mkWorld (mkRuntime (<["orders" := tt]> ∅) 1 1 true ∅ (Connection []))
            (Rmq.mkBroker ∅ (fun _ => None)) ∅ [] [] in
  Json.Unmarshal (Rmq.Payload message) = inr task
  ∧ (RequestType task ∉ [NewRequest; PartialRequest; PauseRequest; ResumeRequest; StopRequest])
  ∧ Rmq.status (fst (Consume idle idle idle (fun _ _ _ w => (None, w)) message w)) = Rmq.Pushed.
Proof.
  intros idle task message w.
  assert (Hu : Json.Unmarshal (Rmq.Payload message) = inr task) by (vm_compute; reflexivity).
  assert (Hty : RequestType task
                ∉ [NewRequest; PartialRequest; PauseRequest; ResumeRequest; StopRequest]).
  { intros H. repeat (apply elem_of_cons in H as [H|H]; [discriminate H|]).
    by apply elem_of_nil in H. }
  split; [exact Hu|]. split; [exact Hty|].
  exact (proj2 (proj2 (proj2
    (invalid_request_type_pushed idle idle idle (fun _ _ _ w => (None, w)) message task w Hu Hty)))).
Defined.

(** ** Registering flows *)

Section Registering.
Context {Handler : Type}.

Lemma checkNames_registered (registry : gmap string Handler) (names flowNames : list string)
    (n : string) :
  n ∈ names → is_Some (registry !! n) →
  ∃ n', n' ∈ names ∧ is_Some (registry !! n')
        ∧ checkNames registry names flowNames
          = inl (Errorf "flow %s already registered" [argS n']).
Proof.
  revert flowNames. induction names as [|m names IH]; intros flowNames Hin Hreg.
  - by apply elem_of_nil in Hin.
  - simpl. destruct (registry !! m) as [h|] eqn:Hm.
    + exists m. split; [by left|]. split; [by rewrite Hm|]. reflexivity.
    + apply elem_of_cons in Hin as [->|Hin].
      * rewrite Hm in Hreg. by destruct Hreg.
      * destruct (IH (flowNames ++ [m]) Hin Hreg) as (n' & Hn' & Hr & Hc).
        exists n'. split; [by right|]. by split.
Qed.

(** What the guard of [Register] does: on the nil interface it panics in
    [IsNil], on the nil pointer it returns its error; in both cases the
    world is left as it is, whatever the flows are. *)
Lemma Register_guard (flows : gmap string Handler) (w : World Handler) :
  match rmqConnection (runtime w) with
  | NoConnection => Register flows w = (Panic reflect_IsNil_zero, w)
  | NilConnection =>
    Register flows w
    = (Fail (Errorf "unable to register flows, rmq connection not initialized" []), w)
  | Connection _ => True
  end.
Proof.
  unfold Register, bind, getRuntime.
  by destruct (rmqConnection (runtime w)).
Qed.

(** Past the guard, [Register] is atomic with respect to duplicate names:
    the first loop checks every name before the second loop sets any, so
    with a name that is registered already the call returns the error
    "already registered" and the world, the registry with it, is exactly
    as before. *)
Lemma Register_duplicate (flows : gmap string Handler) (w : World Handler)
    (objs : list Rmq.Queue) (name : string) :
  rmqConnection (runtime w) = Connection objs →
  is_Some (flows !! name) → is_Some (Flows (runtime w) !! name) →
  ∃ n', is_Some (flows !! n') ∧ is_Some (Flows (runtime w) !! n')
        ∧ Register flows w = (Fail (Errorf "flow %s already registered" [argS n']), w).
Proof.
  intros Hconn [given Hgiven] Hreg. unfold Register, bind, getRuntime. rewrite Hconn.
  destruct (decide (size flows = 0%nat)) as [Hz|_].
  { apply map_size_empty_iff in Hz. subst flows. by rewrite lookup_empty in Hgiven. }
  assert (Hin : name ∈ map fst (map_to_list flows)).
  { apply list_elem_of_fmap. exists (name, given). split; [done|].
    by apply elem_of_map_to_list. }
  destruct (checkNames_registered (Flows (runtime w)) _ [] name Hin Hreg)
    as (n' & Hn' & Hr & Hc).
  exists n'. split.
  - apply list_elem_of_fmap in Hn' as [[k v] [-> Hkv]].
    apply elem_of_map_to_list in Hkv. by exists v.
  - split; [exact Hr|]. by rewrite Hc.
Qed.

(** An empty map, on a runtime that has its connection: nil, and nothing
    changes, whatever the registry holds. *)
Lemma Register_empty (w : World Handler) (objs : list Rmq.Queue) :
  rmqConnection (runtime w) = Connection objs → Register ∅ w = (Ok tt, w).
Proof. intros Hconn. unfold Register, bind, getRuntime. by rewrite Hconn. Qed.

End Registering.

(** C8, where the code departs from it.  On a runtime whose connection was
    never set, [rmqConnection] is the nil interface, and the guard of
    [Register], [reflect.ValueOf(fRuntime.rmqConnection).IsNil()], panics
    instead of answering true: with the flow "orders" in the registry,
    [Register] of a map that holds "orders" does not return an error, it
    panics (the registry being left as it is).  Past the guard the claim
    holds (lemmas [Register_duplicate] and [Register_empty]), and on a nil
    pointer the guard returns its error (lemma [Register_guard]). *)
Theorem Register_panics_without_connection :
  let w : World nat :=
    mkWorld (mkRuntime (<["orders" := 1%nat]> ∅) 2 1 false ∅ NoConnection)
            (Rmq.mkBroker ∅ (fun _ => None)) ∅ [] [] in
  let flows : gmap string nat := <["orders" := 7%nat]> (<["billing" := 8%nat]> ∅) in
  flows !! "orders" = Some 7%nat
  ∧ Flows (runtime w) !! "orders" = Some 1%nat
  ∧ Register flows w = (Panic reflect_IsNil_zero, w)
  ∧ (∀ e, fst (Register flows w) ≠ Fail e)
  ∧ Register flows (setRuntime (setConnection NilConnection (runtime w)) w)
    = (Fail (Errorf "unable to register flows, rmq connection not initialized" []),
       setRuntime (setConnection NilConnection (runtime w)) w)
  ∧ ∃ n, Register flows (setRuntime (setConnection (Connection []) (runtime w)) w)
         = (Fail (Errorf "flow %s already registered" [argS n]),
            setRuntime (setConnection (Connection []) (runtime w)) w).
Proof.
  intros w flows.
  split; [reflexivity|]. split; [reflexivity|].
  assert (Hpanic : Register flows w = (Panic reflect_IsNil_zero, w))
    by exact (Register_guard flows w).
  split; [exact Hpanic|]. split; [by rewrite Hpanic|].
  split; [exact (Register_guard flows (setRuntime (setConnection NilConnection (runtime w)) w))|].
  destruct (Register_duplicate flows
              (setRuntime (setConnection (Connection []) (runtime w)) w) [] "orders" eq_refl)
    as (n & _ & _ & Hrun); [by exists 7%nat | by exists 1%nat |].
  by exists n.
Qed.

(** ** Enqueueing a partial request *)

Lemma queues_Some (c : connection) (objs : list Rmq.Queue) :
  queues c = Some objs → c = Connection objs.
Proof. destruct c; simpl; congruence. Qed.

Section Enqueueing.
Context {Handler : Type}.

Lemma setBroker_same (w : World Handler) : setBroker (broker w) w = w.
Proof. by destruct w. Qed.

Lemma EnqueuePartialRequest_cases (pr : Request) (w : World Handler) :
  let data := Json.Marshal (partial_task pr) in
  match taskQueues (runtime w) !! req_FlowName pr
        ≫= (fun q => queues (rmqConnection (runtime w)) ≫= (fun objs => objs !! q)) with
  | Some o =>
    match Rmq.refuses (broker w) (Rmq.CPublish (Rmq.name o) data) with
    | Some e =>
      EnqueuePartialRequest pr w
      = (Fail (Errorf "failed to publish task, error %v" [argE e]), w)
    | None =>
      EnqueuePartialRequest pr w
      = (Ok tt,
         setBroker
           (Rmq.mkBroker
              (<[Rmq.name o := default [] (Rmq.ready (broker w) !! Rmq.name o) ++ [data]]>
                 (Rmq.ready (broker w)))
              (Rmq.refuses (broker w))) w)
    end
  | None => EnqueuePartialRequest pr w = (Panic nil_dereference, w)
  end.
Proof.
  intros data. unfold EnqueuePartialRequest, bind, getRuntime. fold (partial_task pr). fold data.
  destruct (taskQueues (runtime w) !! req_FlowName pr) as [q|]; simpl; [|reflexivity].
  destruct (queues (rmqConnection (runtime w)) ≫= (fun objs => objs !! q)) as [o|]; [|reflexivity].
  unfold wrap, publish, Rmq.PublishBytes.
  destruct (Rmq.refuses (broker w) (Rmq.CPublish (Rmq.name o) data)); [|reflexivity].
  by rewrite setBroker_same.
Qed.

End Enqueueing.

(** ** UTF-8: decoding then encoding *)

(** From here on [lia] also reasons about division and remainder by a
    constant. *)
Ltac Zify.zify_post_hook ::= Z.to_euclidean_division_equations.

Section Utf8Facts.
Import Utf8.
Local Open Scope N_scope.

Lemma lor_add (a b n : N) : a mod 2 ^ n = 0 → b < 2 ^ n → N.lor a b = a + b.
Proof.
  intros Ha Hb.
  assert (Hland : N.land a b = 0).
  { apply N.bits_inj. intros m. rewrite N.land_spec, N.bits_0.
    destruct (N.lt_ge_cases m n) as [Hlt|Hge].
    - rewrite <- (N.mod_pow2_bits_low a n m Hlt), Ha, N.bits_0. reflexivity.
    - destruct (N.eq_dec b 0) as [->|Hb0]; [by rewrite N.bits_0, andb_false_r|].
      rewrite (N.bits_above_log2 b m), andb_false_r; [reflexivity|].
      apply N.log2_lt_pow2; [lia|].
      eapply N.lt_le_trans; [exact Hb|]. apply N.pow_le_mono_r; lia. }
  rewrite <- (N.lxor_lor a b Hland). symmetry. by apply N.add_nocarry_lxor.
Qed.

Lemma land_mask (x : N) :
  N.land x 0x3F = x mod 64 ∧ N.land x 0x1F = x mod 32 ∧ N.land x 0x0F = x mod 16
  ∧ N.land x 0x07 = x mod 8 ∧ N.land x 0xFF = x mod 256.
Proof.
  change 0x3F with (N.ones 6). change 0x1F with (N.ones 5).
  change 0x0F with (N.ones 4). change 0x07 with (N.ones 3). change 0xFF with (N.ones 8).
  rewrite !N.land_ones. done.
Qed.
End Utf8Facts.
Section Utf8Facts2.
Import Utf8.
Local Open Scope N_scope.

Local Ltac split_decode H :=
  repeat match type of H with
  | (if ?c then _ else _) = _ => destruct c eqn:?
  | match ?x with _ => _ end = _ => destruct x eqn:?
  | (let '(_, _) := ?x in _) = _ => destruct x eqn:?
  end.

Local Ltac to_prop :=
  repeat match goal with
  | H : _ && _ = true |- _ => apply andb_true_iff in H as [? ?]
  | H : _ || _ = false |- _ => apply orb_false_iff in H as [? ?]
  | H : _ && _ = false |- _ => apply andb_false_iff in H
  | H : _ || _ = true |- _ => apply orb_true_iff in H
  | H : (_ <=? _) = true |- _ => apply N.leb_le in H
  | H : (_ <=? _) = false |- _ => apply N.leb_gt in H
  | H : (_ <? _) = true |- _ => apply N.ltb_lt in H
  | H : (_ <? _) = false |- _ => apply N.ltb_ge in H
  | H : (_ =? _) = true |- _ => apply N.eqb_eq in H
  | H : (_ =? _) = false |- _ => apply N.eqb_neq in H
  end.

Lemma first_cases (p0 sz lo hi : N) :
  first p0 = Some (sz, (lo, hi)) →
  (sz = 2 ∧ 0xC2 <= p0 <= 0xDF ∧ lo = 0x80 ∧ hi = 0xBF)
  ∨ (sz = 3 ∧ p0 = 0xE0 ∧ lo = 0xA0 ∧ hi = 0xBF)
  ∨ (sz = 3 ∧ (0xE1 <= p0 <= 0xEC ∨ 0xEE <= p0 <= 0xEF) ∧ lo = 0x80 ∧ hi = 0xBF)
  ∨ (sz = 3 ∧ p0 = 0xED ∧ lo = 0x80 ∧ hi = 0x9F)
  ∨ (sz = 4 ∧ p0 = 0xF0 ∧ lo = 0x90 ∧ hi = 0xBF)
  ∨ (sz = 4 ∧ 0xF1 <= p0 <= 0xF3 ∧ lo = 0x80 ∧ hi = 0xBF)
  ∨ (sz = 4 ∧ p0 = 0xF4 ∧ lo = 0x80 ∧ hi = 0x8F).
Proof.
  unfold first, locb, hicb. intros H. split_decode H; inversion H; subst; to_prop.
  all: try (left; repeat split; lia).
  all: try (right; left; repeat split; lia).
  all: try (right; right; left; repeat split; lia).
  all: try (right; right; right; left; repeat split; lia).
  all: try (right; right; right; right; left; repeat split; lia).
  all: try (right; right; right; right; right; left; repeat split; lia).
  all: try (right; right; right; right; right; right; repeat split; lia).
Qed.
End Utf8Facts2.
Section Utf8Facts3.
Import Utf8.
Local Open Scope N_scope.

Local Ltac arith :=
  unfold byte, maskx, mask2, mask3, mask4, tx, t2, t3, t4;
  repeat match goal with
  | |- context [N.land ?x 0x3F] => rewrite (proj1 (land_mask x))
  | |- context [N.land ?x 0x1F] => rewrite (proj1 (proj2 (land_mask x)))
  | |- context [N.land ?x 0x0F] => rewrite (proj1 (proj2 (proj2 (land_mask x))))
  | |- context [N.land ?x 0x07] => rewrite (proj1 (proj2 (proj2 (proj2 (land_mask x)))))
  | |- context [N.land ?x 0xFF] => rewrite (proj2 (proj2 (proj2 (proj2 (land_mask x)))))
  end;
  rewrite ?N.shiftl_mul_pow2, ?N.shiftr_div_pow2;
  change (2 ^ 6) with 64; change (2 ^ 12) with 4096; change (2 ^ 18) with 262144.

Lemma decode2 (b0 b1 : N) :
  N.lor (N.shiftl (N.land b0 mask2) 6) (N.land b1 maskx)
  = (b0 mod 32) * 64 + b1 mod 64.
Proof. arith. apply (lor_add _ _ 6); change (2 ^ 6) with 64; lia. Qed.

Lemma decode3 (b0 b1 b2 : N) :
  N.lor (N.lor (N.shiftl (N.land b0 mask3) 12) (N.shiftl (N.land b1 maskx) 6))
        (N.land b2 maskx)
  = (b0 mod 16) * 4096 + (b1 mod 64) * 64 + b2 mod 64.
Proof.
  arith.
  rewrite (lor_add (b0 mod 16 * 4096) _ 12) by (change (2 ^ 12) with 4096; lia).
  apply (lor_add _ _ 6); change (2 ^ 6) with 64; lia.
Qed.

Lemma decode4 (b0 b1 b2 b3 : N) :
  N.lor (N.lor (N.lor (N.shiftl (N.land b0 mask4) 18) (N.shiftl (N.land b1 maskx) 12))
               (N.shiftl (N.land b2 maskx) 6))
        (N.land b3 maskx)
  = (b0 mod 8) * 262144 + (b1 mod 64) * 4096 + (b2 mod 64) * 64 + b3 mod 64.
Proof.
  arith.
  rewrite (lor_add (b0 mod 8 * 262144) _ 18) by (change (2 ^ 18) with 262144; lia).
  rewrite (lor_add _ (b2 mod 64 * 64) 12) by (change (2 ^ 12) with 4096; lia).
  apply (lor_add _ _ 6); change (2 ^ 6) with 64; lia.
Qed.

Lemma encode1 (r : N) : r <= 0x7F → EncodeRune r = [r].
Proof.
  intros Hr. unfold EncodeRune. destruct (N.leb_spec r 0x7F); [|lia].
  arith. f_equal. lia.
Qed.

Lemma encode2 (r : N) :
  0x80 <= r <= 0x7FF → EncodeRune r = [192 + r / 64; 128 + r mod 64].
Proof.
  intros Hr. unfold EncodeRune.
  destruct (N.leb_spec r 0x7F); [lia|]. destruct (N.leb_spec r 0x7FF); [|lia].
  arith.
  rewrite (lor_add 192 _ 5) by (change (2 ^ 5) with 32; lia).
  rewrite (lor_add 128 _ 6) by (change (2 ^ 6) with 64; lia).
  f_equal; [|f_equal]; lia.
Qed.

Lemma encode3 (r : N) :
  0x800 <= r <= 0xFFFF → ¬ (0xD800 <= r <= 0xDFFF) →
  EncodeRune r = [224 + r / 4096; 128 + (r / 64) mod 64; 128 + r mod 64].
Proof.
  intros Hr Hs. unfold EncodeRune, MaxRune, surrogateMin, surrogateMax.
  destruct (N.leb_spec r 0x7F); [lia|]. destruct (N.leb_spec r 0x7FF); [lia|].
  destruct (N.ltb_spec 0x10FFFF r); [lia|]. simpl.
  destruct (N.leb_spec 0xD800 r); destruct (N.leb_spec r 0xDFFF); try lia; simpl.
  all: destruct (N.leb_spec r 0xFFFF); [|lia].
  all: arith.
  all: rewrite (lor_add 224 _ 4) by (change (2 ^ 4) with 16; lia).
  all: rewrite !(lor_add 128 _ 6) by (change (2 ^ 6) with 64; lia).
  all: f_equal; [|f_equal; [|f_equal]]; lia.
Qed.

Lemma encode4 (r : N) :
  0x10000 <= r <= 0x10FFFF →
  EncodeRune r = [240 + r / 262144; 128 + (r / 4096) mod 64;
                  128 + (r / 64) mod 64; 128 + r mod 64].
Proof.
  intros Hr. unfold EncodeRune, MaxRune, surrogateMin, surrogateMax.
  destruct (N.leb_spec r 0x7F); [lia|]. destruct (N.leb_spec r 0x7FF); [lia|].
  destruct (N.ltb_spec 0x10FFFF r); [lia|]. simpl.
  destruct (N.leb_spec 0xD800 r); [|lia]. destruct (N.leb_spec r 0xDFFF); [lia|]. simpl.
  destruct (N.leb_spec r 0xFFFF); [lia|].
  arith.
  rewrite (lor_add 240 _ 3) by (change (2 ^ 3) with 8; lia).
  rewrite !(lor_add 128 _ 6) by (change (2 ^ 6) with 64; lia).
  f_equal; [|f_equal; [|f_equal; [|f_equal]]]; lia.
Qed.
End Utf8Facts3.
Section Utf8Facts4.
Import Utf8.
Local Open Scope N_scope.

Local Ltac split_decode H :=
  repeat match type of H with
  | (if ?c then _ else _) = _ => destruct c eqn:?
  | match ?x with _ => _ end = _ => destruct x eqn:?
  | (let '(_, _) := ?x in _) = _ => destruct x eqn:?
  end.

Local Ltac to_prop :=
  repeat match goal with
  | H : _ && _ = true |- _ => apply andb_true_iff in H as [? ?]
  | H : _ || _ = false |- _ => apply orb_false_iff in H as [? ?]
  | H : (_ <=? _) = true |- _ => apply N.leb_le in H
  | H : (_ <=? _) = false |- _ => apply N.leb_gt in H
  | H : (_ <? _) = true |- _ => apply N.ltb_lt in H
  | H : (_ <? _) = false |- _ => apply N.ltb_ge in H
  | H : (_ =? _) = true |- _ => apply N.eqb_eq in H
  | H : (_ =? _) = false |- _ => apply N.eqb_neq in H
  end.

(** Where [DecodeRune] does not report an error, [EncodeRune] gives back
    the bytes it has read. *)
Lemma DecodeRune_EncodeRune (b0 : N) (p1 : list N) (r : N) (size : nat) :
  Forall (fun b => b < 256) (b0 :: p1) →
  DecodeRune (b0 :: p1) = (r, size) →
  (r =? RuneError) && (size =? 1)%nat = false →
  EncodeRune r = take size (b0 :: p1) ∧ (1 <= size)%nat.
Proof.
  intros Hb Hd Hv. unfold DecodeRune in Hd.
  destruct (b0 <? 0x80) eqn:E0.
  { inversion Hd; subst. to_prop. split; [|lia]. rewrite encode1 by lia. reflexivity. }
  destruct (first b0) as [[sz [lo hi]]|] eqn:Ef;
    [|inversion Hd; subst; discriminate Hv].
  apply first_cases in Ef.
  split_decode Hd; inversion Hd; subst; try discriminate Hv; clear Hd Hv;
    (split; [|lia]); to_prop;
    repeat match goal with
    | H : Forall _ (_ :: _) |- _ => apply Forall_cons in H as [? H]
    end;
    unfold locb, hicb in *.
  - rewrite decode2.
    destruct Ef as [E|[E|[E|[E|[E|[E|E]]]]]]; destruct E as (? & ? & ? & ?);
      subst; try lia.
    rewrite encode2 by lia. simpl. f_equal; [|f_equal]; lia.
  - rewrite decode3.
    destruct Ef as [E|[E|[E|[E|[E|[E|E]]]]]]; destruct E as (? & ? & ? & ?);
      subst; try lia.
    all: rewrite encode3 by lia; simpl; f_equal; [|f_equal; [|f_equal]]; lia.
  - rewrite decode4.
    destruct Ef as [E|[E|[E|[E|[E|[E|E]]]]]]; destruct E as (? & ? & ? & ?);
      subst; try lia.
    all: rewrite encode4 by lia; simpl; f_equal; [|f_equal; [|f_equal; [|f_equal]]]; lia.
Qed.

Lemma runes_round_trip (fuel : nat) (p : list N) :
  Forall (fun b => b < 256) p → (length p <= fuel)%nat →
  valid_fuel fuel p = true →
  flat_map EncodeRune (runes_fuel fuel p) = p.
Proof.
  revert p. induction fuel as [|fuel IH]; intros p Hb Hlen Hv.
  - destruct p; [reflexivity | simpl in Hlen; lia].
  - destruct p as [|b0 p1]; [reflexivity|].
    cbn [valid_fuel runes_fuel] in *.
    destruct (DecodeRune (b0 :: p1)) as [r size] eqn:Hd.
    destruct ((r =? RuneError) && (size =? 1)%nat) eqn:Hok; [discriminate|].
    destruct (DecodeRune_EncodeRune b0 p1 r size Hb Hd Hok) as [He Hsz].
    cbn [flat_map]. rewrite He, IH.
    + apply take_drop.
    + by apply Forall_drop.
    + rewrite length_drop. simpl in *. lia.
    + exact Hv.
Qed.

Lemma bytes_bounded (s : string) : Forall (fun b => b < 256) (bytes s).
Proof.
  unfold bytes. apply Forall_forall. intros b Hin.
  apply list_elem_of_fmap in Hin as [a [-> _]]. apply N_ascii_bounded.
Qed.

Lemma of_bytes_bytes (s : string) : of_bytes (bytes s) = s.
Proof.
  unfold of_bytes, bytes. rewrite List.map_map.
  rewrite (List.map_ext _ (fun a => a)) by apply ascii_N_embedding.
  rewrite List.map_id. apply string_of_list_ascii_of_string.
Qed.

Lemma length_bytes (s : string) : length (bytes s) = String.length s.
Proof.
  unfold bytes. rewrite length_map.
  induction s as [|a s IH]; [reflexivity | simpl; by rewrite IH].
Qed.

(** A valid string is read into runes and written back unchanged. *)
Lemma of_runes_runes (s : string) : ValidString s = true → of_runes (runes s) = s.
Proof.
  intros Hv. unfold of_runes, runes.
  rewrite runes_round_trip.
  - apply of_bytes_bytes.
  - apply bytes_bounded.
  - by rewrite length_bytes.
  - exact Hv.
Qed.
End Utf8Facts4.

(** ** Tasks on the wire *)

Section TaskRoundTrip.
Import Json.

Lemma into_elements_of (vs : list string) :
  forallb Utf8.ValidString vs = true →
  into_elements (map of_string vs) = inr vs.
Proof.
  induction vs as [|v vs IH]; intros Hv; [reflexivity|].
  simpl in *. apply andb_true_iff in Hv as [Hv Hvs].
  rewrite of_runes_runes by exact Hv. by rewrite IH.
Qed.

Lemma into_members_of (cur : values) (l : list (string * list string)) :
  forallb (fun kv => Utf8.ValidString (fst kv) && forallb Utf8.ValidString (snd kv)) l = true →
  into_members cur
    (map (fun kv => (Utf8.runes (fst kv), JArray (map of_string (snd kv)))) l)
  = inr (foldl (fun m kv => <[fst kv := snd kv]> m) cur l).
Proof.
  revert cur. induction l as [|[k vs] l IH]; intros cur Hv; [reflexivity|].
  simpl in *. apply andb_true_iff in Hv as [Hkv Hl].
  apply andb_true_iff in Hkv as [Hk Hvs].
  rewrite into_elements_of by exact Hvs.
  rewrite of_runes_runes by exact Hk. by apply IH.
Qed.

Lemma foldl_insert_lookup {V} (l : list (string * V)) (cur : gmap string V) (k : string) :
  NoDup (map fst l) →
  foldl (fun m kv => <[fst kv := snd kv]> m) cur l !! k
  = match list_find (fun kv => fst kv = k) l with
    | Some (_, kv) => Some (snd kv)
    | None => cur !! k
    end.
Proof.
  revert cur. induction l as [|[k0 v0] l IH]; intros cur Hnd; [reflexivity|].
  simpl in *. apply NoDup_cons in Hnd as [Hnotin Hnd].
  rewrite IH by exact Hnd.
  destruct (decide (k0 = k)) as [->|Hne]; simpl.
  - destruct (list_find _ l) as [[i kv]|] eqn:Hf; simpl.
    + exfalso. apply list_find_Some in Hf as (Hi & Hk & _).
      apply Hnotin. apply list_elem_of_fmap. exists kv. split; [done|].
      by eapply list_elem_of_lookup_2.
    + by rewrite lookup_insert_eq.
  - destruct (list_find _ l) as [[i kv]|] eqn:Hf; simpl; [done|].
    by rewrite lookup_insert_ne.
Qed.

Lemma foldl_insert_map_to_list {V} (m : gmap string V) :
  foldl (fun m kv => <[fst kv := snd kv]> m) ∅ (map_to_list m) = m.
Proof.
  apply map_eq. intros k.
  rewrite foldl_insert_lookup by apply NoDup_fst_map_to_list.
  destruct (list_find _ (map_to_list m)) as [[i [k' v]]|] eqn:Hf; simpl.
  - apply list_find_Some in Hf as (Hi & Hk & _). simpl in Hk. subst k'.
    symmetry. apply elem_of_map_to_list. by eapply list_elem_of_lookup_2.
  - rewrite lookup_empty. symmetry.
    destruct (m !! k) as [v|] eqn:Hm; [|done].
    exfalso. apply elem_of_map_to_list in Hm.
    eapply list_find_None in Hf. rewrite Forall_forall in Hf.
    by apply (Hf _ Hm).
Qed.

Lemma into_values_of (m : values) :
  valid_values m = true → into_values ∅ (of_values m) = inr m.
Proof.
  intros Hv. unfold into_values, of_values.
  rewrite into_members_of by exact Hv.
  by rewrite foldl_insert_map_to_list.
Qed.

Lemma into_task_cons (t : Task) (k : list N) (v : json) (ms : list (list N * json)) :
  into_task t ((k, v) :: ms)
  = match into_field t k v with
    | inl e => inl e
    | inr t' => into_task t' ms
    end.
Proof. reflexivity. Qed.

(** The member names that [Marshal] writes select the fields they are
    meant for. *)
Lemma into_field_string (t : Task) (s : string) :
  Utf8.ValidString s = true →
  into_field t (Utf8.runes "flow_name") (of_string s)
  = inr (mkTask s (RequestID t) (Body t) (Header t) (RawQuery t) (Query t) (RequestType t))
  ∧ into_field t (Utf8.runes "request_id") (of_string s)
    = inr (mkTask (FlowName t) s (Body t) (Header t) (RawQuery t) (Query t) (RequestType t))
  ∧ into_field t (Utf8.runes "body") (of_string s)
    = inr (mkTask (FlowName t) (RequestID t) s (Header t) (RawQuery t) (Query t) (RequestType t))
  ∧ into_field t (Utf8.runes "raw_query") (of_string s)
    = inr (mkTask (FlowName t) (RequestID t) (Body t) (Header t) s (Query t) (RequestType t))
  ∧ into_field t (Utf8.runes "request_type") (of_string s)
    = inr (mkTask (FlowName t) (RequestID t) (Body t) (Header t) (RawQuery t) (Query t) s).
Proof.
  intros Hs.
  assert (Hi : ∀ cur, into_string cur (of_string s) = inr s).
  { intros cur. unfold into_string, of_string. by rewrite of_runes_runes. }
  repeat split.
  - change (into_field t (Utf8.runes "flow_name") (of_string s))
      with (match into_string (FlowName t) (of_string s) with
            | inl e => inl e
            | inr s => inr (mkTask s (RequestID t) (Body t) (Header t) (RawQuery t) (Query t) (RequestType t))
            end).
    by rewrite Hi.
  - change (into_field t (Utf8.runes "request_id") (of_string s))
      with (match into_string (RequestID t) (of_string s) with
            | inl e => inl e
            | inr s => inr (mkTask (FlowName t) s (Body t) (Header t) (RawQuery t) (Query t) (RequestType t))
            end).
    by rewrite Hi.
  - change (into_field t (Utf8.runes "body") (of_string s))
      with (match into_string (Body t) (of_string s) with
            | inl e => inl e
            | inr s => inr (mkTask (FlowName t) (RequestID t) s (Header t) (RawQuery t) (Query t) (RequestType t))
            end).
    by rewrite Hi.
  - change (into_field t (Utf8.runes "raw_query") (of_string s))
      with (match into_string (RawQuery t) (of_string s) with
            | inl e => inl e
            | inr s => inr (mkTask (FlowName t) (RequestID t) (Body t) (Header t) s (Query t) (RequestType t))
            end).
    by rewrite Hi.
  - change (into_field t (Utf8.runes "request_type") (of_string s))
      with (match into_string (RequestType t) (of_string s) with
            | inl e => inl e
            | inr s => inr (mkTask (FlowName t) (RequestID t) (Body t) (Header t) (RawQuery t) (Query t) s)
            end).
    by rewrite Hi.
Qed.

Lemma into_field_values (t : Task) (m : values) :
  valid_values m = true →
  (Header t = ∅ →
   into_field t (Utf8.runes "header") (of_values m)
   = inr (mkTask (FlowName t) (RequestID t) (Body t) m (RawQuery t) (Query t) (RequestType t)))
  ∧ (Query t = ∅ →
     into_field t (Utf8.runes "query") (of_values m)
     = inr (mkTask (FlowName t) (RequestID t) (Body t) (Header t) (RawQuery t) m (RequestType t))).
Proof.
  intros Hm. split; intros He.
  - change (into_field t (Utf8.runes "header") (of_values m))
      with (match into_values (Header t) (of_values m) with
            | inl e => inl e
            | inr m => inr (mkTask (FlowName t) (RequestID t) (Body t) m (RawQuery t) (Query t) (RequestType t))
            end).
    by rewrite He, into_values_of.
  - change (into_field t (Utf8.runes "query") (of_values m))
      with (match into_values (Query t) (of_values m) with
            | inl e => inl e
            | inr m => inr (mkTask (FlowName t) (RequestID t) (Body t) (Header t) (RawQuery t) m (RequestType t))
            end).
    by rewrite He, into_values_of.
Qed.

(** A task whose strings are valid UTF-8 is unmarshalled from its own
    document as it was. *)
Lemma Unmarshal_Marshal (t : Task) :
  Utf8.ValidString (FlowName t) = true →
  Utf8.ValidString (RequestID t) = true →
  Utf8.ValidString (Body t) = true →
  valid_values (Header t) = true →
  Utf8.ValidString (RawQuery t) = true →
  valid_values (Query t) = true →
  Utf8.ValidString (RequestType t) = true →
  Unmarshal (Marshal t) = inr t.
Proof.
  intros H1 H2 H3 H4 H5 H6 H7. destruct t as [f r b h rq q ty].
  cbn [FlowName RequestID Body Header RawQuery Query RequestType] in *.
  unfold Unmarshal, Marshal.
  cbn [FlowName RequestID Body Header RawQuery Query RequestType].
  rewrite into_task_cons, (proj1 (into_field_string _ f H1)).
  rewrite into_task_cons, (proj1 (proj2 (into_field_string _ r H2))).
  rewrite into_task_cons, (proj1 (proj2 (proj2 (into_field_string _ b H3)))).
  rewrite into_task_cons, (proj1 (into_field_values _ h H4)) by reflexivity.
  rewrite into_task_cons, (proj1 (proj2 (proj2 (proj2 (into_field_string _ rq H5))))).
  rewrite into_task_cons, (proj2 (into_field_values _ q H6)) by reflexivity.
  rewrite into_task_cons, (proj2 (proj2 (proj2 (proj2 (into_field_string _ ty H7))))).
  reflexivity.
Qed.
End TaskRoundTrip.

Section TaskPayloads.
Context {Handler : Type}.

Lemma makeRequestFromTask_partial (r : Request) :
  makeRequestFromTask (partial_task r) = r.
Proof.
  destruct r. unfold makeRequestFromTask, partial_task, bytes_of_string, string_of_bytes.
  simpl. by rewrite list_byte_of_string_of_list_byte.
Qed.

Lemma makeRequestFromTask_new (flowName : string) (r : Request) :
  makeRequestFromTask (new_task flowName r) = with_flow flowName r.
Proof.
  destruct r. unfold makeRequestFromTask, new_task, with_flow, bytes_of_string, string_of_bytes.
  simpl. by rewrite list_byte_of_string_of_list_byte.
Qed.

(** What [Execute] leaves on the queue of the flow when it returns nil:
    one more message, the NEW task of the request. *)
Lemma Execute_publishes (flowName : string) (r : Request) (w w' : World Handler) :
  Execute flowName r w = (Ok tt, w') →
  Rmq.ready (broker w') !! internalRequestQueueId flowName
  = Some (default [] (Rmq.ready (broker w) !! internalRequestQueueId flowName)
          ++ [Json.Marshal (new_task flowName r)]).
Proof.
  unfold Execute, submit, bind, wrap, refused, publish, Rmq.PublishBytes.
  fold (new_task flowName r).
  destruct (Rmq.refuses (broker w) (Rmq.COpenConnection "goflow")); [discriminate|].
  destruct (Rmq.refuses (broker w) (Rmq.COpenQueue _)); [discriminate|].
  destruct (Rmq.refuses (broker w) (Rmq.CPublish _ _)); [discriminate|].
  intros H. inversion H; subst. simpl. by rewrite lookup_insert_eq.
Qed.

(** C9, as the code has it.  For a request whose strings are valid UTF-8
    (request id, body, raw query, keys and values of header and query),
    the NEW task that [Execute flowName] publishes, for a valid
    [flowName], is received as the request under the flow name given to
    [Execute]; the PARTIAL task that [EnqueuePartialRequest] publishes is
    received, when the flow name of the request is valid, as the request
    itself. *)
Theorem task_round_trip_valid (flowName : string) (r : Request) (w : World Handler) :
  valid_request r = true →
  Utf8.ValidString flowName = true →
  Utf8.ValidString (req_FlowName r) = true →
  match Execute flowName r w with
  | (Ok _, w') =>
    ∃ earlier, Rmq.ready (broker w') !! internalRequestQueueId flowName
               = Some (earlier ++ [Json.Marshal (new_task flowName r)])
  | _ => True
  end
  ∧ match EnqueuePartialRequest r w with
    | (Ok _, w') =>
      ∃ queue earlier, Rmq.ready (broker w') !! queue
                       = Some (earlier ++ [Json.Marshal (partial_task r)])
    | _ => True
    end
  ∧ received (Json.Marshal (new_task flowName r)) = Some (with_flow flowName r)
  ∧ received (Json.Marshal (partial_task r)) = Some r.
Proof.
  intros Hr Hf Hrf.
  unfold valid_request in Hr.
  repeat (apply andb_true_iff in Hr as [Hr ?]).
  split; [|split; [|split]].
  - destruct (Execute flowName r w) as [[[]| |] w'] eqn:He; [|done..].
    eexists. by apply Execute_publishes.
  - pose proof (EnqueuePartialRequest_cases r w) as Hc. simpl in Hc.
    destruct (taskQueues (runtime w) !! req_FlowName r
              ≫= (fun q => queues (rmqConnection (runtime w)) ≫= (fun objs => objs !! q))) as [o|].
    + destruct (Rmq.refuses (broker w) _); rewrite Hc; [done|].
      eexists _, _. simpl. by rewrite lookup_insert_eq.
    + by rewrite Hc.
  - unfold received. rewrite Unmarshal_Marshal by done.
    by rewrite makeRequestFromTask_new.
  - unfold received. rewrite Unmarshal_Marshal by done.
    by rewrite makeRequestFromTask_partial.
Qed.
End TaskPayloads.

(** C9 as stated fails.  A body that is not valid UTF-8 (the single byte
    0xFF) comes back as the three bytes of U+FFFD, and the task of
    [Execute "billing"] for a request of the flow "orders" is received under
    the flow name "billing". *)
Lemma task_round_trip_counterexample :
  let r := mkRequest "orders" "r1" [Byte.xff] ∅ "" ∅ in
  received (Json.Marshal (partial_task r))
  = Some (mkRequest "orders" "r1" [Byte.xef; Byte.xbf; Byte.xbd] ∅ "" ∅)
  ∧ received (Json.Marshal (partial_task r)) ≠ Some r
  ∧ received (Json.Marshal (new_task "billing" (mkRequest "orders" "r1" [] ∅ "" ∅)))
    ≠ Some (mkRequest "orders" "r1" [] ∅ "" ∅).
Proof.
  assert (H1 : received (Json.Marshal (partial_task (mkRequest "orders" "r1" [Byte.xff] ∅ "" ∅)))
               = Some (mkRequest "orders" "r1" [Byte.xef; Byte.xbf; Byte.xbd] ∅ "" ∅))
    by (vm_compute; reflexivity).
  assert (H2 : received (Json.Marshal (new_task "billing" (mkRequest "orders" "r1" [] ∅ "" ∅)))
               = Some (mkRequest "billing" "r1" [] ∅ "" ∅))
    by (vm_compute; reflexivity).
  cbv zeta. rewrite H1, H2. split; [reflexivity|]. split; intros H; discriminate H.
Qed.

Lemma task_round_trip_valid_witness :
  let r := mkRequest "orders" "r1"
             [Byte.x7b; Byte.xc3; Byte.xa9; Byte.x7d]
             (<["Accept" := ["text/plain"; "*/*"]]> ∅) "page=2" (<["page" := ["2"]]> ∅) in
  let w : World unit :=
    mkWorld (mkRuntime (<["orders" := tt]> ∅) 2 1 true (<["orders" := 0%nat]> ∅)
               (Connection [Rmq.mkQueue "goflow-internal-request:orders" None (Some (10, Redis.Second)) []]))
            (Rmq.mkBroker ∅ (fun _ => None)) ∅ [] [] in
  valid_request r = true
  ∧ Utf8.ValidString "orders" = true
  ∧ received (Json.Marshal (new_task "orders" r)) = Some r
  ∧ received (Json.Marshal (partial_task r)) = Some r.
Proof.
  intros r w.
  assert (Hr : valid_request r = true) by (vm_compute; reflexivity).
  assert (Hf : Utf8.ValidString "orders" = true) by (vm_compute; reflexivity).
  split; [exact Hr|]. split; [exact Hf|].
  exact (proj2 (proj2 (task_round_trip_valid "orders" r w Hr Hf Hf))).
Defined.

(** ** The worker registry *)

Section Registry.
Context {Handler : Type}.
Variable getFlowDefinition : Handler -> error + string.

Lemma collectDetails_other (flows : list (string * Handler)) (worker worker' : Worker)
    (details details' : gmap string string) (k : string) :
  collectDetails getFlowDefinition flows worker details = (None, worker', details') →
  k ∉ map fst flows → details' !! k = details !! k.
Proof.
  revert worker details. induction flows as [|[flowID h] flows IH]; intros worker details H Hk.
  - simpl in H. by inversion H.
  - simpl in H. destruct (getFlowDefinition h) as [err|dag] eqn:Hg; [discriminate|].
    rewrite (IH _ _ H).
    + apply lookup_insert_ne. intros ->. apply Hk. by left.
    + intros Hin. apply Hk. by right.
Qed.

Lemma collectDetails_spec (flows : list (string * Handler)) (worker worker' : Worker)
    (details details' : gmap string string) :
  collectDetails getFlowDefinition flows worker details = (None, worker', details') →
  NoDup (map fst flows) →
  ID worker' = ID worker
  ∧ ∀ flow h, (flow, h) ∈ flows →
      ∃ dag, getFlowDefinition h = inr dag ∧ details' !! flow = Some dag.
Proof.
  revert worker details. induction flows as [|[flowID h] flows IH]; intros worker details H Hnd.
  - simpl in H. inversion H; subst. split; [done|]. intros ? ? Hin. by apply elem_of_nil in Hin.
  - simpl in H. destruct (getFlowDefinition h) as [err|dag] eqn:Hg; [discriminate|].
    simpl in Hnd. apply NoDup_cons in Hnd as [Hnotin Hnd].
    destruct (IH _ _ H Hnd) as [Hid Hall]. split; [exact Hid|].
    intros flow h' Hin. apply elem_of_cons in Hin as [Heq|Hin].
    + inversion Heq; subst. exists dag. split; [exact Hg|].
      rewrite (collectDetails_other _ _ _ _ _ _ H Hnotin). apply lookup_insert_eq.
    + by apply Hall.
Qed.

Lemma collectDetails_failure (flows : list (string * Handler)) (worker worker' : Worker)
    (details details' : gmap string string) (err : error) :
  collectDetails getFlowDefinition flows worker details = (Some err, worker', details') →
  ID worker' = ID worker.
Proof.
  revert worker details. induction flows as [|[flowID h] flows IH]; intros worker details H.
  - discriminate.
  - simpl in H. destruct (getFlowDefinition h) as [e|dag] eqn:Hg.
    + by inversion H.
    + by apply IH in H.
Qed.

Lemma worker_key_not_flow_key (id flow : string) :
  WorkerKeyInitial +:+ ":" +:+ id ≠ FlowKeyInitial +:+ ":" +:+ flow.
Proof. unfold WorkerKeyInitial, FlowKeyInitial. cbv [String.append]. discriminate. Qed.

Lemma saveFlowDetails_lookup (details : gmap string string) (w : World Handler) :
  let w' := snd (saveFlowDetails details w) in
  (∀ id, rdb w' !! (WorkerKeyInitial +:+ ":" +:+ id) = rdb w !! (WorkerKeyInitial +:+ ":" +:+ id))
  ∧ (∀ flow dag, details !! flow = Some dag →
       rdb w' !! (FlowKeyInitial +:+ ":" +:+ flow)
       = Some (Redis.Entry (Json.Text dag) (Redis.Second * RDBKeyTimeOut))).
Proof.
  unfold saveFlowDetails. simpl. unfold Redis.SET.
  set (step := fun (db : gmap string (Redis.entry Json.wire)) (kv : string * string) =>
                 <[FlowKeyInitial +:+ ":" +:+ fst kv
                   := Redis.Entry (Json.Text (snd kv)) (Redis.Second * RDBKeyTimeOut)]> db).
  assert (Hother : ∀ l db k, (∀ kv, kv ∈ l → FlowKeyInitial +:+ ":" +:+ fst kv ≠ k) →
                             foldl step db l !! k = db !! k).
  { induction l as [|kv l IH]; intros db k Hk; [done|].
    simpl. rewrite IH by (intros kv' Hin; apply Hk; by right).
    unfold step. rewrite lookup_insert_ne; [done|]. apply Hk. by left. }
  assert (Hin : ∀ l db flow dag, NoDup (map fst l) → (flow, dag) ∈ l →
                  foldl step db l !! (FlowKeyInitial +:+ ":" +:+ flow)
                  = Some (Redis.Entry (Json.Text dag) (Redis.Second * RDBKeyTimeOut))).
  { induction l as [|kv l IH]; intros db flow dag Hnd Hin; [by apply elem_of_nil in Hin|].
    simpl in *. apply NoDup_cons in Hnd as [Hnotin Hnd].
    apply elem_of_cons in Hin as [<-|Hin].
    - rewrite Hother.
      + unfold step. simpl. by rewrite lookup_insert_eq.
      + intros kv' Hkv' Heq. apply Hnotin.
        apply (inj (String.append _)) in Heq. apply (inj (String.append _)) in Heq.
        simpl in Heq. rewrite <- Heq. apply list_elem_of_fmap. by exists kv'.
    - by apply IH. }
  split.
  - intros id. apply Hother. intros kv _ Heq. by apply (worker_key_not_flow_key id (fst kv)).
  - intros flow dag Hd. apply Hin; [apply NoDup_fst_map_to_list|].
    by apply elem_of_map_to_list.
Qed.
Lemma registerDetails_spec (worker worker' : Worker) (w w' : World Handler)
    (res : option error) :
  registerDetails getFlowDefinition worker w = (res, worker', w') →
  registered_details getFlowDefinition (ID worker)
    (mkRegistration 0 w res worker' w').
Proof.
  unfold registerDetails, registered_details. simpl.
  destruct (collectDetails getFlowDefinition (map_to_list (Flows (runtime w))) worker ∅)
    as [[[err|] wk] details] eqn:Hc.
  - intros H. inversion H; subst. split; [|done].
    by eapply collectDetails_failure.
  - apply collectDetails_spec in Hc as [Hid Hall]; [|apply NoDup_fst_map_to_list].
    destruct (workerMode (runtime w)) eqn:Hmode; simpl; intros H; inversion H; subst;
      clear H; (split; [exact Hid|]).
    + destruct (saveFlowDetails_lookup details
                  (setRdb (Redis.SET (WorkerKeyInitial +:+ ":" +:+ ID worker')
                             (marshalWorker worker') (Redis.Second * RDBKeyTimeOut) (rdb w)) w))
        as [Hw Hf].
      split.
      * rewrite <- Hid. etrans; [apply (Hw (ID worker'))|].
        simpl. unfold Redis.SET. by rewrite lookup_insert_eq.
      * intros flow h Hin. apply elem_of_map_to_list in Hin.
        destruct (Hall _ _ Hin) as (dag & Hg & Hd). exists dag. split; [exact Hg|].
        by apply Hf.
    + destruct (saveFlowDetails_lookup details
                  (setRdb (snd (Redis.DEL (WorkerKeyInitial +:+ ":" +:+ ID worker') (rdb w))) w))
        as [Hw Hf].
      split.
      * rewrite <- Hid. etrans; [apply (Hw (ID worker'))|].
        simpl. rewrite DEL_delete. by rewrite lookup_delete_eq.
      * intros flow h Hin. apply elem_of_map_to_list in Hin.
        destruct (Hall _ _ Hin) as (dag & Hg & Hd). exists dag. split; [exact Hg|].
        by apply Hf.
Qed.
Lemma everyInterval_spec (id : string) (others : list (World Handler -> World Handler))
    (n : Z) (worker : Worker) (w : World Handler) :
  ID worker = id →
  let trace := everyInterval getFlowDefinition others n worker w in
  length trace = length others
  ∧ (∀ i reg, trace !! i = Some reg →
       at_second reg = (n + Z.of_nat i) * GoFlowRegisterInterval
       ∧ registered_details getFlowDefinition id reg)
  ∧ (∀ reg, trace !! 0%nat = Some reg →
       ∃ other, others !! 0%nat = Some other ∧ before reg = other w)
  ∧ (∀ i reg reg', trace !! i = Some reg → trace !! S i = Some reg' →
       ∃ other, others !! S i = Some other ∧ before reg' = other (after reg)).
Proof.
  revert n worker w. induction others as [|other others IH]; intros n worker w Hid trace.
  - split; [done|]. split; [|split]; intros; by destruct i || done.
  - unfold trace. simpl.
    destruct (registerDetails getFlowDefinition worker (other w)) as [[err worker'] w1] eqn:Hr.
    pose proof (registerDetails_spec _ _ _ _ _ Hr) as Hreg. rewrite Hid in Hreg.
    set (w2 := match err with
               | Some e => Printf (Line "failed to register details, %v" [argE e]) w1
               | None => w1
               end).
    assert (Hid' : ID worker' = id) by apply Hreg.
    destruct (IH (n + 1) worker' w2 Hid') as (Hlen & Hrest & Hfirst & Hnext).
    split; [simpl; by rewrite Hlen|]. split; [|split].
    + intros [|i] reg Hi; simpl in Hi.
      * inversion Hi; subst reg. simpl. split; [f_equal; lia|].
        unfold registered_details in *. simpl in *.
        destruct Hreg as [? Hreg]. split; [done|].
        unfold w2. by destruct err.
      * destruct (Hrest i reg Hi) as (Ht & Hd).
        split; [rewrite Ht; f_equal; lia | exact Hd].
    + intros reg Hi. simpl in Hi. inversion Hi; subst reg. by exists other.
    + intros [|i] reg reg' Hi Hi'; simpl in Hi, Hi'.
      * inversion Hi; subst reg. simpl. by apply Hfirst.
      * by eapply Hnext.
Qed.

(** C6.  [StartRuntime] runs [registerDetails] at once, on the world it
    is called in, and then once per interval of [GoFlowRegisterInterval]
    = 4 seconds, on the world the rest of the program has left; when the
    first run fails it returns the error and schedules nothing.  Every run
    whose exports succeed writes the worker's JSON under
    [goflow-worker:<id>] with an expiration of 10 seconds if the runtime is
    in worker mode and deletes that key if it is not, and in both cases
    writes the exported definition of every registered flow under
    [goflow-flow:<name>] with the same expiration. *)
Theorem StartRuntime_registers (id : string) (others : list (World Handler -> World Handler))
    (w : World Handler) :
  let returned := fst (StartRuntime getFlowDefinition id others w) in
  let trace := snd (StartRuntime getFlowDefinition id others w) in
  GoFlowRegisterInterval = 4
  ∧ Redis.Second * RDBKeyTimeOut = 10 * Redis.Second
  ∧ before <$> trace !! 0%nat = Some w
  ∧ match returned with
    | None => length trace = S (length others)
    | Some err => result <$> trace = [Some err]
    end
  ∧ (∀ i reg, trace !! i = Some reg →
       at_second reg = Z.of_nat i * 4
       ∧ registered_details getFlowDefinition id reg)
  ∧ (∀ i reg reg', trace !! i = Some reg → trace !! S i = Some reg' →
       ∃ other, others !! i = Some other ∧ before reg' = other (after reg)).
Proof.
  intros returned trace. unfold returned, trace, StartRuntime. clear returned trace.
  split; [reflexivity|]. split; [reflexivity|].
  destruct (registerDetails getFlowDefinition
              (mkWorker id [] (Concurrency (runtime w))) w) as [[err worker'] w1] eqn:Hr.
  pose proof (registerDetails_spec _ _ _ _ _ Hr) as Hreg. simpl in Hreg.
  destruct err as [err|]; simpl.
  - split; [done|]. split; [done|]. split.
    + intros [|i] reg Hi; simpl in Hi; [|by destruct i].
      inversion Hi; subst reg. simpl. split; [done|].
      unfold registered_details in *. simpl in *. by destruct Hreg.
    + intros [|i] reg reg' Hi Hi'; simpl in Hi'; by destruct i || done.
  - assert (Hid : ID worker' = id) by apply Hreg.
    destruct (everyInterval_spec id others 1 worker' w1 Hid) as (Hlen & Hrest & Hfirst & Hnext).
    split; [done|]. split; [by rewrite Hlen|]. split.
    + intros [|i] reg Hi; simpl in Hi.
      * inversion Hi; subst reg. simpl. split; [done | exact Hreg].
      * destruct (Hrest i reg Hi) as (Ht & Hd).
        split; [rewrite Ht; unfold GoFlowRegisterInterval; lia | exact Hd].
    + intros [|i] reg reg' Hi Hi'; simpl in Hi, Hi'.
      * inversion Hi; subst reg. simpl. by apply Hfirst.
      * by eapply Hnext.
Qed.
End Registry.

(** ** Opening the queues of the flows *)

Section Queues.
Context {Handler : Type}.
Implicit Types (w : World Handler) (objs : list Rmq.Queue) (tq : gmap string nat).

Lemma with_queues_same w objs :
  rmqConnection (runtime w) = Connection objs →
  w = with_queues w objs (taskQueues (runtime w)).
Proof. destruct w as [[] ? ? ? ?]. simpl. by intros ->. Qed.

Lemma OpenQueue_ok w objs tq (n : string) :
  quiet w →
  OpenQueue n (with_queues w objs tq)
  = (Ok (length objs), with_queues w (objs ++ [Rmq.mkQueue n None None []]) tq).
Proof.
  intros Hq. unfold OpenQueue, onConnection, Rmq.OpenQueue. simpl. by rewrite Hq.
Qed.

Lemma SetPushQueue_ok w objs tq (q p : nat) :
  SetPushQueue q p (with_queues w objs tq)
  = (Ok tt, with_queues w (Rmq.SetPushQueue q p objs) tq).
Proof. reflexivity. Qed.

Lemma StartConsuming_ok w objs tq (q : nat) (o : Rmq.Queue) :
  quiet w → objs !! q = Some o → Rmq.consuming o = None →
  StartConsuming q 10 Redis.Second (with_queues w objs tq)
  = (Ok tt, with_queues w (alter started q objs) tq).
Proof.
  intros Hq Ho Hc. unfold StartConsuming, onConnection, Rmq.StartConsuming. simpl.
  by rewrite Ho, Hc, Hq.
Qed.

Lemma AddConsumer_ok w objs tq (q : nat) (tag : string) (o : Rmq.Queue) :
  quiet w → objs !! q = Some o → is_Some (Rmq.consuming o) →
  AddConsumer q tag (with_queues w objs tq)
  = (Ok tt, with_queues w (alter (tagged tag) q objs) tq).
Proof.
  intros Hq Ho [c Hc]. unfold AddConsumer, onConnection, Rmq.AddConsumer. simpl.
  by rewrite Ho, Hc, Hq.
Qed.

Lemma wrap_ok {A} (f : error -> error) (c : M Handler A) w (a : A) w' :
  c w = (Ok a, w') → wrap f c w = (Ok a, w').
Proof. unfold wrap. by intros ->. Qed.

Lemma bind_ok {A B} (c : M Handler A) (k : A -> M Handler B) w (a : A) w' :
  c w = (Ok a, w') → bind c k w = k a w'.
Proof. unfold bind. by intros ->. Qed.
(** The first loop of [initializeFlow]: the retry queues are new objects,
    in a row after the objects at hand, each pushed to by the one before;
    the objects at hand other than [prevQ] are left alone. *)
Lemma openPushQueues_spec w tq (baseQId : string) (idxs : list Z) :
  quiet w →
  ∀ objs (prevQ : nat) (acc : list nat) (o : Rmq.Queue),
    objs !! prevQ = Some o →
    ∃ objs',
      openPushQueues baseQId idxs prevQ acc (with_queues w objs tq)
      = (Ok (acc ++ seq (length objs) (length idxs)), with_queues w objs' tq)
      ∧ length objs' = (length objs + length idxs)%nat
      ∧ (∀ q, (q < length objs)%nat → q ≠ prevQ → objs' !! q = objs !! q)
      ∧ objs' !! prevQ = Some (match idxs with [] => o | _ :: _ => pushing (length objs) o end)
      ∧ ∀ i idx, idxs !! i = Some idx →
          objs' !! (length objs + i)%nat
          = Some (Rmq.mkQueue (baseQId +:+ "-push-" +:+ fmt_d idx)
                    (if decide (S i < length idxs)%nat then Some (length objs + S i)%nat else None)
                    None []).
Proof.
  intros Hq. induction idxs as [|idx idxs IH]; intros objs prevQ acc o Ho.
  - exists objs. simpl. rewrite app_nil_r, Nat.add_0_r.
    split; [done|]. split; [done|]. split; [done|]. split; [done|]. intros i idx' H. done.
  - simpl.
    assert (HprevQ : (prevQ < length objs)%nat) by (by eapply lookup_lt_Some).
    set (new := Rmq.mkQueue (baseQId +:+ "-push-" +:+ fmt_d idx) None None []).
    set (objs2 := Rmq.SetPushQueue prevQ (length objs) (objs ++ [new])).
    assert (Hnew : objs2 !! length objs = Some new).
    { unfold objs2, Rmq.SetPushQueue. rewrite list_lookup_alter_ne by lia.
      rewrite lookup_app_r by lia. by rewrite Nat.sub_diag. }
    assert (Hlen2 : length objs2 = S (length objs)).
    { unfold objs2, Rmq.SetPushQueue. rewrite length_alter, length_app. simpl. lia. }
    destruct (IH objs2 (length objs) (acc ++ [length objs]) new Hnew)
      as (objs' & Hrun & Hlen & Hold & Hprev & Hnews).
    exists objs'. split; [|split; [|split; [|split]]].
    + rewrite (bind_ok _ _ _ _ _ (wrap_ok _ _ _ _ _ (OpenQueue_ok w objs tq _ Hq))).
      rewrite (bind_ok _ _ _ _ _ (SetPushQueue_ok w _ tq prevQ (length objs))).
      fold new. fold objs2. rewrite Hrun. f_equal. f_equal.
      rewrite Hlen2, <- List.app_assoc. reflexivity.
    + rewrite Hlen, Hlen2. simpl. lia.
    + intros q Hlt Hne. rewrite Hold by (rewrite ?Hlen2; lia).
      unfold objs2, Rmq.SetPushQueue. rewrite list_lookup_alter_ne by done.
      by rewrite lookup_app_l.
    + rewrite Hold by (rewrite ?Hlen2; lia).
      unfold objs2, Rmq.SetPushQueue. rewrite list_lookup_alter_eq.
      rewrite lookup_app_l by done. by rewrite Ho.
    + intros [|i] idx' Hi; simpl in Hi.
      * inversion Hi; subst idx'. rewrite Nat.add_0_r, Hprev.
        destruct idxs as [|idx2 idxs]; cbn [length]; case_decide; try lia.
        -- reflexivity.
        -- unfold pushing, new. cbn [Rmq.name Rmq.consuming Rmq.consumers].
           rewrite Hlen2. do 3 f_equal. lia.
      * specialize (Hnews i idx' Hi). rewrite Hlen2 in Hnews.
        replace (length objs + S i)%nat with (S (length objs) + i)%nat by lia.
        rewrite Hnews. f_equal. f_equal. cbn [length].
        repeat case_decide; try lia; [f_equal; lia | reflexivity].
Qed.
(** [for idx := 0; idx < n; idx++ { ... pushQueues[idx] ... }] over the
    slice of the handles [m], [m+1], ..., [m+n-1]. *)
Lemma forM_index (f : Z -> nat -> M Handler unit) (m n : nat) w :
  ∀ k d, (k + d = n)%nat →
    forM_ (seqZ (Z.of_nat k) (Z.of_nat d))
          (fun idx => bind (index (seq m n) idx) (fun q => f idx q)) w
    = forM_ (seq k d) (fun i => f (Z.of_nat i) (m + i)%nat) w.
Proof.
  intros k d. revert k w. induction d as [|d IH]; intros k w Hk; [reflexivity|].
  rewrite seqZ_cons by lia. simpl.
  unfold bind at 1. unfold bind at 1. unfold index at 1.
  rewrite Nat2Z.id, lookup_seq_lt by lia. unfold ret.
  unfold bind at 2.
  destruct (f (Z.of_nat k) (m + k)%nat w) as [[[]| |] w1]; try reflexivity.
  replace (Z.succ (Z.of_nat k)) with (Z.of_nat (S k)) by lia.
  replace (Z.pred (Z.of_nat (S d))) with (Z.of_nat d) by lia.
  apply IH. lia.
Qed.

(** A loop whose every step alters one queue object. *)
Lemma forM_alter {A} (l : list A) (h : A -> nat) (g : A -> Rmq.Queue -> Rmq.Queue)
    (op : A -> M Handler unit) (P : Rmq.Queue -> Prop) w tq :
  (∀ a objs o, objs !! h a = Some o → P o →
     op a (with_queues w objs tq) = (Ok tt, with_queues w (alter (g a) (h a) objs) tq)) →
  (∀ l1 a l2 a' o, l = l1 ++ a :: l2 → a' ∈ l2 → h a = h a' → P o → P (g a o)) →
  ∀ objs, (∀ a, a ∈ l → ∃ o, objs !! h a = Some o ∧ P o) →
    forM_ l op (with_queues w objs tq)
    = (Ok tt, with_queues w (foldl (fun objs a => alter (g a) (h a) objs) objs l) tq).
Proof.
  intros Hop. induction l as [|a l IH]; intros Hstable objs Hpre; [reflexivity|].
  simpl. destruct (Hpre a) as (o & Ho & HP); [by left|].
  rewrite (bind_ok _ _ _ _ _ (Hop a objs o Ho HP)).
  apply IH.
  - intros l1 a1 l2 a2 o' Hl. apply (Hstable (a :: l1)). by rewrite Hl.
  - intros a' Ha'. destruct (Hpre a') as (o' & Ho' & HP'); [by right|].
    destruct (decide (h a = h a')) as [Heq|Hne].
    + exists (g a o'). rewrite <- Heq, list_lookup_alter_eq.
      rewrite Heq, Ho'. split; [done|]. by eapply (Hstable [] a l a').
    + exists o'. by rewrite list_lookup_alter_ne.
Qed.

Lemma foldl_alter_length {A} (l : list A) (h : A -> nat) (g : A -> Rmq.Queue -> Rmq.Queue) objs :
  length (foldl (fun objs a => alter (g a) (h a) objs) objs l) = length objs.
Proof.
  revert objs. induction l as [|a l IH]; intros objs; [done|].
  simpl. by rewrite IH, length_alter.
Qed.

Lemma foldl_alter_other {A} (l : list A) (h : A -> nat) (g : A -> Rmq.Queue -> Rmq.Queue)
    objs (q : nat) :
  (∀ a, a ∈ l → h a ≠ q) →
  foldl (fun objs a => alter (g a) (h a) objs) objs l !! q = objs !! q.
Proof.
  revert objs. induction l as [|a l IH]; intros objs Hq; [done|].
  simpl. rewrite IH by (intros a' Ha'; apply Hq; by right).
  apply list_lookup_alter_ne. apply Hq. by left.
Qed.

Lemma foldl_alter_once {A} (l : list A) (h : A -> nat) (g : A -> Rmq.Queue -> Rmq.Queue)
    objs (a : A) :
  NoDup (map h l) → a ∈ l →
  foldl (fun objs a => alter (g a) (h a) objs) objs l !! h a = g a <$> objs !! h a.
Proof.
  revert objs. induction l as [|a0 l IH]; intros objs Hnd Hin; [by apply elem_of_nil in Hin|].
  simpl in *. apply NoDup_cons in Hnd as [Hnotin Hnd].
  apply elem_of_cons in Hin as [->|Hin].
  - rewrite foldl_alter_other.
    + apply list_lookup_alter_eq.
    + intros a' Ha' Heq. apply Hnotin. rewrite <- Heq. apply list_elem_of_fmap. by exists a'.
  - rewrite IH by done. f_equal. apply list_lookup_alter_ne.
    intros Heq. apply Hnotin. rewrite Heq. apply list_elem_of_fmap. by exists a.
Qed.

Lemma foldl_alter_tags (idxs : list Z) (q : nat) objs (o : Rmq.Queue) :
  objs !! q = Some o →
  foldl (fun objs idx => alter (tagged (consumer_tag idx)) q objs) objs idxs !! q
  = Some (Rmq.mkQueue (Rmq.name o) (Rmq.pushQueue o) (Rmq.consuming o)
            (Rmq.consumers o ++ map consumer_tag idxs)).
Proof.
  revert objs o. induction idxs as [|idx idxs IH]; intros objs o Ho.
  - simpl. rewrite app_nil_r, Ho. by destruct o.
  - simpl. erewrite IH; [|by rewrite list_lookup_alter_eq, Ho].
    simpl. by rewrite <- List.app_assoc.
Qed.
End Queues.
Section Queues2.
Context {Handler : Type}.
Implicit Types (w : World Handler) (objs : list Rmq.Queue) (tq : gmap string nat).

Lemma seq_split_distinct (n : nat) (l1 l2 : list nat) (a a' : nat) :
  seq 0 n = l1 ++ a :: l2 → a' ∈ l2 → a ≠ a'.
Proof.
  intros Hl Ha' ->. pose proof (NoDup_seq 0 n) as Hnd. rewrite Hl in Hnd.
  apply NoDup_app in Hnd as (_ & _ & Hnd). apply NoDup_cons in Hnd as [Hn _]. done.
Qed.

(** What [initializeFlow] does for one flow when the broker refuses
    nothing: its objects are new, after the objects at hand, which are
    left alone; [taskQueues] gets the handle of the primary queue. *)
Lemma initializeFlow_spec w objs tq (flowName : string) :
  quiet w → 0 <= RetryQueueCount (runtime w) →
  ∃ objs',
    initializeFlow flowName (with_queues w objs tq)
    = (Ok tt, with_queues w objs' (<[flowName := length objs]> tq))
    ∧ length objs' = (length objs + 1 + Z.to_nat (RetryQueueCount (runtime w)))%nat
    ∧ (∀ q, (q < length objs)%nat → objs' !! q = objs !! q)
    ∧ objs' !! length objs
      = Some (primary_queue flowName (length objs) (RetryQueueCount (runtime w))
                (Concurrency (runtime w)))
    ∧ ∀ i, (i < Z.to_nat (RetryQueueCount (runtime w)))%nat →
        objs' !! S (length objs + i)
        = Some (retry_queue flowName (length objs) (RetryQueueCount (runtime w)) i).
Proof.
  intros Hq HN.
  set (L := length objs). set (N := RetryQueueCount (runtime w)) in *.
  set (C := Concurrency (runtime w)).
  set (n := Z.to_nat N).
  assert (HNn : N = Z.of_nat n) by (unfold n; lia).
  set (base := internalRequestQueueId flowName).
  set (P0 := Rmq.mkQueue base None None []).
  set (objs1 := objs ++ [P0]).
  assert (Hlen1 : length objs1 = S L) by (unfold objs1; rewrite length_app; simpl; lia).
  assert (HP0 : objs1 !! L = Some P0).
  { unfold objs1. rewrite lookup_app_r by (unfold L; lia). by rewrite Nat.sub_diag. }
  destruct (openPushQueues_spec w tq base (upto N) Hq objs1 L [] P0 HP0)
    as (objsB & HrunB & HlenB & HoldB & HprevB & HnewB).
  rewrite Hlen1 in *. unfold upto in HrunB, HlenB, HnewB, HprevB.
  rewrite length_seqZ in HrunB, HlenB. fold n in HrunB, HlenB. simpl in HrunB.
  set (PB := match seqZ 0 N with [] => P0 | _ :: _ => pushing (S L) P0 end) in *.
  assert (HPBc : Rmq.consuming PB = None) by (unfold PB; by destruct (seqZ 0 N)).
  set (objsC := alter started L objsB).
  set (tq' := <[flowName := L]> tq).
  (* the retry queues start consuming *)
  set (objsE := foldl (fun objs (i : nat) => alter started (S L + i)%nat objs) objsC (seq 0 n)).
  assert (HrunE : forM_ (seq 0 n) (fun i =>
                    wrap (fun e => Errorf "failed to start consumer pushQ1, error %v" [argE e])
                      (StartConsuming (S L + i) 10 Redis.Second)) (with_queues w objsC tq')
                  = (Ok tt, with_queues w objsE tq')).
  { apply (forM_alter (seq 0 n) (fun i => (S L + i)%nat) (fun _ => started) _
             (fun o => Rmq.consuming o = None)).
    - intros i objs0 o Ho Hc. apply wrap_ok. by eapply StartConsuming_ok.
    - intros l1 a l2 a' o Hl Ha' Heq. exfalso.
      apply (seq_split_distinct n l1 l2 a a' Hl Ha'). lia.
    - intros i Hi. apply elem_of_seq in Hi.
      eexists. unfold objsC. rewrite list_lookup_alter_ne by lia.
      rewrite (HnewB i (Z.of_nat i)); [done|].
      apply lookup_seqZ. lia. }
  (* the consumers of the primary queue *)
  set (objsF := foldl (fun objs idx => alter (tagged (consumer_tag idx)) L objs) objsE (upto C)).
  assert (HEL : objsE !! L = Some (started PB)).
  { unfold objsE. rewrite foldl_alter_other by (intros; lia).
    unfold objsC. by rewrite list_lookup_alter_eq, HprevB. }
  assert (HrunF : forM_ (upto C) (fun idx =>
                    wrap (fun e => Errorf "failed to add consumer, error %v" [argE e])
                      (AddConsumer L (consumer_tag idx))) (with_queues w objsE tq')
                  = (Ok tt, with_queues w objsF tq')).
  { apply (forM_alter (upto C) (fun _ => L) (fun idx => tagged (consumer_tag idx)) _
             (fun o => is_Some (Rmq.consuming o))).
    - intros idx objs0 o Ho Hc. apply wrap_ok. by eapply AddConsumer_ok.
    - intros; done.
    - intros idx _. exists (started PB). split; [exact HEL | by eexists]. }
  (* the consumer of each retry queue *)
  set (objsG := foldl (fun objs (i : nat) =>
                         alter (tagged (consumer_tag (Z.of_nat i))) (S L + i)%nat objs)
                      objsF (seq 0 n)).
  assert (HFi : ∀ i, (i < n)%nat → objsF !! (S L + i)%nat = objsE !! (S L + i)%nat).
  { intros i Hi. unfold objsF. apply foldl_alter_other. intros; lia. }
  assert (HEi : ∀ i, (i < n)%nat →
            objsE !! (S L + i)%nat
            = Some (started (Rmq.mkQueue (base +:+ "-push-" +:+ fmt_d (Z.of_nat i))
                               (if decide (S i < n)%nat then Some (S L + S i)%nat else None)
                               None []))).
  { intros i Hi. unfold objsE.
    rewrite (foldl_alter_once (seq 0 n) (fun i => (S L + i)%nat) (fun _ => started) objsC i).
    - unfold objsC. rewrite list_lookup_alter_ne by lia.
      rewrite (HnewB i (Z.of_nat i)); [|apply lookup_seqZ; lia].
      rewrite length_seqZ. fold n. reflexivity.
    - apply NoDup_fmap_2; [intros ? ? ?; lia | apply NoDup_seq].
    - apply elem_of_seq. lia. }
  assert (HrunG : forM_ (seq 0 n) (fun i =>
                    wrap (fun e => Errorf "failed to add consumer, error %v" [argE e])
                      (AddConsumer (S L + i) (consumer_tag (Z.of_nat i))))
                    (with_queues w objsF tq')
                  = (Ok tt, with_queues w objsG tq')).
  { apply (forM_alter (seq 0 n) (fun i => (S L + i)%nat)
             (fun i => tagged (consumer_tag (Z.of_nat i))) _
             (fun o => is_Some (Rmq.consuming o))).
    - intros i objs0 o Ho Hc. apply wrap_ok. by eapply AddConsumer_ok.
    - intros; done.
    - intros i Hi. apply elem_of_seq in Hi.
      eexists. rewrite HFi, HEi by lia. split; [done | by eexists]. }
  exists objsG. split; [|split; [|split; [|split]]].
  - unfold initializeFlow.
    rewrite (bind_ok getRuntime _ _ _ _ eq_refl).
    cbn [runtime with_queues RetryQueueCount Concurrency]. fold N C base.
    rewrite (bind_ok _ _ _ _ _ (wrap_ok _ _ _ _ _ (OpenQueue_ok w objs tq base Hq))).
    fold P0 objs1 L.
    destruct (Z.ltb_spec N 0) as [|_]; [lia|].
    rewrite (bind_ok (ret tt) _ _ _ _ eq_refl).
    unfold upto at 1. rewrite (bind_ok _ _ _ _ _ HrunB).
    rewrite (bind_ok _ _ _ _ _ (wrap_ok _ _ _ _ _
               (StartConsuming_ok w objsB tq L PB Hq HprevB HPBc))).
    fold objsC.
    rewrite (bind_ok (modifyRuntime _) _ (with_queues w objsC tq) tt (with_queues w objsC tq') eq_refl).
    assert (HrunE' :
      forM_ (upto N) (fun idx =>
        bind (index (seq (S L) n) idx) (fun q =>
          wrap (fun e => Errorf "failed to start consumer pushQ1, error %v" [argE e])
            (StartConsuming q 10 Redis.Second))) (with_queues w objsC tq')
      = (Ok tt, with_queues w objsE tq')).
    { unfold upto. rewrite HNn. etrans; [|exact HrunE].
      apply (forM_index (fun _ q =>
               wrap (fun e => Errorf "failed to start consumer pushQ1, error %v" [argE e])
                 (StartConsuming q 10 Redis.Second)) (S L) n _ 0%nat n eq_refl). }
    assert (HrunG' :
      forM_ (upto N) (fun idx =>
        bind (index (seq (S L) n) idx) (fun q =>
          wrap (fun e => Errorf "failed to add consumer, error %v" [argE e])
            (AddConsumer q ("request-consumer-" +:+ fmt_d idx)))) (with_queues w objsF tq')
      = (Ok tt, with_queues w objsG tq')).
    { unfold upto. rewrite HNn. etrans; [|exact HrunG].
      apply (forM_index (fun idx q =>
               wrap (fun e => Errorf "failed to add consumer, error %v" [argE e])
                 (AddConsumer q ("request-consumer-" +:+ fmt_d idx))) (S L) n _ 0%nat n eq_refl). }
    rewrite (bind_ok _ _ _ _ _ HrunE').
    rewrite (bind_ok _ _ _ _ _ HrunF).
    exact HrunG'.
  - unfold objsG, objsF, objsE, objsC.
    rewrite !foldl_alter_length, length_alter, HlenB. lia.
  - intros q Hlt. unfold objsG, objsF, objsE, objsC.
    rewrite !foldl_alter_other by (intros; lia).
    rewrite list_lookup_alter_ne by lia.
    rewrite HoldB by lia. unfold objs1. by rewrite lookup_app_l.
  - unfold objsG. rewrite foldl_alter_other by (intros; lia).
    unfold objsF. rewrite (foldl_alter_tags _ _ _ _ HEL).
    unfold primary_queue, started, PB. f_equal.
    destruct (Z.ltb_spec 0 N) as [Hpos|Hzero].
    + rewrite seqZ_cons by lia. reflexivity.
    + rewrite seqZ_nil by lia. reflexivity.
  - intros i Hi. unfold objsG.
    replace (S (L + i)) with (S L + i)%nat by lia.
    rewrite (foldl_alter_once (seq 0 n) (fun i => (S L + i)%nat)
               (fun i => tagged (consumer_tag (Z.of_nat i))) objsF i).
    + rewrite HFi, HEi by lia. unfold retry_queue, push_name, started, tagged. simpl.
      f_equal. f_equal.
      destruct (Z.ltb_spec (Z.of_nat (S i)) N); case_decide; try lia; [f_equal; lia | done].
    + apply NoDup_fmap_2; [intros ? ? ?; lia | apply NoDup_seq].
    + apply elem_of_seq. lia.
Qed.
End Queues2.
Section Queues3.
Context {Handler : Type}.
Implicit Types (w : World Handler) (objs : list Rmq.Queue) (tq : gmap string nat).

Lemma initializeFlows_spec w (flows : list string) :
  quiet w → 0 <= RetryQueueCount (runtime w) → NoDup flows →
  ∀ objs tq,
  ∃ objs' tq',
    forM_ flows initializeFlow (with_queues w objs tq) = (Ok tt, with_queues w objs' tq')
    ∧ (length objs <= length objs')%nat
    ∧ (∀ q, (q < length objs)%nat → objs' !! q = objs !! q)
    ∧ (∀ flowName, flowName ∉ flows → tq' !! flowName = tq !! flowName)
    ∧ ∀ flowName, flowName ∈ flows →
        ∃ q, tq' !! flowName = Some q
             ∧ objs' !! q = Some (primary_queue flowName q (RetryQueueCount (runtime w))
                                    (Concurrency (runtime w)))
             ∧ ∀ i, (i < Z.to_nat (RetryQueueCount (runtime w)))%nat →
                 objs' !! S (q + i)
                 = Some (retry_queue flowName q (RetryQueueCount (runtime w)) i).
Proof.
  intros Hq HN. induction flows as [|flowName flows IH]; intros Hnd objs tq.
  - exists objs, tq. split; [done|]. split; [done|]. split; [done|]. split; [done|].
    intros f Hf. by apply elem_of_nil in Hf.
  - apply NoDup_cons in Hnd as [Hnotin Hnd].
    destruct (initializeFlow_spec w objs tq flowName Hq HN)
      as (objs1 & Hrun1 & Hlen1 & Hold1 & Hprim1 & Hretry1).
    destruct (IH Hnd objs1 (<[flowName := length objs]> tq))
      as (objs' & tq' & Hrun & Hlen & Hold & Htq & Hflows).
    exists objs', tq'. split; [|split; [|split; [|split]]].
    + simpl. by rewrite (bind_ok _ _ _ _ _ Hrun1).
    + lia.
    + intros q Hlt. rewrite Hold by lia. by apply Hold1.
    + intros f Hf. rewrite Htq.
      * apply lookup_insert_ne. intros ->. apply Hf. by left.
      * intros Hin. apply Hf. by right.
    + intros f Hf. apply elem_of_cons in Hf as [->|Hf]; [|by apply Hflows].
      exists (length objs). split; [|split].
      * rewrite Htq by done. apply lookup_insert_eq.
      * rewrite Hold by lia. exact Hprim1.
      * intros i Hi. rewrite Hold by lia. by apply Hretry1.
Qed.

(** C3, as the code has it.  When the broker refuses no call and
    [RetryQueueCount] is not negative, [initializeTaskQueues] returns nil
    and every registered flow F has, on the connection, a primary queue
    named [goflow-internal-request:F], whose handle is recorded in
    [taskQueues], and [RetryQueueCount] retry queues named
    [goflow-internal-request:F-push-0] to [-push-{N-1}]; the primary queue
    pushes to push-0, push-i to push-(i+1), the last one to none; each of
    these queues consumes with prefetch limit 10 and poll duration one
    second; the primary queue has the [Concurrency] consumers
    [request-consumer-0] to [request-consumer-{C-1}], and the retry queue
    push-i has the single consumer [request-consumer-i]. *)
Theorem initializeTaskQueues_opens_chain w objs :
  rmqConnection (runtime w) = Connection objs →
  quiet w →
  0 <= RetryQueueCount (runtime w) →
  ∃ objs' tq',
    initializeTaskQueues w = (Ok tt, with_queues w objs' tq')
    ∧ ∀ flowName, is_Some (Flows (runtime w) !! flowName) →
        ∃ q, tq' !! flowName = Some q
             ∧ objs' !! q = Some (primary_queue flowName q (RetryQueueCount (runtime w))
                                    (Concurrency (runtime w)))
             ∧ ∀ i, (i < Z.to_nat (RetryQueueCount (runtime w)))%nat →
                 objs' !! S (q + i)
                 = Some (retry_queue flowName q (RetryQueueCount (runtime w)) i).
Proof.
  intros Hconn Hq HN.
  destruct (initializeFlows_spec w (map fst (map_to_list (Flows (runtime w)))) Hq HN
              (NoDup_fst_map_to_list _) objs (taskQueues (runtime w)))
    as (objs' & tq' & Hrun & _ & _ & _ & Hflows).
  exists objs', tq'. split.
  - unfold initializeTaskQueues.
    rewrite (bind_ok getRuntime _ _ _ _ eq_refl).
    rewrite (with_queues_same w objs Hconn) at 2. exact Hrun.
  - intros flowName [h Hh]. apply Hflows.
    apply list_elem_of_fmap. exists (flowName, h). split; [done|].
    by apply elem_of_map_to_list.
Qed.
End Queues3.

(** C3 as stated fails: with [Concurrency] 3 and one retry queue, the retry
    queue of the flow "orders" is left with one consumer, not three. *)
Lemma retry_queue_has_one_consumer :
  let w : World unit :=
    mkWorld (mkRuntime (<["orders" := tt]> ∅) 3 1 true ∅ (Connection []))
            (Rmq.mkBroker ∅ (fun _ => None)) ∅ [] [] in
  fst (initializeTaskQueues w) = Ok tt
  ∧ ∃ o, queues (rmqConnection (runtime (snd (initializeTaskQueues w)))) ≫= (fun objs => objs !! 1%nat)
         = Some o
         ∧ Rmq.name o = "goflow-internal-request:orders-push-0"%string
         ∧ Rmq.consumers o = ["request-consumer-0"%string]
         ∧ Z.of_nat (length (Rmq.consumers o)) ≠ Concurrency (runtime w).
Proof.
  intros w. split; [vm_compute; reflexivity|].
  exists (Rmq.mkQueue "goflow-internal-request:orders-push-0" None
            (Some (10, 1000000000)) ["request-consumer-0"%string]).
  split; [vm_compute; reflexivity|]. split; [reflexivity|]. split; [reflexivity|].
  simpl. lia.
Qed.

Lemma initializeTaskQueues_opens_chain_witness :
  let w : World unit :=
    mkWorld (mkRuntime (<["orders" := tt]> ∅) 3 2 true ∅ (Connection []))
            (Rmq.mkBroker ∅ (fun _ => None)) ∅ [] [] in
  rmqConnection (runtime w) = Connection []
  ∧ quiet w
  ∧ 0 <= RetryQueueCount (runtime w)
  ∧ ∃ objs' tq',
      initializeTaskQueues w = (Ok tt, with_queues w objs' tq')
      ∧ ∀ flowName, is_Some (Flows (runtime w) !! flowName) →
          ∃ q, tq' !! flowName = Some q
               ∧ objs' !! q = Some (primary_queue flowName q 2 3)
               ∧ ∀ i, (i < 2)%nat → objs' !! S (q + i) = Some (retry_queue flowName q 2 i).
Proof.
  intros w.
  assert (H1 : rmqConnection (runtime w) = Connection []) by reflexivity.
  assert (H2 : quiet w) by (intros c; reflexivity).
  assert (H3 : 0 <= RetryQueueCount (runtime w)) by (simpl; lia).
  split; [exact H1|]. split; [exact H2|]. split; [exact H3|].
  exact (initializeTaskQueues_opens_chain w [] H1 H2 H3).
Defined.

Section Enqueueing2.
Context {Handler : Type}.

(** Once [initializeTaskQueues] has run, a partial request of a registered
    flow finds its queue. *)
Lemma initializeTaskQueues_establishes (pr : Request) (w : World Handler)
    (objs : list Rmq.Queue) :
  rmqConnection (runtime w) = Connection objs →
  quiet w →
  0 <= RetryQueueCount (runtime w) →
  is_Some (Flows (runtime w) !! req_FlowName pr) →
  ∃ w', initializeTaskQueues w = (Ok tt, w')
        ∧ fst (EnqueuePartialRequest pr w') = Ok tt
        ∧ Rmq.ready (broker (snd (EnqueuePartialRequest pr w')))
            !! internalRequestQueueId (req_FlowName pr)
          = Some (default [] (Rmq.ready (broker w) !! internalRequestQueueId (req_FlowName pr))
                  ++ [Json.Marshal (partial_task pr)]).
Proof.
  intros Hconn Hq HN Hflow.
  destruct (initializeFlows_spec w (map fst (map_to_list (Flows (runtime w)))) Hq HN
              (NoDup_fst_map_to_list _) objs (taskQueues (runtime w)))
    as (objs' & tq' & Hrun & _ & _ & _ & Hflows).
  destruct Hflow as [h Hh].
  destruct (Hflows (req_FlowName pr)) as (q & Htq & Hprim & _).
  { apply list_elem_of_fmap. exists (req_FlowName pr, h). split; [done|].
    by apply elem_of_map_to_list. }
  exists (with_queues w objs' tq'). split.
  { unfold initializeTaskQueues.
    rewrite (bind_ok getRuntime _ _ _ _ eq_refl).
    rewrite (with_queues_same w objs Hconn) at 2. exact Hrun. }
  pose proof (EnqueuePartialRequest_cases pr (with_queues w objs' tq')) as Hc.
  cbn [with_queues runtime taskQueues rmqConnection broker] in Hc.
  rewrite Htq in Hc. simpl in Hc. rewrite Hprim in Hc. rewrite Hq in Hc.
  rewrite Hc. split; [reflexivity|]. simpl.
  by rewrite lookup_insert_eq.
Qed.

(** C10.  With a queue object for the flow of the request in [taskQueues],
    [EnqueuePartialRequest] does not panic: it publishes one message, the
    PARTIAL task of the request, to the queue of that object, and returns
    an error exactly when the broker refuses the publication (nothing is
    enqueued then).  Without such an entry the call panics on the nil
    queue instead of returning an error.  The entry is there, for a
    registered flow, once [initializeTaskQueues] has run without error. *)
Theorem EnqueuePartialRequest_needs_queue (pr : Request) (w : World Handler) :
  let data := Json.Marshal (partial_task pr) in
  match taskQueues (runtime w) !! req_FlowName pr
        ≫= (fun q => queues (rmqConnection (runtime w)) ≫= (fun objs => objs !! q)) with
  | Some o =>
    match Rmq.refuses (broker w) (Rmq.CPublish (Rmq.name o) data) with
    | Some e =>
      EnqueuePartialRequest pr w
      = (Fail (Errorf "failed to publish task, error %v" [argE e]), w)
    | None =>
      fst (EnqueuePartialRequest pr w) = Ok tt
      ∧ runtime (snd (EnqueuePartialRequest pr w)) = runtime w
      ∧ Rmq.ready (broker (snd (EnqueuePartialRequest pr w)))
        = <[Rmq.name o := default [] (Rmq.ready (broker w) !! Rmq.name o) ++ [data]]>
            (Rmq.ready (broker w))
    end
  | None => EnqueuePartialRequest pr w = (Panic nil_dereference, w)
  end
  ∧ (is_Some (queues (rmqConnection (runtime w))) → quiet w → 0 <= RetryQueueCount (runtime w) →
     is_Some (Flows (runtime w) !! req_FlowName pr) →
     ∃ w', initializeTaskQueues w = (Ok tt, w')
           ∧ fst (EnqueuePartialRequest pr w') = Ok tt).
Proof.
  intros data. split.
  - pose proof (EnqueuePartialRequest_cases pr w) as Hc. simpl in Hc. fold data in Hc.
    destruct (taskQueues (runtime w) !! req_FlowName pr
              ≫= (fun q => queues (rmqConnection (runtime w))
                           ≫= (fun objs => objs !! q))) as [o|];
      [|exact Hc].
    destruct (Rmq.refuses (broker w) (Rmq.CPublish (Rmq.name o) data)); [exact Hc|].
    rewrite Hc. done.
  - intros [objs Hconn%queues_Some] Hq HN Hflow.
    destruct (initializeTaskQueues_establishes pr w objs Hconn Hq HN Hflow)
      as (w' & Hrun & Hok & _).
    by exists w'.
Qed.
End Enqueueing2.

(* ===================================================================== *)
(** * Further properties of the stores                                     *)
(* ===================================================================== *)

Section StoreUse.
Import Redis.
Implicit Types db : gmap string (entry string).

(** The decimal that INCRBY writes is read back as the same integer. *)
Lemma parse_int64_fmt_d (n : Z) :
  int64_min <= n <= int64_max → parse_int64 (fmt_d n) = Some n.
Proof.
  intros Hn. unfold parse_int64, fmt_d.
  rewrite NilZero.isi.
  - rewrite DecimalZ.of_to, String.eqb_refl. simpl.
    destruct (Z.leb_spec int64_min n), (Z.leb_spec n int64_max); simpl; try lia.
    reflexivity.
  - destruct n; simpl; try discriminate.
    intros [=H]. by apply Unsigned.to_uint_nonnil in H.
  - destruct n; simpl; try discriminate.
    intros [=H]. by apply Unsigned.to_uint_nonnil in H.
Qed.

Lemma Get_lookup (this : RedisStateStore.t) (k v : string) (exp : Z) db :
  db !! (RedisStateStore.KeyPath this +:+ "." +:+ k) = Some (Entry v exp) →
  RedisStateStore.Get this k db = (v, None).
Proof. intros H. unfold RedisStateStore.Get, GET. now rewrite H. Qed.

(** What [Incr] does, case by case. *)
Lemma Incr_equation (this : RedisStateStore.t) (k : string) (delta : Z) db :
  let path := RedisStateStore.KeyPath this +:+ "." +:+ k in
  RedisStateStore.Incr this k delta db =
    match match db !! path with
          | Some e => (parse_int64 (value e), expiration e)
          | None => (Some 0, 0)
          end with
    | (None, _) => ((0, Some (errText "ERR value is not an integer or out of range")), db)
    | (Some n, exp) =>
      if ((int64_min <=? n + delta) && (n + delta <=? int64_max))%bool
      then ((n + delta, None), <[path := Entry (fmt_d (n + delta)) exp]> db)
      else ((0, Some (errText "ERR increment or decrement would overflow")), db)
    end.
Proof.
  intros path. unfold RedisStateStore.Incr, INCRBY. fold path.
  destruct (match db !! path with Some e => _ | None => _ end) as [[n|] exp]; [|reflexivity].
  now destruct ((int64_min <=? n + delta) && (n + delta <=? int64_max))%bool.
Qed.

End StoreUse.

(** X1.  What [Set] writes is what [Get] reads, through the store or through
    a copy of it made by [CopyStore]; a second [Set] of the key replaces the
    first; and an [Update] whose old value is the value set goes through and
    leaves the new value to be read. *)
Theorem Set_then_Get (this : RedisStateStore.t) (k v v' : string)
    (db : gmap string (Redis.entry string)) :
  let db1 := snd (RedisStateStore.Set_ this k v db) in
  RedisStateStore.Get this k db1 = (v, None)
  ∧ RedisStateStore.Get (fst (RedisStateStore.CopyStore this)) k db1 = (v, None)
  ∧ snd (RedisStateStore.Set_ this k v' db1) = snd (RedisStateStore.Set_ this k v' db)
  ∧ ∃ db2, RedisStateStore.Update this k v v' db1 = (None, db2)
           ∧ RedisStateStore.Get this k db2 = (v', None).
Proof.
  intros db1. unfold db1, RedisStateStore.Set_, Redis.SET. simpl.
  split; [|split; [|split]].
  - eapply Get_lookup. apply lookup_insert_eq.
  - eapply Get_lookup. simpl. apply lookup_insert_eq.
  - apply insert_insert_eq.
  - rewrite Update_equation. simpl. rewrite lookup_insert_eq. simpl.
    rewrite String.eqb_refl. eexists. split; [reflexivity|].
    eapply Get_lookup. apply lookup_insert_eq.
Qed.

(** X2.  In a data store that has its client, the bytes given to [Set] are
    the bytes [Get] returns; after [Del] of the key [Get] fails with the
    "error reading" error; and [Del] of a key that is not there returns nil
    and changes nothing. *)
Theorem data_Set_Get_Del (this : RedisDataStore.t) (k : string) (v : list Byte.byte)
    (db : gmap string (Redis.entry string)) :
  is_Some (RedisDataStore.redisClient this) →
  let path := RedisDataStore.getPath (RedisDataStore.bucketName this) k in
  let db1 := snd (RedisDataStore.Set_ this k v db) in
  let db2 := snd (RedisDataStore.Del this k db1) in
  RedisDataStore.Get this k db1 = (v, None)
  ∧ fst (RedisDataStore.Del this k db1) = None
  ∧ RedisDataStore.Get this k db2
    = ([], Some (Errorf "error reading: %s, error: %s"
                   [argS path; argE (errText "redis: nil")]))
  ∧ (∀ k', k' ≠ path → db2 !! k' = db !! k')
  ∧ RedisDataStore.Del this k db2 = (None, db2).
Proof.
  intros [c Hc] path db1 db2.
  unfold db2, db1, RedisDataStore.Set_, RedisDataStore.Del, RedisDataStore.Get.
  rewrite Hc. simpl. fold path. rewrite !DEL_delete.
  unfold Redis.SET, Redis.GET.
  split; [|split; [|split; [|split]]].
  - rewrite lookup_insert_eq. simpl. unfold bytes_of_string, string_of_bytes.
    now rewrite list_byte_of_string_of_list_byte.
  - reflexivity.
  - now rewrite lookup_delete_eq.
  - intros k' Hk. now rewrite lookup_delete_ne, lookup_insert_ne.
  - f_equal. rewrite (delete_id (delete path _)); [done | apply lookup_delete_eq].
Qed.

Lemma data_Set_Get_Del_witness :
  let this := RedisDataStore.Configure "orders" "r1" (RedisDataStore.mk "" (Some tt)) in
  is_Some (RedisDataStore.redisClient this)
  ∧ RedisDataStore.Get this "out"
      (snd (RedisDataStore.Set_ this "out" [Byte.xff; Byte.x00; Byte.x7b] ∅))
    = ([Byte.xff; Byte.x00; Byte.x7b], None).
Proof.
  intros this.
  assert (H : is_Some (RedisDataStore.redisClient this)) by (simpl; eauto).
  split; [exact H|].
  exact (proj1 (data_Set_Get_Del this "out" [Byte.xff; Byte.x00; Byte.x7b] ∅ H)).
Defined.

(** X3.  [Update] admits one caller per old value: once [Update k old new]
    has gone through with [new] other than [old], any further [Update] from
    [old] is turned down with "Old value doesn't match" and changes nothing,
    while the new value is there to be read and to be updated from. *)
Theorem Update_admits_once (this : RedisStateStore.t) (k old new other : string)
    (db db' : gmap string (Redis.entry string)) :
  new ≠ old →
  RedisStateStore.Update this k old new db = (None, db') →
  RedisStateStore.Update this k old other db'
  = (Some (Errorf "Old value doesn't match for key %s"
             [argS (RedisStateStore.KeyPath this +:+ "." +:+ k)]), db')
  ∧ RedisStateStore.Get this k db' = (new, None)
  ∧ fst (RedisStateStore.Update this k new other db') = None.
Proof.
  intros Hne. rewrite !Update_equation. simpl.
  destruct (db !! _) as [cur|]; [|discriminate].
  destruct (String.eqb (Redis.value cur) old); [|discriminate].
  intros [= <-]. rewrite lookup_insert_eq. simpl.
  apply String.eqb_neq in Hne. rewrite Hne, String.eqb_refl.
  split; [reflexivity|]. split; [|reflexivity].
  eapply Get_lookup. apply lookup_insert_eq.
Qed.

Lemma Update_admits_once_witness :
  let this := RedisStateStore.Configure "orders" "r1" (RedisStateStore.mk "" 0) in
  let db : gmap string (Redis.entry string) :=
    <["core.orders.r1.phase" := Redis.Entry "queued"%string 0]> ∅ in
  let db' := snd (RedisStateStore.Update this "phase" "queued" "running" db) in
  "running"%string ≠ "queued"%string
  ∧ RedisStateStore.Update this "phase" "queued" "running" db = (None, db')
  ∧ RedisStateStore.Get this "phase" db' = ("running"%string, None).
Proof.
  intros this db db'.
  assert (Hne : "running"%string ≠ "queued"%string) by discriminate.
  assert (H : RedisStateStore.Update this "phase" "queued" "running" db = (None, db'))
    by reflexivity.
  split; [exact Hne|]. split; [exact H|].
  exact (proj1 (proj2 (Update_admits_once this "phase" "queued" "running" "running" db db' Hne H))).
Defined.

(** X4.  [Incr] counts: when it has returned [n], the key reads as the
    decimal of [n] ([n] being the increment itself if the key was not
    there), and a further [Incr] by [b] returns [n + b], as long as the sum
    fits 64 bits. *)
Theorem Incr_accumulates (this : RedisStateStore.t) (k : string) (a b n : Z)
    (db db1 : gmap string (Redis.entry string)) :
  RedisStateStore.Incr this k a db = ((n, None), db1) →
  Redis.int64_min <= n + b <= Redis.int64_max →
  (db !! (RedisStateStore.KeyPath this +:+ "." +:+ k) = None → n = a)
  ∧ RedisStateStore.Get this k db1 = (fmt_d n, None)
  ∧ fst (RedisStateStore.Incr this k b db1) = (n + b, None)
  ∧ RedisStateStore.Get this k (snd (RedisStateStore.Incr this k b db1))
    = (fmt_d (n + b), None).
Proof.
  intros H Hb. rewrite Incr_equation in H. simpl in H.
  set (path := RedisStateStore.KeyPath this +:+ "." +:+ k) in *.
  destruct (match db !! path with Some e => _ | None => _ end) as [[m|] exp] eqn:E;
    [|discriminate].
  destruct ((Redis.int64_min <=? m + a) && (m + a <=? Redis.int64_max))%bool eqn:R;
    [|discriminate].
  injection H as <- <-.
  apply andb_true_iff in R as [R1 R2]. apply Z.leb_le in R1, R2.
  split; [|split].
  - intros Hnone. rewrite Hnone in E. injection E as <- _. lia.
  - eapply Get_lookup. apply lookup_insert_eq.
  - rewrite Incr_equation. simpl. fold path. rewrite lookup_insert_eq. simpl.
    rewrite parse_int64_fmt_d by lia.
    destruct (Z.leb_spec Redis.int64_min (m + a + b)),
             (Z.leb_spec (m + a + b) Redis.int64_max); simpl; try lia.
    split; [reflexivity|].
    eapply Get_lookup. apply lookup_insert_eq.
Qed.

Lemma Incr_accumulates_witness :
  let this := RedisStateStore.Configure "orders" "r1" (RedisStateStore.mk "" 0) in
  let db1 := snd (RedisStateStore.Incr this "joined" 2 ∅) in
  RedisStateStore.Incr this "joined" 2 ∅ = ((2, None), db1)
  ∧ fst (RedisStateStore.Incr this "joined" (-5) db1) = (-3, None).
Proof.
  intros this db1.
  assert (H : RedisStateStore.Incr this "joined" 2 ∅ = ((2, None), db1)) by reflexivity.
  split; [exact H|].
  apply (Incr_accumulates this "joined" 2 (-5) 2 ∅ db1 H).
  unfold Redis.int64_min, Redis.int64_max. lia.
Defined.

(** X5.  [Incr] that returns an error returns the count 0 and has changed
    nothing; it does so when the value under the key is not a 64-bit
    decimal, or when the sum would leave 64 bits.  Otherwise the count is
    the old count (0 for a missing key) plus the increment. *)
Theorem Incr_failure_changes_nothing (this : RedisStateStore.t) (k : string) (delta : Z)
    (db : gmap string (Redis.entry string)) :
  let path := RedisStateStore.KeyPath this +:+ "." +:+ k in
  let old := match db !! path with
             | Some e => Redis.parse_int64 (Redis.value e)
             | None => Some 0
             end in
  match RedisStateStore.Incr this k delta db with
  | ((n, Some err), db') =>
    n = 0 ∧ db' = db
    ∧ (old = None
       ∨ ∃ m, old = Some m ∧ ¬ (Redis.int64_min <= m + delta <= Redis.int64_max))
  | ((n, None), db') =>
    old = Some (n - delta) ∧ Redis.int64_min <= n <= Redis.int64_max
    ∧ Redis.value <$> db' !! path = Some (fmt_d n)
    ∧ ∀ k', k' ≠ path → db' !! k' = db !! k'
  end.
Proof.
  intros path old. rewrite Incr_equation. simpl. fold path. unfold old.
  destruct (db !! path) as [e|]; simpl.
  - destruct (Redis.parse_int64 (Redis.value e)) as [m|]; [|auto].
    destruct (Z.leb_spec Redis.int64_min (m + delta)),
             (Z.leb_spec (m + delta) Redis.int64_max); simpl;
      try (split; [reflexivity|split; [reflexivity|right; exists m; split; [reflexivity|lia]]]).
    split; [f_equal; lia|]. split; [lia|]. rewrite lookup_insert_eq. split; [reflexivity|].
    intros k' Hk. now rewrite lookup_insert_ne.
  - destruct (Z.leb_spec Redis.int64_min (0 + delta)),
             (Z.leb_spec (0 + delta) Redis.int64_max); simpl;
      try (split; [reflexivity|split; [reflexivity|right; exists 0; split; [reflexivity|lia]]]).
    split; [f_equal; lia|]. split; [lia|]. rewrite lookup_insert_eq. split; [reflexivity|].
    intros k' Hk. now rewrite lookup_insert_ne.
Qed.

(** ** Namespaces *)

Lemma plain_append (a b : string) : plain (a +:+ b) = plain a && plain b.
Proof. unfold plain. now rewrite list_ascii_of_append, forallb_app. Qed.

Lemma under_spec (ns key : string) :
  under ns key = true ↔ ∃ rest, key = ns +:+ "." +:+ rest.
Proof.
  unfold under. split.
  - destruct (after_prefix _ _) as [s'|] eqn:E; [|discriminate]. intros _.
    apply after_prefix_Some in E. exists (string_of_list_ascii s').
    rewrite <- (string_of_list_ascii_of_string key), E.
    rewrite <- (string_of_list_ascii_of_string (ns +:+ "." +:+ string_of_list_ascii s')).
    f_equal. rewrite !list_ascii_of_append, list_ascii_of_string_of_list_ascii.
    now rewrite <- List.app_assoc.
  - intros [rest ->]. rewrite <- append_assoc, (list_ascii_of_append (ns +:+ ".")).
    now rewrite after_prefix_app.
Qed.

Lemma glob_plain_under (ns key : string) :
  plain ns = true → Redis.glob (ns +:+ ".*") key = under ns key.
Proof.
  intros Hplain. apply eq_true_iff_eq.
  rewrite (glob_plain_namespace ns key Hplain). symmetry. apply under_spec.
Qed.

(** A pattern that starts with plain bytes matches only keys that start
    with them. *)
Lemma glob_starts_with (pre rest key : string) :
  plain pre = true →
  Redis.glob (pre +:+ rest) key = true → starts_with pre key = true.
Proof.
  intros Hplain. unfold Redis.glob, starts_with.
  rewrite list_ascii_of_append, length_app.
  change (S (length (list_ascii_of_string pre) + length (list_ascii_of_string rest)))%nat
    with (S (length (list_ascii_of_string pre)) + length (list_ascii_of_string rest))%nat.
  replace (S (length (list_ascii_of_string pre)) + length (list_ascii_of_string rest))%nat
    with (length (list_ascii_of_string pre) + S (length (list_ascii_of_string rest)))%nat by lia.
  rewrite glob_literal by exact Hplain.
  now destruct (after_prefix _ _).
Qed.

Lemma append_inj_l (a x y : string) : a +:+ x = a +:+ y → x = y.
Proof.
  induction a as [|c a IH]; [done|].
  change (String c (a +:+ x) = String c (a +:+ y) → x = y).
  intros [= H]. now apply IH.
Qed.

Lemma append_inj_r (x y a : string) : x +:+ a = y +:+ a → x = y.
Proof.
  intros H.
  assert (Hl : list_ascii_of_string x ++ list_ascii_of_string a
               = list_ascii_of_string y ++ list_ascii_of_string a)
    by now rewrite <- !list_ascii_of_append, H.
  apply app_inv_tail in Hl.
  rewrite <- (string_of_list_ascii_of_string x), Hl.
  apply string_of_list_ascii_of_string.
Qed.

(** Two strings cut at the first occurrence of a byte. *)
Lemma split_at (c : ascii) (a a' x x' : string) :
  without c a = true → without c a' = true →
  a +:+ String c x = a' +:+ String c x' → a = a' ∧ x = x'.
Proof.
  unfold without. revert a'. induction a as [|d a IH]; intros [|d' a'] Ha Ha'.
  - now intros [= ->].
  - change (String c x = String d' (a' +:+ String c x') → ""%string = String d' a' ∧ x = x').
    intros [= <- _]. simpl in Ha'. now rewrite Ascii.eqb_refl in Ha'.
  - change (String d (a +:+ String c x) = String c x' → String d a = ""%string ∧ x = x').
    intros [= -> _]. simpl in Ha. now rewrite Ascii.eqb_refl in Ha.
  - change (String d (a +:+ String c x) = String d' (a' +:+ String c x')
            → String d a = String d' a' ∧ x = x').
    intros [= -> H]. simpl in Ha, Ha'.
    apply andb_true_iff in Ha as [_ Ha]. apply andb_true_iff in Ha' as [_ Ha'].
    destruct (IH a' Ha Ha' H) as [-> ->]. done.
Qed.

(** The paths of the state store tell flows, requests and keys apart when
    the flow names and request ids hold no dot. *)
Lemma state_path_inj (flow1 req1 k1 flow2 req2 k2 : string) :
  without "." flow1 = true → without "." req1 = true →
  without "." flow2 = true → without "." req2 = true →
  "core." +:+ flow1 +:+ "." +:+ req1 +:+ "." +:+ k1
  = "core." +:+ flow2 +:+ "." +:+ req2 +:+ "." +:+ k2 →
  flow1 = flow2 ∧ req1 = req2 ∧ k1 = k2.
Proof.
  intros Hf1 Hr1 Hf2 Hr2 H. apply append_inj_l in H.
  apply (split_at "." flow1 flow2) in H as [-> H]; [|done..].
  apply (split_at "." req1 req2) in H as [-> ->]; done.
Qed.

(** Those of the data store do when the flow names hold no dash and the
    request ids no dot. *)
Lemma data_path_inj (flow1 req1 k1 flow2 req2 k2 : string) :
  without "-" flow1 = true → without "." req1 = true →
  without "-" flow2 = true → without "." req2 = true →
  "core-" +:+ flow1 +:+ "-" +:+ req1 +:+ "." +:+ k1 +:+ ".value"
  = "core-" +:+ flow2 +:+ "-" +:+ req2 +:+ "." +:+ k2 +:+ ".value" →
  flow1 = flow2 ∧ req1 = req2 ∧ k1 = k2.
Proof.
  intros Hf1 Hr1 Hf2 Hr2 H. apply append_inj_l in H.
  apply (split_at "-" flow1 flow2) in H as [-> H]; [|done..].
  apply (split_at "." req1 req2) in H as [-> H]; [|done..].
  apply append_inj_r in H. done.
Qed.

(** X6.  [Cleanup] only deletes, in the state store and in the data store
    and whatever the namespace looks like.  The state store's returns nil;
    the data store's returns nil when the store has its client, and panics
    on the nil client, having deleted nothing, when it has none.  Every key
    left was there with the same value, and a second [Cleanup] right after
    the first ends as the first did and changes nothing. *)
Theorem Cleanup_only_deletes (st : RedisStateStore.t) (ds : RedisDataStore.t)
    (db : gmap string (Redis.entry string)) :
  let db1 := snd (RedisStateStore.Cleanup st db) in
  let db2 := snd (RedisDataStore.Cleanup ds db) in
  fst (RedisStateStore.Cleanup st db) = None ∧ db1 ⊆ db
  ∧ RedisStateStore.Cleanup st db1 = (None, db1)
  ∧ fst (RedisDataStore.Cleanup ds db)
    = match RedisDataStore.redisClient ds with
      | Some _ => Ok tt
      | None => Panic nil_dereference
      end
  ∧ (RedisDataStore.redisClient ds = None → db2 = db)
  ∧ db2 ⊆ db
  ∧ RedisDataStore.Cleanup ds db2 = (fst (RedisDataStore.Cleanup ds db), db2).
Proof.
  intros db1 db2.
  assert (Hsub : ∀ pattern,
    foldl (fun db k => snd (Redis.DEL k db)) db (Redis.SCAN pattern db) ⊆ db).
  { intros pattern. apply map_subseteq_spec. intros k e.
    rewrite sweep_lookup. now destruct (Redis.glob pattern k). }
  destruct (Cleanup_idempotent st ds db) as [H1 H2].
  split; [reflexivity|]. split; [apply Hsub|]. split; [exact H1|].
  split; [|split; [|split; [|exact H2]]].
  - unfold RedisDataStore.Cleanup. now destruct (RedisDataStore.redisClient ds).
  - unfold db2, RedisDataStore.Cleanup. now intros ->.
  - unfold db2, RedisDataStore.Cleanup.
    destruct (RedisDataStore.redisClient ds); simpl; [apply Hsub | reflexivity].
Qed.

(** X7.  For a flow name and a request id without the bytes [* ? [ \],
    [Cleanup] deletes the keys under the namespace of the request, and no
    other: in the state store the keys [core.<flow>.<request>.<anything>],
    in a data store that has its client the keys
    [core-<flow>-<request>.<anything>].  A data store without client
    panics and deletes nothing. *)
Theorem Cleanup_sweeps_namespace (flow req : string) (st : RedisStateStore.t)
    (ds : RedisDataStore.t) (db : gmap string (Redis.entry string)) (key : string) :
  plain flow = true → plain req = true →
  snd (RedisStateStore.Cleanup (RedisStateStore.Configure flow req st) db) !! key
  = (if under ("core." +:+ flow +:+ "." +:+ req) key then None else db !! key)
  ∧ match RedisDataStore.redisClient ds with
    | Some _ =>
      fst (RedisDataStore.Cleanup (RedisDataStore.Configure flow req ds) db) = Ok tt
      ∧ snd (RedisDataStore.Cleanup (RedisDataStore.Configure flow req ds) db) !! key
        = (if under ("core-" +:+ flow +:+ "-" +:+ req) key then None else db !! key)
    | None =>
      RedisDataStore.Cleanup (RedisDataStore.Configure flow req ds) db
      = (Panic nil_dereference, db)
    end.
Proof.
  intros Hflow Hreq.
  unfold RedisStateStore.Cleanup, RedisDataStore.Cleanup. simpl.
  split.
  - rewrite sweep_lookup, glob_plain_under; [done|].
    rewrite !plain_append, Hflow, Hreq. reflexivity.
  - destruct (RedisDataStore.redisClient ds); [|reflexivity].
    split; [reflexivity|]. simpl.
    rewrite sweep_lookup, glob_plain_under; [done|].
    rewrite !plain_append, Hflow, Hreq. reflexivity.
Qed.

Lemma Cleanup_sweeps_namespace_witness :
  let st := RedisStateStore.mk "" 0 in
  let ds := RedisDataStore.mk "" (Some tt) in
  let db : gmap string (Redis.entry string) :=
    <["core.orders.r1.phase" := Redis.Entry "running"%string 0]>
    (<["core.orders.r10.phase" := Redis.Entry "queued"%string 0]>
    (<["core-orders-r1.out.value" := Redis.Entry "blob"%string 0]> ∅)) in
  let db' := snd (RedisStateStore.Cleanup (RedisStateStore.Configure "orders" "r1" st) db) in
  plain "orders" = true ∧ plain "r1" = true
  ∧ db' !! "core.orders.r1.phase" = None
  ∧ db' !! "core.orders.r10.phase" = Some (Redis.Entry "queued"%string 0)
  ∧ snd (RedisDataStore.Cleanup (RedisDataStore.Configure "orders" "r1" ds) db)
      !! "core-orders-r1.out.value" = None.
Proof.
  intros st ds db db'.
  assert (H1 : plain "orders" = true) by reflexivity.
  assert (H2 : plain "r1" = true) by reflexivity.
  split; [exact H1|]. split; [exact H2|]. split; [|split].
  - exact (proj1 (Cleanup_sweeps_namespace "orders" "r1" st ds db
                    "core.orders.r1.phase" H1 H2)).
  - exact (proj1 (Cleanup_sweeps_namespace "orders" "r1" st ds db
                    "core.orders.r10.phase" H1 H2)).
  - exact (proj2 (proj2 (Cleanup_sweeps_namespace "orders" "r1" st ds db
                           "core-orders-r1.out.value" H1 H2))).
Defined.

(** X8.  Requests do not see each other in the state store when the flow
    names and the request ids hold no dot: what [Get] reads for one request
    is not changed by [Set], [Update] or [Incr] for another one, with any
    keys and whatever other bytes the names hold, nor by its [Cleanup] when
    its names are plain. *)
Theorem state_requests_isolated (flow1 req1 flow2 req2 : string)
    (st : RedisStateStore.t) (k1 k2 : string) (db : gmap string (Redis.entry string)) :
  without "." flow1 = true → without "." req1 = true →
  without "." flow2 = true → without "." req2 = true →
  (flow1, req1) ≠ (flow2, req2) →
  let this := RedisStateStore.Configure flow1 req1 st in
  let other := RedisStateStore.Configure flow2 req2 st in
  (∀ v, RedisStateStore.Get other k2 (snd (RedisStateStore.Set_ this k1 v db))
        = RedisStateStore.Get other k2 db)
  ∧ (∀ old new, RedisStateStore.Get other k2 (snd (RedisStateStore.Update this k1 old new db))
                = RedisStateStore.Get other k2 db)
  ∧ (∀ delta, RedisStateStore.Get other k2 (snd (RedisStateStore.Incr this k1 delta db))
              = RedisStateStore.Get other k2 db)
  ∧ (plain flow1 = true → plain req1 = true →
     RedisStateStore.Get other k2 (snd (RedisStateStore.Cleanup this db))
     = RedisStateStore.Get other k2 db).
Proof.
  intros Hf1 Hr1 Hf2 Hr2 Hne this other.
  assert (Hget : ∀ d1 d2 : gmap string (Redis.entry string),
    d1 !! (RedisStateStore.KeyPath other +:+ "." +:+ k2)
    = d2 !! (RedisStateStore.KeyPath other +:+ "." +:+ k2) →
    RedisStateStore.Get other k2 d1 = RedisStateStore.Get other k2 d2).
  { intros d1 d2 H. unfold RedisStateStore.Get, Redis.GET. now rewrite H. }
  assert (Hpath : ∀ k, RedisStateStore.KeyPath other +:+ "." +:+ k2
                       ≠ RedisStateStore.KeyPath this +:+ "." +:+ k).
  { intros k H. simpl in H. rewrite !state_path in H.
    apply state_path_inj in H as (-> & -> & _); done. }
  split; [|split; [|split]].
  - intros v. apply Hget. unfold RedisStateStore.Set_, Redis.SET. simpl.
    apply lookup_insert_ne. intros H. now apply (Hpath k1).
  - intros old new. apply Hget.
    apply (proj1 (Update_confined this k1 old new)), Hpath.
  - intros delta. apply Hget.
    apply (proj1 (Incr_confined this k1 delta)), Hpath.
  - intros Hp1 Hp2.
    apply Hget. unfold RedisStateStore.Cleanup. cbn [snd]. rewrite sweep_lookup.
    rewrite glob_plain_under by (simpl; rewrite !plain_append, Hp1, Hp2; reflexivity).
    destruct (under _ _) eqn:E; [|reflexivity].
    apply under_spec in E as [rest E]. exfalso. simpl in E.
    rewrite !state_path in E.
    apply state_path_inj in E as (-> & -> & _); done.
Qed.

Lemma state_requests_isolated_witness :
  let st := RedisStateStore.mk "" 0 in
  let db : gmap string (Redis.entry string) :=
    <["core.orders.r2.phase" := Redis.Entry "running"%string 0]> ∅ in
  RedisStateStore.Get (RedisStateStore.Configure "orders" "r2" st) "phase"
    (snd (RedisStateStore.Set_ (RedisStateStore.Configure "a*" "r[1]" st) "phase" "done" db))
  = ("running"%string, None)
  ∧ RedisStateStore.Get (RedisStateStore.Configure "orders" "r2" st) "phase"
      (snd (RedisStateStore.Cleanup (RedisStateStore.Configure "orders" "r1" st) db))
    = ("running"%string, None).
Proof.
  intros st db. split.
  - exact (proj1
      (state_requests_isolated "a*" "r[1]" "orders" "r2" st "phase" "phase" db
         eq_refl eq_refl eq_refl eq_refl ltac:(discriminate)) "done"%string).
  - exact (proj2 (proj2 (proj2
      (state_requests_isolated "orders" "r1" "orders" "r2" st "phase" "phase" db
         eq_refl eq_refl eq_refl eq_refl ltac:(discriminate)))) eq_refl eq_refl).
Defined.

(** X9.  Requests do not see each other in the data store when the flow
    names hold no dash and the request ids no dot: what [Get] reads for one
    request is not changed by [Set] or [Del] for another one, with any keys
    and whatever other bytes the names hold, nor by its [Cleanup] when its
    names are plain (a [Cleanup] that panics for want of a client changes
    nothing at all). *)
Theorem data_requests_isolated (flow1 req1 flow2 req2 : string)
    (ds : RedisDataStore.t) (k1 k2 : string) (db : gmap string (Redis.entry string)) :
  without "-" flow1 = true → without "." req1 = true →
  without "-" flow2 = true → without "." req2 = true →
  (flow1, req1) ≠ (flow2, req2) →
  let this := RedisDataStore.Configure flow1 req1 ds in
  let other := RedisDataStore.Configure flow2 req2 ds in
  (∀ v, RedisDataStore.Get other k2 (snd (RedisDataStore.Set_ this k1 v db))
        = RedisDataStore.Get other k2 db)
  ∧ RedisDataStore.Get other k2 (snd (RedisDataStore.Del this k1 db))
    = RedisDataStore.Get other k2 db
  ∧ (plain flow1 = true → plain req1 = true →
     RedisDataStore.Get other k2 (snd (RedisDataStore.Cleanup this db))
     = RedisDataStore.Get other k2 db).
Proof.
  intros Hf1 Hr1 Hf2 Hr2 Hne this other.
  assert (Hget : ∀ d1 d2 : gmap string (Redis.entry string),
    d1 !! RedisDataStore.getPath (RedisDataStore.bucketName other) k2
    = d2 !! RedisDataStore.getPath (RedisDataStore.bucketName other) k2 →
    RedisDataStore.Get other k2 d1 = RedisDataStore.Get other k2 d2).
  { intros d1 d2 H. unfold RedisDataStore.Get, Redis.GET. now rewrite H. }
  assert (Hpath : ∀ k, RedisDataStore.getPath (RedisDataStore.bucketName other) k2
                       ≠ RedisDataStore.getPath (RedisDataStore.bucketName this) k).
  { intros k H. simpl in H. rewrite !data_path in H.
    apply data_path_inj in H as (-> & -> & _); done. }
  split; [|split].
  - intros v. apply Hget. unfold RedisDataStore.Set_, Redis.SET.
    destruct (RedisDataStore.redisClient this); [|reflexivity]. simpl snd.
    apply lookup_insert_ne. intros H. now apply (Hpath k1).
  - apply Hget. unfold RedisDataStore.Del.
    destruct (RedisDataStore.redisClient this); [|reflexivity]. simpl snd.
    rewrite DEL_delete. apply lookup_delete_ne. intros H. now apply (Hpath k1).
  - intros Hp1 Hp2. apply Hget. unfold RedisDataStore.Cleanup.
    destruct (RedisDataStore.redisClient this); [|reflexivity].
    cbn [snd]. rewrite sweep_lookup.
    rewrite glob_plain_under by (simpl; rewrite !plain_append, Hp1, Hp2; reflexivity).
    destruct (under _ _) eqn:E; [|reflexivity].
    apply under_spec in E as [rest E]. exfalso.
    assert (E' : "core-" +:+ flow2 +:+ "-" +:+ req2 +:+ "." +:+ k2 +:+ ".value"
                 = "core-" +:+ flow1 +:+ "-" +:+ req1 +:+ "." +:+ rest).
    { rewrite <- data_path.
      change (RedisDataStore.getPath (RedisDataStore.bucketName other) k2
              = "core-" +:+ flow1 +:+ "-" +:+ req1 +:+ "." +:+ rest).
      rewrite E. simpl. now rewrite !append_assoc. }
    apply append_inj_l in E'.
    apply (split_at "-" flow2 flow1) in E' as [-> E']; [|done..].
    apply (split_at "." req2 req1) in E' as [-> _]; done.
Qed.

Lemma data_requests_isolated_witness :
  let ds := RedisDataStore.mk "" (Some tt) in
  let db : gmap string (Redis.entry string) :=
    <["core-orders-r2.out.value" := Redis.Entry "blob"%string 0]> ∅ in
  RedisDataStore.Get (RedisDataStore.Configure "orders" "r2" ds) "out"
    (snd (RedisDataStore.Del (RedisDataStore.Configure "a*" "r[2]" ds) "out" db))
  = RedisDataStore.Get (RedisDataStore.Configure "orders" "r2" ds) "out" db
  ∧ RedisDataStore.Get (RedisDataStore.Configure "orders" "r2" ds) "out"
      (snd (RedisDataStore.Cleanup (RedisDataStore.Configure "orders" "r1" ds) db))
    = RedisDataStore.Get (RedisDataStore.Configure "orders" "r2" ds) "out" db.
Proof.
  intros ds db. split.
  - exact (proj1 (proj2
      (data_requests_isolated "a*" "r[2]" "orders" "r2" ds "out" "out" db
         eq_refl eq_refl eq_refl eq_refl ltac:(discriminate)))).
  - exact (proj2 (proj2
      (data_requests_isolated "orders" "r1" "orders" "r2" ds "out" "out" db
         eq_refl eq_refl eq_refl eq_refl ltac:(discriminate))) eq_refl eq_refl).
Defined.

(** X10.  [Cleanup] stays within its store, whatever the flow name and the
    request id are, glob bytes included: the state store's deletes no key
    that does not start with [core.], the data store's no key that does not
    start with [core-].  So neither deletes what the other stores, nor the
    keys of the registry and of the queues. *)
Theorem Cleanup_stays_in_store (flow req : string) (st : RedisStateStore.t)
    (ds : RedisDataStore.t) (db : gmap string (Redis.entry string)) (key1 key2 : string) :
  starts_with "core." key1 = false →
  starts_with "core-" key2 = false →
  snd (RedisStateStore.Cleanup (RedisStateStore.Configure flow req st) db) !! key1
  = db !! key1
  ∧ snd (RedisDataStore.Cleanup (RedisDataStore.Configure flow req ds) db) !! key2
    = db !! key2.
Proof.
  intros H1 H2. unfold RedisStateStore.Cleanup, RedisDataStore.Cleanup. simpl.
  split.
  - rewrite sweep_lookup. destruct (Redis.glob _ key1) eqn:E; [|reflexivity].
    rewrite !append_assoc in E.
    apply (glob_starts_with "core.") in E; [congruence | reflexivity].
  - destruct (RedisDataStore.redisClient ds); [|reflexivity]. simpl.
    rewrite sweep_lookup. destruct (Redis.glob _ key2) eqn:E; [|reflexivity].
    rewrite !append_assoc in E.
    apply (glob_starts_with "core-") in E; [congruence | reflexivity].
Qed.

Lemma Cleanup_stays_in_store_witness :
  let db : gmap string (Redis.entry string) :=
    <["core-a*-r1.out.value" := Redis.Entry "blob"%string 0]>
    (<["core.a*.r1.phase" := Redis.Entry "running"%string 0]> ∅) in
  snd (RedisStateStore.Cleanup
         (RedisStateStore.Configure "*" "*" (RedisStateStore.mk "" 0)) db)
    !! "core-a*-r1.out.value" = Some (Redis.Entry "blob"%string 0)
  ∧ snd (RedisDataStore.Cleanup
           (RedisDataStore.Configure "*" "*" (RedisDataStore.mk "" (Some tt))) db)
      !! "core.a*.r1.phase" = Some (Redis.Entry "running"%string 0).
Proof.
  intros db.
  exact (Cleanup_stays_in_store "*" "*" (RedisStateStore.mk "" 0)
           (RedisDataStore.mk "" (Some tt)) db
           "core-a*-r1.out.value" "core.a*.r1.phase" eq_refl eq_refl).
Defined.

(* ===================================================================== *)
(** * Further properties of the runtime                                    *)
(* ===================================================================== *)

(** ** Deliveries and handlers *)

Section Handling.
Context {Handler : Type}.
Variable executorInit : Handler -> Request -> World Handler -> option error * World Handler.
Variable ExecuteFlowHandler : Handler -> Request -> World Handler -> option error * World Handler.
Variable PartialExecuteFlowHandler : Handler -> Request -> World Handler -> option error * World Handler.
Variable flowExecutor : kind -> Handler -> string -> World Handler -> option error * World Handler.

Local Abbreviation consume' :=
  (Consume executorInit ExecuteFlowHandler PartialExecuteFlowHandler flowExecutor).
Local Abbreviation handle' :=
  (handleRequest executorInit ExecuteFlowHandler PartialExecuteFlowHandler flowExecutor).

(** X11.  The calls [Consume] makes on a delivery, whatever the handlers
    and the broker do: it keeps the payload; for a payload that does not
    parse it calls Push alone and, but for what it logs, leaves the world
    as it is; for a task whose handler returns nil it calls Ack alone; for
    a task whose handler fails it calls Push, or Push and then Ack.  It
    never calls Ack before Push nor either of them twice, and a delivery
    that was settled already keeps its status. *)
Theorem Consume_call_discipline (message : Rmq.Delivery) (w : World Handler) :
  let message' := fst (consume' message w) in
  let w' := snd (consume' message w) in
  Rmq.Payload message' = Rmq.Payload message
  ∧ match Json.Unmarshal (Rmq.Payload message) with
    | inl _ =>
      Rmq.calls message' = Rmq.calls message ++ [Rmq.Push]
      ∧ ∃ lines, w' = with_logged lines w
    | inr task =>
      match fst (handle' (makeRequestFromTask task) (RequestType task) w) with
      | None => Rmq.calls message' = Rmq.calls message ++ [Rmq.Ack]
      | Some _ =>
        Rmq.calls message' = Rmq.calls message ++ [Rmq.Push]
        ∨ Rmq.calls message' = Rmq.calls message ++ [Rmq.Push; Rmq.Ack]
      end
    end
  ∧ match Rmq.status message with
    | Rmq.Unacked => True
    | settled => Rmq.status message' = settled
    end.
Proof.
  intros message' w'. unfold message', w', Consume.
  destruct (Json.Unmarshal (Rmq.Payload message)) as [err|task].
  - unfold Rmq.DoPush, Rmq.settle.
    destruct (Rmq.fails message Rmq.Push); simpl.
    + split; [done|]. split; [|by destruct (Rmq.status message)].
      split; [done|]. eexists [_; _]. unfold with_logged, Log. simpl.
      by rewrite <- List.app_assoc.
    + destruct (Rmq.status message); simpl; (split; [done|]); (split; [|done]);
        (split; [done|]).
      * by eexists [_].
      * eexists [_; _]. unfold with_logged, Log. simpl. by rewrite <- List.app_assoc.
      * eexists [_; _]. unfold with_logged, Log. simpl. by rewrite <- List.app_assoc.
  - destruct (handle' (makeRequestFromTask task) (RequestType task) w) as [[err|] w1];
      simpl.
    + unfold Rmq.DoPush, Rmq.DoAck, Rmq.settle.
      destruct (Rmq.fails message Rmq.Push); simpl.
      * split; [done|]. split; [by left|]. by destruct (Rmq.status message).
      * destruct (Rmq.status message); simpl.
        -- destruct (Rmq.fails message Rmq.Ack); simpl;
             (split; [done|]); (split; [|done]); right; by rewrite <- List.app_assoc.
        -- split; [done|]. split; [by left|done].
        -- split; [done|]. split; [by left|done].
    + unfold Rmq.DoAck, Rmq.settle.
      destruct (Rmq.fails message Rmq.Ack); simpl.
      * split; [done|]. split; [done|]. by destruct (Rmq.status message).
      * destruct (Rmq.status message); simpl; done.
Qed.

(** X12.  A task for a flow that is not in the registry is turned down by
    each of the five handlers before any collaborator is called: the error
    returned carries the request id and the cause "could not find handler
    for flow", and the world is as it was but for at most one logged
    line. *)
Theorem unregistered_flow_is_rejected (request : Request) (requestType : string)
    (w : World Handler) :
  Flows (runtime w) !! req_FlowName request = None →
  requestType ∈ [NewRequest; PartialRequest; PauseRequest; ResumeRequest; StopRequest] →
  ∃ format lines,
    handle' request requestType w
    = (Some (Errorf format
               [argS (req_RequestID request);
                argE (Errorf "could not find handler for flow %s"
                        [argS (req_FlowName request)])]),
       with_logged lines w)
    ∧ (length lines <= 1)%nat.
Proof.
  intros Hflow Hty.
  assert (Hsame : with_logged [] w = w).
  { unfold with_logged. rewrite app_nil_r. by destruct w. }
  repeat (apply elem_of_cons in Hty as [->|Hty]); [..|by apply elem_of_nil in Hty].
  - eexists _, []. rewrite Hsame. split; [|simpl; lia].
    unfold handleRequest. simpl. unfold handleNewRequest, CreateExecutor.
    rewrite Hflow. reflexivity.
  - eexists _, [_]. split; [|simpl; lia].
    unfold handleRequest. simpl. unfold handlePartialRequest, CreateExecutor.
    rewrite Hflow. reflexivity.
  - eexists _, [_]. split; [|simpl; lia].
    unfold handleRequest. simpl.
    unfold handlePauseRequest, handleControl, CreateExecutor.
    rewrite Hflow. reflexivity.
  - eexists _, [_]. split; [|simpl; lia].
    unfold handleRequest. simpl.
    unfold handleResumeRequest, handleControl, CreateExecutor.
    rewrite Hflow. reflexivity.
  - eexists _, [_]. split; [|simpl; lia].
    unfold handleRequest. simpl.
    unfold handleStopRequest, handleControl, CreateExecutor.
    rewrite Hflow. reflexivity.
Qed.

End Handling.

Lemma unregistered_flow_is_rejected_witness :
  let idle : unit -> Request -> World unit -> option error * World unit :=
    fun _ _ w => (None, w) in
  let w : World unit :=
    mkWorld (mkRuntime (<["orders" := tt]> ∅) 1 1 true ∅ (Connection []))
            (Rmq.mkBroker ∅ (fun _ => None)) ∅ [] [] in
  let request := mkRequest "billing" "r1" [] ∅ "" ∅ in
  Flows (runtime w) !! req_FlowName request = None
  ∧ PauseRequest ∈ [NewRequest; PartialRequest; PauseRequest; ResumeRequest; StopRequest]
  ∧ ∃ format lines,
      handleRequest idle idle idle (fun _ _ _ w => (None, w)) request PauseRequest w
      = (Some (Errorf format
                 [argS "r1"; argE (Errorf "could not find handler for flow %s" [argS "billing"])]),
         with_logged lines w)
      ∧ (length lines <= 1)%nat.
Proof.
  intros idle w request.
  assert (H1 : Flows (runtime w) !! req_FlowName request = None) by reflexivity.
  assert (H2 : PauseRequest ∈ [NewRequest; PartialRequest; PauseRequest; ResumeRequest; StopRequest])
    by (do 2 right; left).
  split; [exact H1|]. split; [exact H2|].
  exact (unregistered_flow_is_rejected idle idle idle (fun _ _ _ w => (None, w))
           request PauseRequest w H1 H2).
Defined.

(** ** What opening the queues leaves alone *)

Section Frame.
Context {Handler : Type}.
Implicit Types (w : World Handler) (objs : list Rmq.Queue) (tq : gmap string nat).

Lemma kept_refl objs : kept objs objs.
Proof. split; [done|]. intros q o H. by rewrite H. Qed.

Lemma kept_trans objs1 objs2 objs3 : kept objs1 objs2 → kept objs2 objs3 → kept objs1 objs3.
Proof.
  intros [Hl1 Hn1] [Hl2 Hn2]. split; [lia|].
  intros q o Ho. specialize (Hn1 q o Ho).
  destruct (objs2 !! q) as [o2|] eqn:E; [|done].
  injection Hn1 as <-. by apply Hn2.
Qed.

Lemma kept_app objs new : kept objs (objs ++ new).
Proof.
  split; [rewrite length_app; lia|].
  intros q o Ho. by rewrite (lookup_app_l_Some _ _ _ _ Ho).
Qed.

Lemma kept_alter (g : Rmq.Queue -> Rmq.Queue) (q : nat) objs :
  (∀ o, Rmq.name (g o) = Rmq.name o) → kept objs (alter g q objs).
Proof.
  intros Hg. split; [by rewrite length_alter|].
  intros q' o Ho. destruct (decide (q = q')) as [->|Hne].
  - rewrite list_lookup_alter_eq, Ho. simpl. by rewrite Hg.
  - rewrite list_lookup_alter_ne by done. by rewrite Ho.
Qed.

Lemma only_queues_refl w : only_queues w w.
Proof.
  unfold only_queues. repeat (split; [reflexivity|]).
  destruct (rmqConnection (runtime w)); [done | done | apply kept_refl].
Qed.

Lemma only_queues_trans w1 w2 w3 :
  only_queues w1 w2 → only_queues w2 w3 → only_queues w1 w3.
Proof.
  unfold only_queues.
  intros (A1 & A2 & A3 & A4 & A5 & A6 & A7 & A8 & A9)
         (B1 & B2 & B3 & B4 & B5 & B6 & B7 & B8 & B9).
  repeat (split; [congruence|]).
  destruct (rmqConnection (runtime w1)), (rmqConnection (runtime w2)),
    (rmqConnection (runtime w3)); try done.
  by eapply kept_trans.
Qed.

Lemma framed_ret {A} (a : A) : framed (ret (Handler := Handler) a).
Proof. intros w. apply only_queues_refl. Qed.

Lemma framed_panic {A} (reason : string) : framed (panic (Handler := Handler) (A := A) reason).
Proof. intros w. apply only_queues_refl. Qed.

Lemma framed_getRuntime : framed (getRuntime (Handler := Handler)).
Proof. intros w. apply only_queues_refl. Qed.

Lemma framed_bind {A B} (c : M Handler A) (k : A -> M Handler B) :
  framed c → (∀ a, framed (k a)) → framed (bind c k).
Proof.
  intros Hc Hk w. unfold bind. specialize (Hc w).
  destruct (c w) as [[a|e|r] w1]; simpl in *; [|done..].
  eapply only_queues_trans; [exact Hc | apply Hk].
Qed.

Lemma framed_wrap {A} (f : error -> error) (c : M Handler A) : framed c → framed (wrap f c).
Proof.
  intros Hc w. unfold wrap. specialize (Hc w).
  by destruct (c w) as [[a|e|r] w1].
Qed.

Lemma snd_wrap {A} (f : error -> error) (c : M Handler A) w :
  snd (wrap f c w) = snd (c w).
Proof. unfold wrap. by destruct (c w) as [[a|e|r] w1]. Qed.

Lemma framed_forM {A} (l : list A) (f : A -> M Handler unit) :
  (∀ a, framed (f a)) → framed (forM_ l f).
Proof.
  intros Hf. induction l as [|a l IH]; simpl.
  - apply framed_ret.
  - apply framed_bind; [apply Hf | intros _; exact IH].
Qed.

Lemma framed_onConnection {A}
    (f : Rmq.Broker -> list Rmq.Queue -> (error + A) * list Rmq.Queue) :
  (∀ b objs, kept objs (snd (f b objs))) → framed (onConnection f : M Handler A).
Proof.
  intros Hf w. unfold onConnection.
  destruct (rmqConnection (runtime w)) as [| |objs] eqn:E; [apply only_queues_refl..|].
  specialize (Hf (broker w) objs).
  destruct (f (broker w) objs) as [r objs'].
  assert (H : only_queues w (setRuntime (setConnection (Connection objs') (runtime w)) w)).
  { unfold only_queues. simpl. repeat (split; [reflexivity|]). by rewrite E. }
  by destruct r.
Qed.

Lemma framed_OpenQueue (n : string) : framed (OpenQueue (Handler := Handler) n).
Proof.
  apply framed_onConnection. intros b objs. unfold Rmq.OpenQueue.
  destruct (Rmq.refuses b _); simpl; [apply kept_refl | apply kept_app].
Qed.

Lemma framed_SetPushQueue (q p : nat) : framed (SetPushQueue (Handler := Handler) q p).
Proof.
  apply framed_onConnection. intros b objs. simpl. by apply kept_alter.
Qed.

Lemma framed_StartConsuming (q : nat) (l d : Z) :
  framed (StartConsuming (Handler := Handler) q l d).
Proof.
  apply framed_onConnection. intros b objs. unfold Rmq.StartConsuming.
  destruct (objs !! q) as [o|]; [|apply kept_refl].
  destruct (Rmq.consuming o); [apply kept_refl|].
  destruct (Rmq.refuses b _); simpl; [apply kept_refl | by apply kept_alter].
Qed.

Lemma framed_AddConsumer (q : nat) (tag : string) :
  framed (AddConsumer (Handler := Handler) q tag).
Proof.
  apply framed_onConnection. intros b objs. unfold Rmq.AddConsumer.
  destruct (objs !! q) as [o|]; [|apply kept_refl].
  destruct (Rmq.consuming o); [|apply kept_refl].
  destruct (Rmq.refuses b _); simpl; [apply kept_refl | by apply kept_alter].
Qed.

Lemma framed_index (pushQueues : list nat) (idx : Z) :
  framed (index (Handler := Handler) pushQueues idx).
Proof.
  unfold index. destruct (pushQueues !! _); [apply framed_ret | apply framed_panic].
Qed.

Lemma framed_setTaskQueues (g : FlowRuntime Handler -> gmap string nat) :
  framed (modifyRuntime (fun rt => setTaskQueues (g rt) rt) : M Handler unit).
Proof.
  intros w. unfold only_queues. simpl. repeat (split; [reflexivity|]).
  destruct (rmqConnection (runtime w)); [done | done | apply kept_refl].
Qed.

Lemma framed_openPushQueues (baseQId : string) (idxs : list Z) :
  ∀ (prevQ : nat) (pushQueues : list nat),
    framed (openPushQueues (Handler := Handler) baseQId idxs prevQ pushQueues).
Proof.
  induction idxs as [|idx idxs IH]; intros prevQ pushQueues; simpl.
  - apply framed_ret.
  - apply framed_bind; [apply framed_wrap, framed_OpenQueue|]. intros q.
    apply framed_bind; [apply framed_SetPushQueue|]. intros _. apply IH.
Qed.

Lemma framed_initializeFlow (flowName : string) :
  framed (initializeFlow (Handler := Handler) flowName).
Proof.
  unfold initializeFlow.
  apply framed_bind; [apply framed_getRuntime|]. intros rt.
  apply framed_bind; [apply framed_wrap, framed_OpenQueue|]. intros taskQueue.
  apply framed_bind;
    [destruct (RetryQueueCount rt <? 0); [apply framed_panic | apply framed_ret]|].
  intros _.
  apply framed_bind; [apply framed_openPushQueues|]. intros pushQueues.
  apply framed_bind; [apply framed_wrap, framed_StartConsuming|]. intros _.
  apply framed_bind; [apply framed_setTaskQueues|]. intros _.
  apply framed_bind.
  { apply framed_forM. intros idx.
    apply framed_bind; [apply framed_index|]. intros q.
    apply framed_wrap, framed_StartConsuming. }
  intros _. apply framed_bind.
  { apply framed_forM. intros idx. apply framed_wrap, framed_AddConsumer. }
  intros _. apply framed_forM. intros idx.
  apply framed_bind; [apply framed_index|]. intros q.
  apply framed_wrap, framed_AddConsumer.
Qed.

Lemma framed_initializeTaskQueues : framed (initializeTaskQueues (Handler := Handler)).
Proof.
  unfold initializeTaskQueues.
  apply framed_bind; [apply framed_getRuntime|]. intros rt.
  apply framed_forM. intros flowName. apply framed_initializeFlow.
Qed.

(** X13.  [initializeTaskQueues] touches the queue objects and
    [taskQueues] only, whether it returns nil, returns an error half way
    or panics, and whatever the broker refuses: the registry of flows, the
    worker mode, [Concurrency] and [RetryQueueCount], the messages held by
    the broker, the registry keys and what was logged are as before, and
    every queue object that was on the connection is still there under
    its handle and its name. *)
Theorem initializeTaskQueues_changes_queues_only w :
  only_queues w (snd (initializeTaskQueues w)).
Proof.
  revert w. change (framed (initializeTaskQueues (Handler := Handler))).
  unfold initializeTaskQueues.
  apply framed_bind; [apply framed_getRuntime|]. intros rt.
  apply framed_forM. intros flowName. apply framed_initializeFlow.
Qed.

End Frame.

(** ** Worker mode *)

Section WorkerMode.
Context {Handler : Type}.
Implicit Types (w : World Handler) (objs : list Rmq.Queue) (tq : gmap string nat).

Lemma initializeTaskQueues_run w objs :
  rmqConnection (runtime w) = Connection objs →
  initializeTaskQueues w
  = forM_ (map fst (map_to_list (Flows (runtime w)))) initializeFlow
      (with_queues w objs (taskQueues (runtime w))).
Proof.
  intros Hconn. unfold initializeTaskQueues.
  rewrite (bind_ok getRuntime _ _ _ _ eq_refl).
  by rewrite <- (with_queues_same w objs Hconn).
Qed.

(** X14.  A negative [RetryQueueCount] makes [initializeTaskQueues] panic
    as soon as there is a flow to open queues for: the primary queue of
    the first flow visited is opened, then the slice of retry queues
    cannot be made.  With no flow registered it returns nil and does
    nothing. *)
Theorem initializeTaskQueues_negative_retry w objs :
  rmqConnection (runtime w) = Connection objs →
  quiet w →
  RetryQueueCount (runtime w) < 0 →
  if decide (Flows (runtime w) = ∅) then initializeTaskQueues w = (Ok tt, w)
  else
    ∃ flowName, is_Some (Flows (runtime w) !! flowName)
      ∧ initializeTaskQueues w
        = (Panic makeslice_range,
           with_queues w (objs ++ [Rmq.mkQueue (internalRequestQueueId flowName) None None []])
             (taskQueues (runtime w))).
Proof.
  intros Hconn Hq Hneg. rewrite (initializeTaskQueues_run w objs Hconn).
  destruct (decide (Flows (runtime w) = ∅)) as [He|Hne].
  - rewrite He, map_to_list_empty. simpl. unfold ret.
    by rewrite <- (with_queues_same w objs Hconn).
  - destruct (map_to_list (Flows (runtime w))) as [|[flowName h] l] eqn:E.
    { by apply map_to_list_empty_iff in E. }
    exists flowName. split.
    { exists h. apply elem_of_map_to_list. rewrite E. by left. }
    simpl. unfold bind at 1. unfold initializeFlow.
    rewrite (bind_ok getRuntime _ _ _ _ eq_refl).
    rewrite (bind_ok _ _ _ _ _ (wrap_ok _ _ _ _ _ (OpenQueue_ok w objs _ _ Hq))).
    cbn [with_queues runtime RetryQueueCount].
    apply Z.ltb_lt in Hneg. rewrite Hneg. reflexivity.
Qed.

(** X15.  [EnterWorkerMode] on a runtime that has its connection leaves
    the runtime in worker mode however it ends: the flag is set before the
    queues are opened and is not taken back when opening them fails.  A
    further [EnterWorkerMode] then returns nil and does nothing, so the
    queues that were not opened stay unopened.  The registry of flows is
    not changed. *)
Theorem EnterWorkerMode_sticks w :
  is_Some (queues (rmqConnection (runtime w))) →
  let w' := snd (EnterWorkerMode w) in
  workerMode (runtime w') = true
  ∧ Flows (runtime w') = Flows (runtime w)
  ∧ EnterWorkerMode w' = (Ok tt, w').
Proof.
  intros [objs Hconn%queues_Some] w'.
  assert (Hw' : workerMode (runtime w') = true ∧ Flows (runtime w') = Flows (runtime w)
                ∧ is_Some (queues (rmqConnection (runtime w')))).
  { unfold w', EnterWorkerMode. rewrite (bind_ok getRuntime _ _ _ _ eq_refl).
    cbv beta. rewrite Hconn.
    destruct (workerMode (runtime w)) eqn:Hmode;
      [unfold ret; simpl; rewrite Hconn; by eauto|].
    rewrite (bind_ok (modifyRuntime _) _ _ _ _ eq_refl), snd_wrap.
    destruct (framed_initializeTaskQueues (Handler := Handler)
                (setRuntime (setWorkerMode true (runtime w)) w))
      as (A1 & _ & _ & A4 & _ & _ & _ & _ & A9).
    split; [by rewrite A4|]. split; [by rewrite A1|].
    simpl in A9. rewrite Hconn in A9.
    destruct (rmqConnection (runtime (snd _))) as [| |objs']; [done | done | by exists objs']. }
  destruct Hw' as (Hmode & Hflows & [objs' Hconn'%queues_Some]).
  split; [exact Hmode|]. split; [exact Hflows|].
  unfold EnterWorkerMode. rewrite (bind_ok getRuntime _ _ _ _ eq_refl).
  cbv beta. rewrite Hconn', Hmode. reflexivity.
Qed.

End WorkerMode.

Lemma initializeTaskQueues_negative_retry_witness :
  let w : World unit :=
    mkWorld (mkRuntime (<["orders" := tt]> ∅) 3 (-1) true ∅ (Connection []))
            (Rmq.mkBroker ∅ (fun _ => None)) ∅ [] [] in
  fst (initializeTaskQueues w) = Panic makeslice_range.
Proof.
  intros w.
  assert (H1 : rmqConnection (runtime w) = Connection []) by reflexivity.
  assert (H2 : quiet w) by (intros c; reflexivity).
  assert (H3 : RetryQueueCount (runtime w) < 0) by (simpl; lia).
  pose proof (initializeTaskQueues_negative_retry w [] H1 H2 H3) as H.
  destruct (decide (Flows (runtime w) = ∅)) as [He|_].
  - exfalso. apply (f_equal (fun m => m !! "orders")) in He. discriminate He.
  - destruct H as (flowName & _ & ->). reflexivity.
Defined.

Lemma EnterWorkerMode_sticks_witness :
  let w : World unit :=
    mkWorld (mkRuntime (<["orders" := tt]> ∅) 3 1 false ∅ (Connection []))
            (Rmq.mkBroker ∅ (fun c => match c with
                                       | Rmq.COpenQueue _ => Some (errText "redis: down")
                                       | _ => None
                                       end)) ∅ [] [] in
  fst (EnterWorkerMode w)
  = Fail (Errorf "failed to enter worker mode, error: "
            [argE (Errorf "failed to open queue, error %v" [argE (errText "redis: down")])])
  ∧ workerMode (runtime (snd (EnterWorkerMode w))) = true
  ∧ EnterWorkerMode (snd (EnterWorkerMode w)) = (Ok tt, snd (EnterWorkerMode w)).
Proof.
  intros w.
  assert (H : is_Some (queues (rmqConnection (runtime w)))) by (simpl; eauto).
  split; [reflexivity|].
  split; [exact (proj1 (EnterWorkerMode_sticks w H))
         | exact (proj2 (proj2 (EnterWorkerMode_sticks w H)))].
Defined.

Section WorkerMode2.
Context {Handler : Type}.
Implicit Types (w : World Handler) (objs : list Rmq.Queue) (tq : gmap string nat).

(** The queue objects opened for a list of flows: one primary queue and
    [RetryQueueCount] retry queues for each, after the objects at hand,
    which are left as they are. *)
Lemma initializeFlows_count w (flows : list string) :
  quiet w → 0 <= RetryQueueCount (runtime w) →
  ∀ objs tq,
  ∃ objs' tq',
    forM_ flows initializeFlow (with_queues w objs tq) = (Ok tt, with_queues w objs' tq')
    ∧ length objs'
      = (length objs + length flows * S (Z.to_nat (RetryQueueCount (runtime w))))%nat
    ∧ (∀ q, (q < length objs)%nat → objs' !! q = objs !! q).
Proof.
  intros Hq HN. induction flows as [|flowName flows IH]; intros objs tq.
  - exists objs, tq. split; [done|]. split; [simpl; lia | done].
  - destruct (initializeFlow_spec w objs tq flowName Hq HN)
      as (objs1 & Hrun1 & Hlen1 & Hold1 & _).
    destruct (IH objs1 (<[flowName := length objs]> tq)) as (objs' & tq' & Hrun & Hlen & Hold).
    exists objs', tq'. split; [|split].
    + simpl. by rewrite (bind_ok _ _ _ _ _ Hrun1).
    + rewrite Hlen, Hlen1. simpl. lia.
    + intros q Hlt. rewrite Hold by lia. by apply Hold1.
Qed.

Lemma quiet_setRuntime w (rt : FlowRuntime Handler) : quiet w → quiet (setRuntime rt w).
Proof. intros Hq c. apply Hq. Qed.

(** X16.  Entering worker mode makes the partial requests of the
    registered flows publishable: on a runtime that has its connection and
    is not in worker mode, with a broker that refuses nothing and a
    [RetryQueueCount] that is not negative, [EnterWorkerMode] returns nil,
    and then [EnqueuePartialRequest] returns nil for every request of a
    registered flow, its PARTIAL task being the last message of
    [goflow-internal-request:<flow>]. *)
Theorem EnterWorkerMode_enables_enqueue w objs :
  rmqConnection (runtime w) = Connection objs →
  workerMode (runtime w) = false →
  quiet w →
  0 <= RetryQueueCount (runtime w) →
  ∃ w1, EnterWorkerMode w = (Ok tt, w1)
    ∧ workerMode (runtime w1) = true
    ∧ ∀ pr, is_Some (Flows (runtime w) !! req_FlowName pr) →
        fst (EnqueuePartialRequest pr w1) = Ok tt
        ∧ Rmq.ready (broker (snd (EnqueuePartialRequest pr w1)))
            !! internalRequestQueueId (req_FlowName pr)
          = Some (default [] (Rmq.ready (broker w) !! internalRequestQueueId (req_FlowName pr))
                  ++ [Json.Marshal (partial_task pr)]).
Proof.
  intros Hconn Hmode Hq HN.
  set (w0 := setRuntime (setWorkerMode true (runtime w)) w).
  assert (Hconn0 : rmqConnection (runtime w0) = Connection objs) by exact Hconn.
  assert (Hq0 : quiet w0) by by apply quiet_setRuntime.
  assert (HN0 : 0 <= RetryQueueCount (runtime w0)) by exact HN.
  destruct (initializeFlows_count w0 (map fst (map_to_list (Flows (runtime w0)))) Hq0 HN0
              objs (taskQueues (runtime w0))) as (objs' & tq' & Hrun & _ & _).
  rewrite <- (initializeTaskQueues_run w0 objs Hconn0) in Hrun.
  exists (with_queues w0 objs' tq'). split; [|split; [reflexivity|]].
  - unfold EnterWorkerMode. rewrite (bind_ok getRuntime _ _ _ _ eq_refl).
    cbv beta. rewrite Hconn, Hmode.
    rewrite (bind_ok (modifyRuntime _) _ _ _ _ eq_refl).
    by apply wrap_ok.
  - intros pr Hflow.
    destruct (initializeTaskQueues_establishes pr w0 objs Hconn0 Hq0 HN0 Hflow)
      as (w1 & Hrun1 & Hok & Hready).
    rewrite Hrun in Hrun1. injection Hrun1 as <-. by split.
Qed.

(** X17.  Leaving worker mode: on a runtime that has its connection and
    is in worker mode, [ExitWorkerMode] returns nil, clears the flag and
    [taskQueues], and stops every queue object of the connection (none
    consumes, none has a consumer; names and push queues stay).  The
    registry of flows and the broker's messages are not touched.  From
    then on [EnqueuePartialRequest] panics for every request, registered
    flow or not, and a further [ExitWorkerMode] does nothing. *)
Theorem ExitWorkerMode_clears w objs :
  rmqConnection (runtime w) = Connection objs →
  workerMode (runtime w) = true →
  ∃ w2, ExitWorkerMode w = (Ok tt, w2)
    ∧ workerMode (runtime w2) = false
    ∧ taskQueues (runtime w2) = ∅
    ∧ rmqConnection (runtime w2)
      = Connection (map (fun o => Rmq.mkQueue (Rmq.name o) (Rmq.pushQueue o) None []) objs)
    ∧ Flows (runtime w2) = Flows (runtime w)
    ∧ broker w2 = broker w
    ∧ (∀ pr, EnqueuePartialRequest pr w2 = (Panic nil_dereference, w2))
    ∧ ExitWorkerMode w2 = (Ok tt, w2).
Proof.
  intros Hconn Hmode. eexists. split.
  { unfold ExitWorkerMode. rewrite (bind_ok getRuntime _ _ _ _ eq_refl).
    cbv beta. rewrite Hconn, Hmode. simpl.
    rewrite (bind_ok (modifyRuntime _) _ _ _ _ eq_refl).
    apply wrap_ok. unfold cleanTaskQueues.
    rewrite (bind_ok getRuntime _ _ _ _ eq_refl). cbv beta.
    cbn [runtime setRuntime rmqConnection setWorkerMode]. rewrite Hconn.
    rewrite (bind_ok (modifyRuntime _) _ _ _ _ eq_refl). reflexivity. }
  simpl.
  split; [reflexivity|]. split; [reflexivity|]. split; [reflexivity|].
  split; [reflexivity|]. split; [reflexivity|]. split; [|reflexivity].
  intros pr. unfold EnqueuePartialRequest.
  rewrite (bind_ok getRuntime _ _ _ _ eq_refl). cbv beta. simpl.
  by rewrite lookup_empty.
Qed.

(** X18.  Each run of [initializeTaskQueues] that goes through opens
    [1 + RetryQueueCount] new queue objects for every registered flow,
    whether or not queues were opened for the flow before, and leaves the
    objects that were on the connection exactly as they were, consumers
    included.  So running it again, as [Register] does in worker mode for
    all the flows of the registry, doubles the queue objects and the
    consumers of the flows that had theirs. *)
Theorem initializeTaskQueues_opens_again w objs :
  rmqConnection (runtime w) = Connection objs →
  quiet w →
  0 <= RetryQueueCount (runtime w) →
  ∃ objs' tq',
    initializeTaskQueues w = (Ok tt, with_queues w objs' tq')
    ∧ length objs'
      = (length objs
         + size (Flows (runtime w)) * S (Z.to_nat (RetryQueueCount (runtime w))))%nat
    ∧ (∀ q, (q < length objs)%nat → objs' !! q = objs !! q)
    ∧ ∃ objs'' tq'',
        initializeTaskQueues (with_queues w objs' tq') = (Ok tt, with_queues w objs'' tq'')
        ∧ length objs''
          = (length objs
             + 2 * (size (Flows (runtime w)) * S (Z.to_nat (RetryQueueCount (runtime w)))))%nat
        ∧ (∀ q, (q < length objs')%nat → objs'' !! q = objs' !! q).
Proof.
  intros Hconn Hq HN.
  assert (Hsize : length (map fst (map_to_list (Flows (runtime w))))
                  = size (Flows (runtime w))).
  { by rewrite length_map, length_map_to_list. }
  destruct (initializeFlows_count w (map fst (map_to_list (Flows (runtime w)))) Hq HN
              objs (taskQueues (runtime w))) as (objs' & tq' & Hrun & Hlen & Hold).
  destruct (initializeFlows_count w (map fst (map_to_list (Flows (runtime w)))) Hq HN
              objs' tq') as (objs'' & tq'' & Hrun' & Hlen' & Hold').
  rewrite Hsize in Hlen, Hlen'.
  exists objs', tq'. split; [|split; [exact Hlen | split; [exact Hold|]]].
  { by rewrite (initializeTaskQueues_run w objs Hconn). }
  exists objs'', tq''. split; [|split; [lia | exact Hold']].
  by rewrite (initializeTaskQueues_run (with_queues w objs' tq') objs' eq_refl).
Qed.

End WorkerMode2.

Lemma EnterWorkerMode_enables_enqueue_witness :
  let w : World unit :=
    mkWorld (mkRuntime (<["orders" := tt]> ∅) 2 1 false ∅ (Connection []))
            (Rmq.mkBroker ∅ (fun _ => None)) ∅ [] [] in
  let pr := mkRequest "orders" "r1" [] ∅ "" ∅ in
  fst (EnterWorkerMode w) = Ok tt
  ∧ fst (EnqueuePartialRequest pr (snd (EnterWorkerMode w))) = Ok tt.
Proof.
  intros w pr.
  assert (H1 : rmqConnection (runtime w) = Connection []) by reflexivity.
  assert (H2 : workerMode (runtime w) = false) by reflexivity.
  assert (H3 : quiet w) by (intros c; reflexivity).
  assert (H4 : 0 <= RetryQueueCount (runtime w)) by (simpl; lia).
  destruct (EnterWorkerMode_enables_enqueue w [] H1 H2 H3 H4) as (w1 & Hrun & _ & Henq).
  rewrite Hrun. split; [reflexivity|].
  apply (Henq pr). exists tt. reflexivity.
Defined.

Lemma ExitWorkerMode_clears_witness :
  let w : World unit :=
    mkWorld (mkRuntime (<["orders" := tt]> ∅) 2 0 true (<["orders" := 0%nat]> ∅)
               (Connection [Rmq.mkQueue "goflow-internal-request:orders" None (Some (10, Redis.Second))
                        ["request-consumer-0"; "request-consumer-1"]]))
            (Rmq.mkBroker ∅ (fun _ => None)) ∅ [] [] in
  let pr := mkRequest "orders" "r1" [] ∅ "" ∅ in
  fst (EnqueuePartialRequest pr w) = Ok tt
  ∧ fst (EnqueuePartialRequest pr (snd (ExitWorkerMode w))) = Panic nil_dereference.
Proof.
  intros w pr. split; [reflexivity|].
  destruct (ExitWorkerMode_clears w _ eq_refl eq_refl) as (w2 & Hrun & _ & _ & _ & _ & _ & Hp & _).
  rewrite Hrun. simpl. by rewrite Hp.
Defined.

Lemma initializeTaskQueues_opens_again_witness :
  let w : World unit :=
    mkWorld (mkRuntime (<["orders" := tt]> ∅) 2 1 true ∅ (Connection []))
            (Rmq.mkBroker ∅ (fun _ => None)) ∅ [] [] in
  ∃ objs' tq',
    initializeTaskQueues w = (Ok tt, with_queues w objs' tq')
    ∧ length objs' = 2%nat.
Proof.
  intros w.
  assert (H1 : rmqConnection (runtime w) = Connection []) by reflexivity.
  assert (H2 : quiet w) by (intros c; reflexivity).
  assert (H3 : 0 <= RetryQueueCount (runtime w)) by (simpl; lia).
  destruct (initializeTaskQueues_opens_again w [] H1 H2 H3)
    as (objs' & tq' & Hrun & Hlen & _).
  exists objs', tq'. split; [exact Hrun|]. rewrite Hlen. reflexivity.
Defined.

(** ** Registering, further *)

Section Registering2.
Context {Handler : Type}.
Implicit Types (w : World Handler) (objs : list Rmq.Queue) (flows : gmap string Handler).

Lemma checkNames_fresh (registry : gmap string Handler) (names flowNames : list string) :
  (∀ n, n ∈ names → registry !! n = None) →
  checkNames registry names flowNames = inr (flowNames ++ names).
Proof.
  revert flowNames. induction names as [|m names IH]; intros flowNames Hfresh; simpl.
  - by rewrite app_nil_r.
  - rewrite (Hfresh m) by by left.
    rewrite IH by (intros n Hn; apply Hfresh; by right).
    by rewrite <- List.app_assoc.
Qed.

Lemma foldl_insert_union {V} (m cur : gmap string V) :
  foldl (fun m kv => <[fst kv := snd kv]> m) cur (map_to_list m) = m ∪ cur.
Proof.
  apply map_eq. intros k.
  rewrite foldl_insert_lookup by apply NoDup_fst_map_to_list.
  destruct (list_find _ (map_to_list m)) as [[i [k' v]]|] eqn:Hf; simpl.
  - apply list_find_Some in Hf as (Hi & Hk & _). simpl in Hk. subst k'.
    symmetry. apply lookup_union_Some_l.
    apply elem_of_map_to_list. by eapply list_elem_of_lookup_2.
  - symmetry. apply lookup_union_r.
    destruct (m !! k) as [v|] eqn:Hm; [|done].
    exfalso. apply elem_of_map_to_list in Hm.
    eapply list_find_None in Hf. rewrite Forall_forall in Hf.
    by apply (Hf _ Hm).
Qed.

(** [Register] with names that are all new: the flows are set, then the
    queues are opened if the runtime is in worker mode, then a line is
    logged. *)
Lemma Register_run flows w objs :
  rmqConnection (runtime w) = Connection objs →
  flows ≠ ∅ →
  (∀ n, is_Some (flows !! n) → Flows (runtime w) !! n = None) →
  let flowNames := map fst (map_to_list flows) in
  Register flows w
  = bind (if workerMode (runtime w)
          then wrap (fun e => Errorf "failed to initialize task queues for flows %v, error %v"
                                [argL flowNames; argE e])
                 initializeTaskQueues
          else ret tt)
      (fun _ => log (Line "[goflow] queue workers for flows %v started successfully"
                       [argL flowNames]))
      (setRuntime (setFlows (flows ∪ Flows (runtime w)) (runtime w)) w).
Proof.
  intros Hconn Hne Hfresh flowNames. unfold Register.
  rewrite (bind_ok getRuntime _ _ _ _ eq_refl). cbv beta. rewrite Hconn.
  destruct (decide (size flows = 0%nat)) as [Hz|_].
  { by apply map_size_empty_iff in Hz. }
  rewrite (checkNames_fresh _ _ []).
  2:{ intros n Hn. apply Hfresh.
      apply list_elem_of_fmap in Hn as [[k v] [-> Hkv]].
      apply elem_of_map_to_list in Hkv. by exists v. }
  rewrite (bind_ok (modifyRuntime _) _ _ _ _ eq_refl).
  unfold modifyRuntime. simpl. by rewrite foldl_insert_union.
Qed.

(** X19.  [Register] with names that are all new, on a runtime that has
    its connection, adds the given flows to the registry however the call
    ends, also when opening their queues fails in worker mode: the flows
    are not taken out again.  Out of worker mode the call returns nil,
    logs one line and touches neither the queues nor the broker.  Whatever
    the first call returned, registering the same flows again is turned
    down with "already registered" and changes nothing. *)
Theorem Register_adds_flows flows w objs :
  rmqConnection (runtime w) = Connection objs →
  flows ≠ ∅ →
  (∀ n, is_Some (flows !! n) → Flows (runtime w) !! n = None) →
  let w' := snd (Register flows w) in
  Flows (runtime w') = flows ∪ Flows (runtime w)
  ∧ (workerMode (runtime w) = false →
     Register flows w
     = (Ok tt,
        Log (Line "[goflow] queue workers for flows %v started successfully"
               [argL (map fst (map_to_list flows))])
          (setRuntime (setFlows (flows ∪ Flows (runtime w)) (runtime w)) w)))
  ∧ ∃ n, is_Some (flows !! n)
         ∧ Register flows w' = (Fail (Errorf "flow %s already registered" [argS n]), w').
Proof.
  intros Hconn Hne Hfresh w'.
  set (w1 := setRuntime (setFlows (flows ∪ Flows (runtime w)) (runtime w)) w).
  assert (Hw' : Flows (runtime w') = flows ∪ Flows (runtime w)
                ∧ is_Some (queues (rmqConnection (runtime w')))).
  { unfold w'. rewrite (Register_run flows w objs Hconn Hne Hfresh). fold w1.
    destruct (workerMode (runtime w)).
    - pose proof (framed_initializeTaskQueues (Handler := Handler) w1)
        as (A1 & _ & _ & _ & _ & _ & _ & _ & A9).
      assert (Hc1 : rmqConnection (runtime w1) = Connection objs) by exact Hconn.
      rewrite Hc1 in A9.
      unfold bind, wrap.
      destruct (initializeTaskQueues w1) as [[[]|e|r] w2]; simpl in *;
        (split; [exact A1|]);
        (destruct (rmqConnection (runtime w2)) as [| |objs2];
           [done | done | by exists objs2]).
    - simpl. split; [reflexivity|]. rewrite Hconn. by exists objs. }
  destruct Hw' as [Hflows [objs' Hconn'%queues_Some]].
  split; [exact Hflows|]. split.
  - intros Hmode. rewrite (Register_run flows w objs Hconn Hne Hfresh), Hmode.
    reflexivity.
  - destruct (map_choose flows Hne) as (name & given & Hgiven).
    destruct (Register_duplicate flows w' objs' name Hconn') as (n & Hn & _ & Hrun).
    + by exists given.
    + rewrite Hflows. exists given. by apply lookup_union_Some_l.
    + by exists n.
Qed.

(** X20.  [Register] in worker mode opens queues for all the flows of the
    registry, those registered before included: with a broker that refuses
    nothing and a [RetryQueueCount] that is not negative it returns nil,
    and the connection then holds [1 + RetryQueueCount] new queue objects
    for each flow of the enlarged registry, after the objects it held,
    which stay as they were. *)
Theorem Register_worker_mode_reopens flows w objs :
  rmqConnection (runtime w) = Connection objs →
  flows ≠ ∅ →
  (∀ n, is_Some (flows !! n) → Flows (runtime w) !! n = None) →
  workerMode (runtime w) = true →
  quiet w →
  0 <= RetryQueueCount (runtime w) →
  ∃ objs' tq',
    Register flows w
    = (Ok tt,
       Log (Line "[goflow] queue workers for flows %v started successfully"
              [argL (map fst (map_to_list flows))])
         (with_queues (setRuntime (setFlows (flows ∪ Flows (runtime w)) (runtime w)) w)
            objs' tq'))
    ∧ length objs'
      = (length objs
         + (size flows + size (Flows (runtime w)))
           * S (Z.to_nat (RetryQueueCount (runtime w))))%nat
    ∧ (∀ q, (q < length objs)%nat → objs' !! q = objs !! q).
Proof.
  intros Hconn Hne Hfresh Hmode Hq HN.
  set (w1 := setRuntime (setFlows (flows ∪ Flows (runtime w)) (runtime w)) w).
  assert (Hsize : length (map fst (map_to_list (Flows (runtime w1))))
                  = (size flows + size (Flows (runtime w)))%nat).
  { rewrite length_map, length_map_to_list. simpl.
    apply map_size_disj_union. apply map_disjoint_spec.
    intros n x y Hx Hy. rewrite (Hfresh n) in Hy; [done | by exists x]. }
  destruct (initializeFlows_count w1 (map fst (map_to_list (Flows (runtime w1))))
              (quiet_setRuntime w _ Hq) HN objs (taskQueues (runtime w1)))
    as (objs' & tq' & Hrun & Hlen & Hold).
  rewrite <- (initializeTaskQueues_run w1 objs Hconn) in Hrun.
  exists objs', tq'. split; [|split; [by rewrite Hlen, Hsize | exact Hold]].
  rewrite (Register_run flows w objs Hconn Hne Hfresh), Hmode. fold w1.
  by rewrite (bind_ok _ _ _ _ _ (wrap_ok _ _ _ _ _ Hrun)).
Qed.

End Registering2.

Lemma Register_adds_flows_witness :
  let w : World nat :=
    mkWorld (mkRuntime (<["orders" := 1%nat]> ∅) 2 1 true ∅ (Connection []))
            (Rmq.mkBroker ∅ (fun c => match c with
                                       | Rmq.COpenQueue _ => Some (errText "redis: down")
                                       | _ => None
                                       end)) ∅ [] [] in
  let flows : gmap string nat := <["billing" := 8%nat]> ∅ in
  fst (Register flows w)
  = Fail (Errorf "failed to initialize task queues for flows %v, error %v"
            [argL ["billing"];
             argE (Errorf "failed to open queue, error %v" [argE (errText "redis: down")])])
  ∧ Flows (runtime (snd (Register flows w))) = flows ∪ Flows (runtime w).
Proof.
  intros w flows. split; [reflexivity|].
  apply (Register_adds_flows flows w [] eq_refl).
  - intros He. apply (f_equal (fun m => m !! "billing")) in He. discriminate He.
  - intros n [h Hn]. destruct (decide (n = "billing")) as [->|Hne]; [reflexivity|].
    unfold flows in Hn. rewrite lookup_insert_ne in Hn by done. discriminate Hn.
Defined.

Lemma Register_worker_mode_reopens_witness :
  let w : World nat :=
    mkWorld (mkRuntime (<["orders" := 1%nat]> ∅) 2 1 true (<["orders" := 0%nat]> ∅)
               (Connection [Rmq.mkQueue "goflow-internal-request:orders" (Some 1%nat)
                        (Some (10, Redis.Second)) ["request-consumer-0"; "request-consumer-1"];
                      Rmq.mkQueue "goflow-internal-request:orders-push-0" None
                        (Some (10, Redis.Second)) ["request-consumer-0"]]))
            (Rmq.mkBroker ∅ (fun _ => None)) ∅ [] [] in
  let flows : gmap string nat := <["billing" := 8%nat]> ∅ in
  fst (Register flows w) = Ok tt
  ∧ (length <$> queues (rmqConnection (runtime (snd (Register flows w))))) = Some 6%nat.
Proof.
  intros w flows.
  assert (Hne : flows ≠ ∅).
  { intros He. apply (f_equal (fun m => m !! "billing")) in He. discriminate He. }
  assert (Hfresh : ∀ n, is_Some (flows !! n) → Flows (runtime w) !! n = None).
  { intros n [h Hn]. destruct (decide (n = "billing")) as [->|Hn']; [reflexivity|].
    unfold flows in Hn. rewrite lookup_insert_ne in Hn by done. discriminate Hn. }
  assert (Hq : quiet w) by (intros c; reflexivity).
  assert (HN : 0 <= RetryQueueCount (runtime w)) by (simpl; lia).
  destruct (Register_worker_mode_reopens flows w _ eq_refl Hne Hfresh eq_refl Hq HN)
    as (objs' & tq' & Hrun & Hlen & _).
  rewrite Hrun. split; [reflexivity|]. simpl. rewrite Hlen. reflexivity.
Defined.

(** ** Submitting requests *)

Section Submitting.
Context {Handler : Type}.
Variable executorInit : Handler -> Request -> World Handler -> option error * World Handler.
Variable ExecuteFlowHandler : Handler -> Request -> World Handler -> option error * World Handler.
Variable PartialExecuteFlowHandler : Handler -> Request -> World Handler -> option error * World Handler.
Variable flowExecutor : kind -> Handler -> string -> World Handler -> option error * World Handler.

Local Abbreviation consume'' :=
  (Consume executorInit ExecuteFlowHandler PartialExecuteFlowHandler flowExecutor).
Local Abbreviation handle'' :=
  (handleRequest executorInit ExecuteFlowHandler PartialExecuteFlowHandler flowExecutor).

Lemma submitters_submit (op : string -> Request -> M Handler unit) (ty : string) :
  (op, ty) ∈ submitters → op = submit ty.
Proof.
  unfold submitters. intros H.
  repeat (apply elem_of_cons in H as [[= -> ->]|H]; [reflexivity|]).
  by apply elem_of_nil in H.
Qed.

Lemma submit_quiet (ty flowName : string) (r : Request) (w : World Handler) :
  quiet w →
  submit ty flowName r w
  = (Ok tt, setBroker (enqueued (internalRequestQueueId flowName)
                         [Json.Marshal (task_of ty flowName r)] (broker w)) w).
Proof.
  intros Hq. unfold submit, bind, wrap, refused, publish, Rmq.PublishBytes.
  fold (task_of ty flowName r). by rewrite !Hq.
Qed.

(** What a refusal of the broker does to a submission: the error is
    returned under the words of the step that failed, nothing is
    published. *)
Lemma submit_refused (ty flowName : string) (r : Request) (w : World Handler) :
  (∃ c, Rmq.refuses (broker w) c ≠ None
        ∧ c ∈ [Rmq.COpenConnection "goflow";
               Rmq.COpenQueue (internalRequestQueueId flowName);
               Rmq.CPublish (internalRequestQueueId flowName)
                 (Json.Marshal (task_of ty flowName r))]) →
  ∃ format e, submit ty flowName r w = (Fail (Errorf format [argE e]), w).
Proof.
  intros (c & Hc & Hin).
  unfold submit, bind, wrap, refused, publish, Rmq.PublishBytes.
  fold (task_of ty flowName r).
  destruct (Rmq.refuses (broker w) (Rmq.COpenConnection "goflow")) as [e|] eqn:E1;
    [by eexists _, _|].
  destruct (Rmq.refuses (broker w) (Rmq.COpenQueue _)) as [e|] eqn:E2; [by eexists _, _|].
  destruct (Rmq.refuses (broker w) (Rmq.CPublish _ _)) as [e|] eqn:E3.
  { eexists _, _. by rewrite setBroker_same. }
  exfalso. repeat (apply elem_of_cons in Hin as [->|Hin]; [congruence|]).
  by apply elem_of_nil in Hin.
Qed.

(** X21.  [Execute], [Pause], [Stop] and [Resume] put their task at the
    end of the one queue [goflow-internal-request:<flowName>], in the
    order of the calls, and nothing else changes: with a broker that
    refuses nothing, two of these calls for the same flow return nil and
    leave the two tasks, first call first, behind the messages that were
    there.  None of them looks at the registry, at the worker mode or at
    the connection of the runtime: the flow need not be registered.  When
    the broker refuses one of the calls of a submission, an error is
    returned and nothing is published. *)
Theorem submissions_queue_in_order (op1 op2 : string -> Request -> M Handler unit)
    (ty1 ty2 flowName : string) (r1 r2 : Request) (w : World Handler) :
  (op1, ty1) ∈ submitters → (op2, ty2) ∈ submitters →
  (quiet w →
   ∃ w1, op1 flowName r1 w = (Ok tt, w1)
     ∧ op2 flowName r2 w1
       = (Ok tt, setBroker (enqueued (internalRequestQueueId flowName)
                              [Json.Marshal (task_of ty1 flowName r1);
                               Json.Marshal (task_of ty2 flowName r2)] (broker w)) w))
  ∧ (Rmq.refuses (broker w) (Rmq.CPublish (internalRequestQueueId flowName)
                                (Json.Marshal (task_of ty1 flowName r1))) ≠ None →
     ∃ format e, op1 flowName r1 w = (Fail (Errorf format [argE e]), w)).
Proof.
  intros H1%submitters_submit H2%submitters_submit. subst op1 op2. split.
  - intros Hq. eexists. split; [by apply submit_quiet|].
    rewrite submit_quiet by (intros c; apply Hq).
    unfold setBroker, enqueued. simpl. rewrite lookup_insert_eq. simpl.
    by rewrite insert_insert_eq, <- List.app_assoc.
  - intros Hr. apply submit_refused. eexists. split; [exact Hr|]. set_solver.
Qed.

(** X22.  What is submitted is what is handled: for a request whose
    strings are valid UTF-8 and a valid flow name, the payload that
    [Execute], [Pause], [Stop] or [Resume] publishes parses, in [Consume],
    to the task it was made from, and [handleRequest] hands the request,
    under the flow name given to the call, to the handler of the request
    type: [handleNewRequest], [handlePauseRequest], [handleStopRequest] or
    [handleResumeRequest].  When that handler returns nil, Ack is the one
    call [Consume] makes on the delivery. *)
Theorem submitted_request_reaches_handler
    (op : string -> Request -> M Handler unit) (ty : string)
    (handler : Request -> World Handler -> option error * World Handler)
    (flowName : string) (r : Request) (message : Rmq.Delivery) (w : World Handler) :
  (op, ty, handler)
  ∈ [(Execute, NewRequest,
      handleNewRequest executorInit ExecuteFlowHandler);
     (Pause, PauseRequest, handlePauseRequest executorInit flowExecutor);
     (Stop, StopRequest, handleStopRequest executorInit flowExecutor);
     (Resume, ResumeRequest, handleResumeRequest executorInit flowExecutor)] →
  valid_request r = true →
  Utf8.ValidString flowName = true →
  Rmq.Payload message = Json.Marshal (task_of ty flowName r) →
  (∀ w0 w1, op flowName r w0 = (Ok tt, w1) →
     ∃ earlier, Rmq.ready (broker w1) !! internalRequestQueueId flowName
                = Some (earlier ++ [Rmq.Payload message]))
  ∧ Json.Unmarshal (Rmq.Payload message) = inr (task_of ty flowName r)
  ∧ handle'' (makeRequestFromTask (task_of ty flowName r)) ty w
    = handler (with_flow flowName r) w
  ∧ (fst (handler (with_flow flowName r) w) = None →
     Rmq.calls (fst (consume'' message w)) = Rmq.calls message ++ [Rmq.Ack]).
Proof.
  intros Hin Hr Hf Hpay.
  assert (Hop : op = submit ty ∧ Utf8.ValidString ty = true
                ∧ ∀ req, handle'' req ty w = handler req w).
  { repeat (apply elem_of_cons in Hin as [[= -> -> ->]|Hin];
            [split; [reflexivity|]; split; reflexivity|]).
    by apply elem_of_nil in Hin. }
  destruct Hop as (-> & Hty & Hh).
  assert (Hreq : makeRequestFromTask (task_of ty flowName r) = with_flow flowName r).
  { destruct r. unfold makeRequestFromTask, task_of, with_flow, bytes_of_string, string_of_bytes.
    simpl. by rewrite list_byte_of_string_of_list_byte. }
  assert (Hun : Json.Unmarshal (Rmq.Payload message) = inr (task_of ty flowName r)).
  { rewrite Hpay. unfold valid_request in Hr.
    repeat (apply andb_true_iff in Hr as [Hr ?]).
    by apply Unmarshal_Marshal. }
  split; [|split; [exact Hun|split]].
  - intros w0 w1. rewrite Hpay.
    unfold submit, bind, wrap, refused, publish, Rmq.PublishBytes.
    fold (task_of ty flowName r).
    destruct (Rmq.refuses (broker w0) (Rmq.COpenConnection "goflow")); [discriminate|].
    destruct (Rmq.refuses (broker w0) (Rmq.COpenQueue _)); [discriminate|].
    destruct (Rmq.refuses (broker w0) (Rmq.CPublish _ _)); [discriminate|].
    intros H. inversion H; subst. simpl. eexists. by rewrite lookup_insert_eq.
  - by rewrite Hreq, Hh.
  - intros Hnone.
    destruct (handler (with_flow flowName r) w) as [res w1] eqn:E. simpl in Hnone. subst res.
    eapply Consume_success; [exact Hun|].
    cbn [RequestType task_of]. rewrite Hreq, Hh. exact E.
Qed.

End Submitting.

Lemma submissions_queue_in_order_witness :
  let w : World unit :=
    mkWorld (mkRuntime ∅ 1 1 false ∅ NoConnection) (Rmq.mkBroker ∅ (fun _ => None)) ∅ [] [] in
  let r := mkRequest "" "r1" [] ∅ "" ∅ in
  Rmq.ready (broker (snd (Pause "orders" r (snd (Execute "orders" r w)))))
    !! "goflow-internal-request:orders"
  = Some [Json.Marshal (task_of NewRequest "orders" r);
          Json.Marshal (task_of PauseRequest "orders" r)].
Proof.
  intros w r.
  assert (H1 : (Execute, NewRequest) ∈ submitters (Handler := unit)) by left.
  assert (H2 : (Pause, PauseRequest) ∈ submitters (Handler := unit)) by (right; left).
  assert (Hq : quiet w) by (intros c; reflexivity).
  destruct (proj1 (submissions_queue_in_order Execute Pause NewRequest PauseRequest
                     "orders" r r w H1 H2) Hq) as (w1 & Hrun1 & Hrun2).
  rewrite Hrun1. simpl. rewrite Hrun2. reflexivity.
Defined.

Lemma submitted_request_reaches_handler_witness :
  let idle : unit -> Request -> World unit -> option error * World unit :=
    fun _ _ w => (None, w) in
  let w : World unit :=
    mkWorld (mkRuntime (<["orders" := tt]> ∅) 1 1 true ∅ (Connection []))
            (Rmq.mkBroker ∅ (fun _ => None)) ∅ [] [] in
  let r := mkRequest "" "r1" [Byte.x7b; Byte.x7d] ∅ "" ∅ in
  let message :=
    Rmq.mkDelivery (Json.Marshal (task_of StopRequest "orders" r)) Rmq.Unacked []
      (fun _ => None) in
  Rmq.calls (fst (Consume idle idle idle (fun _ _ _ w => (None, w)) message w)) = [Rmq.Ack].
Proof.
  intros idle w r message.
  refine (proj2 (proj2 (proj2
    (submitted_request_reaches_handler idle idle idle (fun _ _ _ w => (None, w))
       Stop StopRequest (handleStopRequest idle (fun _ _ _ w => (None, w)))
       "orders" r message w _ eq_refl eq_refl eq_refl))) eq_refl).
  do 2 right; left.
Defined.

(** ** The worker registry, further *)

Section Registry2.
Context {Handler : Type}.
Variable getFlowDefinition : Handler -> error + string.
Implicit Types (w : World Handler) (worker : Worker).

Lemma collectDetails_keys (flows : list (string * Handler)) worker worker'
    (details details' : gmap string string) (res : option error) (k : string) :
  collectDetails getFlowDefinition flows worker details = (res, worker', details') →
  k ∉ map fst flows → details' !! k = details !! k.
Proof.
  revert worker details. induction flows as [|[flowID h] flows IH]; intros worker details H Hk.
  - simpl in H. by inversion H.
  - simpl in H. destruct (getFlowDefinition h) as [err|dag] eqn:Hg.
    + by inversion H.
    + rewrite (IH _ _ H).
      * apply lookup_insert_ne. intros ->. apply Hk. by left.
      * intros Hin. apply Hk. by right.
Qed.

Lemma collectDetails_worker (flows : list (string * Handler)) worker worker'
    (details details' : gmap string string) (res : option error) :
  collectDetails getFlowDefinition flows worker details = (res, worker', details') →
  ID worker' = ID worker ∧ WorkerConcurrency worker' = WorkerConcurrency worker
  ∧ ∃ visited, WorkerFlows worker' = WorkerFlows worker ++ visited
               ∧ visited `prefix_of` map fst flows
               ∧ (res = None → visited = map fst flows).
Proof.
  revert worker details. induction flows as [|[flowID h] flows IH]; intros worker details H.
  - simpl in H. inversion H; subst. split; [done|]. split; [done|].
    exists []. by rewrite app_nil_r.
  - simpl in H. destruct (getFlowDefinition h) as [err|dag] eqn:Hg.
    + inversion H; subst. simpl. split; [done|]. split; [done|].
      exists [flowID]. split; [done|]. split; [|done]. by exists (map fst flows).
    + destruct (IH _ _ H) as (Hid & Hc & visited & Hv & Hpre & Hall). simpl in *.
      split; [done|]. split; [done|]. exists (flowID :: visited).
      split; [by rewrite Hv, <- List.app_assoc|].
      split; [by apply prefix_cons | intros Hn; by rewrite Hall].
Qed.

Lemma foldl_SET_other (l : list (string * string)) (db : gmap string (Redis.entry Json.wire))
    (k : string) :
  (∀ kv, kv ∈ l → FlowKeyInitial +:+ ":" +:+ fst kv ≠ k) →
  foldl (fun db kv =>
           Redis.SET (FlowKeyInitial +:+ ":" +:+ fst kv) (Json.Text (snd kv))
             (Redis.Second * RDBKeyTimeOut) db) db l !! k
  = db !! k.
Proof.
  revert db. induction l as [|kv l IH]; intros db Hk; [done|].
  simpl. rewrite IH by (intros kv' Hin; apply Hk; by right).
  unfold Redis.SET. rewrite lookup_insert_ne; [done|]. apply Hk. by left.
Qed.

(** X23.  A run of [registerDetails], whatever it returns, changes
    nothing but registry keys of its own: the runtime, the broker and what
    was logged and printed are as before, the worker keeps its id and its
    concurrency, and every key of the database other than
    [goflow-worker:<id>] and the keys [goflow-flow:<name>] of the
    registered flows holds what it held. *)
Theorem registerDetails_touches_own_keys worker w (k : string) :
  let worker' := snd (fst (registerDetails getFlowDefinition worker w)) in
  let w' := snd (registerDetails getFlowDefinition worker w) in
  runtime w' = runtime w ∧ broker w' = broker w
  ∧ logged w' = logged w ∧ printed w' = printed w
  ∧ ID worker' = ID worker ∧ WorkerConcurrency worker' = WorkerConcurrency worker
  ∧ (k = WorkerKeyInitial +:+ ":" +:+ ID worker
     ∨ (∃ flow, is_Some (Flows (runtime w) !! flow) ∧ k = FlowKeyInitial +:+ ":" +:+ flow)
     ∨ rdb w' !! k = rdb w !! k).
Proof.
  intros worker' w'. unfold worker', w', registerDetails.
  destruct (collectDetails getFlowDefinition (map_to_list (Flows (runtime w))) worker ∅)
    as [[res wk] details] eqn:Hc.
  destruct (collectDetails_worker _ _ _ _ _ _ Hc) as (Hid & Hconc & _).
  destruct res as [err|]; simpl.
  { repeat (split; [done|]). by do 2 right. }
  assert (Hkeys : ∀ kv, kv ∈ map_to_list details → is_Some (Flows (runtime w) !! fst kv)).
  { intros [flow dag] Hin. apply elem_of_map_to_list in Hin. simpl.
    destruct (decide (flow ∈ map fst (map_to_list (Flows (runtime w))))) as [Hf|Hf].
    - apply list_elem_of_fmap in Hf as [[f h] [-> Hfh]].
      apply elem_of_map_to_list in Hfh. by exists h.
    - rewrite (collectDetails_keys _ _ _ _ _ _ _ Hc Hf), lookup_empty in Hin. done. }
  assert (Hdone : ∀ db : gmap string (Redis.entry Json.wire),
    db !! k = rdb w !! k →
    (∃ flow, is_Some (Flows (runtime w) !! flow) ∧ k = FlowKeyInitial +:+ ":" +:+ flow)
    ∨ foldl (fun db kv =>
               Redis.SET (FlowKeyInitial +:+ ":" +:+ fst kv) (Json.Text (snd kv))
                 (Redis.Second * RDBKeyTimeOut) db) db (map_to_list details) !! k
      = rdb w !! k).
  { intros db Hdb.
    destruct (decide (Exists (fun kv => FlowKeyInitial +:+ ":" +:+ fst kv = k)
                        (map_to_list details))) as [Hex|Hno].
    - apply Exists_exists in Hex as (kv & Hin & Hk).
      left. exists (fst kv). split; [by apply Hkeys | done].
    - right. rewrite foldl_SET_other; [done|].
      intros kv Hin Hk. apply Hno. apply Exists_exists. by exists kv. }
  destruct (decide (k = WorkerKeyInitial +:+ ":" +:+ ID worker)) as [Hk|Hk].
  { destruct (workerMode (runtime w)); simpl; repeat (split; [done|]); by left. }
  destruct (workerMode (runtime w)); simpl; repeat (split; [done|]); right.
  - apply Hdone. unfold Redis.SET. apply lookup_insert_ne. by rewrite Hid.
  - apply Hdone. rewrite DEL_delete. apply lookup_delete_ne. by rewrite Hid.
Qed.

Lemma collectDetails_exported (flows : list (string * Handler)) worker
    (details : gmap string string) :
  (∀ flow h, (flow, h) ∈ flows → ∃ dag, getFlowDefinition h = inr dag) →
  ∃ details',
    collectDetails getFlowDefinition flows worker details
    = (None,
       mkWorker (ID worker) (WorkerFlows worker ++ map fst flows) (WorkerConcurrency worker),
       details').
Proof.
  revert worker details. induction flows as [|[flowID h] flows IH]; intros worker details Hall.
  - exists details. simpl. rewrite app_nil_r. by destruct worker.
  - simpl. destruct (Hall flowID h) as [dag ->]; [by left|].
    destruct (IH (mkWorker (ID worker) (WorkerFlows worker ++ [flowID])
                    (WorkerConcurrency worker)) (<[flowID := dag]> details)) as [d' ->].
    { intros flow h' Hin. apply (Hall flow h'). by right. }
    exists d'. simpl. by rewrite <- List.app_assoc.
Qed.

Lemma registerDetails_exported worker w :
  (∀ flow h, Flows (runtime w) !! flow = Some h → ∃ dag, getFlowDefinition h = inr dag) →
  ∃ w', registerDetails getFlowDefinition worker w
        = (None,
           mkWorker (ID worker)
             (WorkerFlows worker ++ map fst (map_to_list (Flows (runtime w))))
             (WorkerConcurrency worker),
           w')
        ∧ runtime w' = runtime w.
Proof.
  intros Hall. unfold registerDetails.
  destruct (collectDetails_exported (map_to_list (Flows (runtime w))) worker ∅) as [d' ->].
  { intros flow h Hin. apply (Hall flow h). by apply elem_of_map_to_list. }
  destruct (workerMode (runtime w)); simpl; by eexists.
Qed.

Lemma concat_replicate_end {A} (k : nat) (l : list A) :
  concat (replicate k l) ++ l = concat (replicate (S k) l).
Proof.
  induction k as [|k IH]; simpl in *; [by rewrite app_nil_r|].
  by rewrite <- List.app_assoc, IH.
Qed.

Lemma everyInterval_flows (others : list (World Handler -> World Handler)) :
  ∀ (n : Z) worker w (k : nat),
  (∀ other w0, other ∈ others → runtime (other w0) = runtime w0) →
  (∀ flow h, Flows (runtime w) !! flow = Some h → ∃ dag, getFlowDefinition h = inr dag) →
  WorkerFlows worker = concat (replicate k (map fst (map_to_list (Flows (runtime w))))) →
  ∀ i reg, everyInterval getFlowDefinition others n worker w !! i = Some reg →
    result reg = None
    ∧ worker_after reg
      = mkWorker (ID worker)
          (concat (replicate (k + S i) (map fst (map_to_list (Flows (runtime w))))))
          (WorkerConcurrency worker).
Proof.
  induction others as [|other others IH]; intros n worker w k Hkeep Hall Hflows i reg Hi;
    [done|].
  simpl in Hi.
  assert (Hrt : runtime (other w) = runtime w) by (apply Hkeep; by left).
  destruct (registerDetails_exported worker (other w)) as (w1 & Hrun & Hrt1).
  { rewrite Hrt. exact Hall. }
  rewrite Hrun in Hi. rewrite Hrt in Hi.
  destruct i as [|i]; simpl in Hi.
  - inversion Hi; subst reg. simpl. split; [done|].
    by rewrite Hflows, concat_replicate_end, Nat.add_1_r.
  - eapply (IH _ _ _ (S k)) in Hi.
    + cbn [ID WorkerConcurrency] in Hi. rewrite Hrt1, Hrt in Hi.
      replace (k + S (S i))%nat with (S k + S i)%nat by lia. exact Hi.
    + intros other' w0 Hin. apply Hkeep. by right.
    + rewrite Hrt1, Hrt. exact Hall.
    + simpl WorkerFlows. rewrite Hrt1, Hrt, Hflows. apply concat_replicate_end.
Qed.

(** X24.  The worker that [StartRuntime] registers lists its flows once
    more at every run: the flows are appended to [worker.Flows] at each
    run of [registerDetails] and the slice is never reset.  When the
    exports succeed and the rest of the program leaves the runtime as it
    is, the run number [i] (the first being number 0) leaves a worker
    whose flows are the names of the registry [i + 1] times over; this is
    the worker it writes under [goflow-worker:<id>]. *)
Theorem StartRuntime_worker_flows_grow (id : string)
    (others : list (World Handler -> World Handler)) w :
  (∀ other w0, other ∈ others → runtime (other w0) = runtime w0) →
  (∀ flow h, Flows (runtime w) !! flow = Some h → ∃ dag, getFlowDefinition h = inr dag) →
  let names := map fst (map_to_list (Flows (runtime w))) in
  fst (StartRuntime getFlowDefinition id others w) = None
  ∧ ∀ i reg, snd (StartRuntime getFlowDefinition id others w) !! i = Some reg →
      result reg = None
      ∧ worker_after reg
        = mkWorker id (concat (replicate (S i) names)) (Concurrency (runtime w))
      ∧ (workerMode (runtime (before reg)) = true →
         Redis.value <$> rdb (after reg) !! (WorkerKeyInitial +:+ ":" +:+ id)
         = Some (marshalWorker
                   (mkWorker id (concat (replicate (S i) names)) (Concurrency (runtime w))))).
Proof.
  intros Hkeep Hall names. unfold StartRuntime.
  destruct (registerDetails_exported (mkWorker id [] (Concurrency (runtime w))) w Hall)
    as (w1 & Hrun & Hrt1).
  rewrite Hrun. simpl. split; [reflexivity|].
  assert (Hmain : ∀ i reg,
    (mkRegistration 0 w None
       (mkWorker id (map fst (map_to_list (Flows (runtime w)))) (Concurrency (runtime w))) w1
     :: everyInterval getFlowDefinition others 1
          (mkWorker id (map fst (map_to_list (Flows (runtime w)))) (Concurrency (runtime w)))
          w1) !! i = Some reg →
    result reg = None
    ∧ worker_after reg
      = mkWorker id (concat (replicate (S i) names)) (Concurrency (runtime w))).
  { intros [|i] reg Hi; simpl in Hi.
    - inversion Hi; subst reg. simpl. split; [done|]. by rewrite app_nil_r.
    - eapply (everyInterval_flows _ _ _ _ 1) in Hi.
      + rewrite Hrt1 in Hi. exact Hi.
      + exact Hkeep.
      + rewrite Hrt1. exact Hall.
      + simpl. by rewrite Hrt1, app_nil_r. }
  intros i reg Hi. destruct (Hmain i reg Hi) as [Hres Hw].
  split; [exact Hres|]. split; [exact Hw|].
  intros Hmode.
  assert (Hreg : registered_details getFlowDefinition id reg).
  { destruct i as [|i]; simpl in Hi.
    - inversion Hi; subst reg. exact (registerDetails_spec _ _ _ _ _ _ Hrun).
    - destruct (everyInterval_spec getFlowDefinition id others 1
                  (mkWorker id (map fst (map_to_list (Flows (runtime w))))
                     (Concurrency (runtime w))) w1 eq_refl) as (_ & Hrest & _).
      exact (proj2 (Hrest i reg Hi)). }
  destruct Hreg as [_ Hreg]. rewrite Hres in Hreg. destruct Hreg as [Hkey _].
  change (WorkerKeyInitial +:+ ":" +:+ id) with ("goflow-worker:" +:+ id).
  rewrite Hkey, Hmode. simpl. by rewrite Hw.
Qed.

End Registry2.

Lemma StartRuntime_worker_flows_grow_witness :
  let export : unit -> error + string := fun _ => inr "dag"%string in
  let w : World unit :=
    mkWorld (mkRuntime (<["orders" := tt]> ∅) 2 1 true ∅ (Connection []))
            (Rmq.mkBroker ∅ (fun _ => None)) ∅ [] [] in
  let others : list (World unit -> World unit) := [fun w => w; fun w => w] in
  ∃ reg, snd (StartRuntime export "w1" others w) !! 2%nat = Some reg
         ∧ worker_after reg = mkWorker "w1" ["orders"; "orders"; "orders"] 2.
Proof.
  intros export w others.
  assert (Hkeep : ∀ (other : World unit -> World unit) w0,
            other ∈ others → runtime (other w0) = runtime w0).
  { intros other w0 Hin. unfold others in Hin.
    repeat (apply elem_of_cons in Hin as [->|Hin]; [reflexivity|]).
    by apply elem_of_nil in Hin. }
  assert (Hall : ∀ flow h, Flows (runtime w) !! flow = Some h → ∃ dag, export h = inr dag).
  { intros flow h _. by exists "dag"%string. }
  destruct (StartRuntime_worker_flows_grow export "w1" others w Hkeep Hall) as [_ Hregs].
  destruct (snd (StartRuntime export "w1" others w) !! 2%nat) as [reg|] eqn:E.
  - exists reg. split; [reflexivity|].
    exact (proj1 (proj2 (Hregs 2%nat reg E))).
  - vm_compute in E. discriminate E.
Defined.
